(** * Wellness-scribe backend: the retrieval pipeline

    A shallow embedding of the RAG services of the backend
    (embedding.service.ts, vector-search.service.ts, cache.service.ts,
    rag.service.ts and mistral-api.service.ts) and of their callers
    [generateChatResponse] of ai.service.ts and [generateResponse] of
    rag.controller.ts, together with the properties of the specification
    that concern them and further properties of the code.

    Conventions of the embedding.
    - A JavaScript [number] is an IEEE 754 binary64 value: Rocq's primitive
      [float], whose operations are the processor's.  NaN, the infinities and
      the two zeros are therefore the real ones.
    - A JavaScript string is a Rocq [string]; code units are restricted to
      the 8-bit range, and [toLowerCase] and [trim] act on that range.
    - Asynchronous methods are run to completion: a method is a function of
      the world it starts in, and the points where it awaits a collaborator
      take the collaborator's answer from an environment of oracles.
    - [throw] and [try]/[catch] are an error monad over the world. *)

From Stdlib Require Import ZArith List String Ascii Floats Lia Bool Uint63.
From Stdlib Require Import Sorting.Sorted Sorting.Permutation.
From Stdlib Require Import DecimalString DecimalZ DecimalPos.
From stdpp Require Import base gmap strings.

Set Warnings "-inexact-float".

Local Open Scope string_scope.
Local Open Scope list_scope.

(** ** JavaScript strings *)

Module JsString.

Definition dquote : string := String (ascii_of_nat 34) EmptyString.
Definition newline : string := String (ascii_of_nat 10) EmptyString.

Definition code (c : ascii) : Z := Z.of_nat (nat_of_ascii c).

(** [String.prototype.toLowerCase] on one code unit of the 8-bit range: the
    capitals are A..Z and the code units 192..222 except the multiplication
    sign 215, and the small letter of each is 32 further. *)
Definition lower_char (c : ascii) : ascii :=
  let n := nat_of_ascii c in
  if ((65 <=? n) && (n <=? 90) || (192 <=? n) && (n <=? 222) && negb (n =? 215))%nat
  then ascii_of_nat (n + 32) else c.

Fixpoint toLowerCase (s : string) : string :=
  match s with
  | EmptyString => EmptyString
  | String c r => String (lower_char c) (toLowerCase r)
  end.

(** [hay.includes(needle)]. *)
Fixpoint includes (hay needle : string) : bool :=
  if String.prefix needle hay then true
  else match hay with
       | EmptyString => false
       | String _ r => includes r needle
       end.

(** [s.split(sep)] for a one-character separator: always at least one piece. *)
Fixpoint split_on (sep : ascii) (cur s : string) : list string :=
  match s with
  | EmptyString => [cur]
  | String c r =>
      if Ascii.eqb c sep then cur :: split_on sep EmptyString r
      else split_on sep (cur ++ String c EmptyString) r
  end.

Definition split (sep : ascii) (s : string) : list string :=
  split_on sep EmptyString s.

Definition is_terminator (c : ascii) : bool :=
  Ascii.eqb c "." || Ascii.eqb c "!" || Ascii.eqb c "?".

(** [s.split(/[.!?]+/)]: a maximal run of terminators is one separator. *)
Fixpoint split_runs (cur : string) (in_run : bool) (s : string) : list string :=
  match s with
  | EmptyString => [cur]
  | String c r =>
      if is_terminator c then
        if in_run then split_runs cur true r
        else cur :: split_runs EmptyString true r
      else split_runs (cur ++ String c EmptyString) false r
  end.

Definition split_sentences (s : string) : list string :=
  split_runs EmptyString false s.

(** White space of [String.prototype.trim] in the 8-bit range. *)
Definition is_space (c : ascii) : bool :=
  let n := nat_of_ascii c in
  ((9 <=? n) && (n <=? 13) || (n =? 32) || (n =? 160))%nat.

Fixpoint trimStart (s : string) : string :=
  match s with
  | EmptyString => EmptyString
  | String c r => if is_space c then trimStart r else s
  end.

(** Drops the trailing white space: a character is kept when it is not a
    space or when something is kept after it. *)
Fixpoint trimEnd (s : string) : string :=
  match s with
  | EmptyString => EmptyString
  | String c r =>
      match trimEnd r with
      | EmptyString => if is_space c then EmptyString else String c EmptyString
      | r' => String c r'
      end
  end.

Definition trim (s : string) : string := trimEnd (trimStart s).

(** [xs.join(sep)]. *)
Fixpoint join (sep : string) (xs : list string) : string :=
  match xs with
  | [] => EmptyString
  | [x] => x
  | x :: r => x ++ sep ++ join sep r
  end.

(** A string is falsy exactly when it is empty. *)
Definition truthy (s : string) : bool :=
  match s with EmptyString => false | _ => true end.

(** Decimal rendering of an integer, as a template literal prints it. *)
Definition of_Z (z : Z) : string :=
  DecimalString.NilZero.string_of_int (Z.to_int z).

(** [`${x}`] for an optional value: [undefined] prints as its name. *)
Definition of_option {A} (show : A -> string) (x : option A) : string :=
  match x with Some a => show a | None => "undefined" end.

End JsString.

(** ** JavaScript numbers *)

Module JsNumber.
Local Open Scope float_scope.

Definition number := float.

(** The length of an array as a number.  An array holds fewer than 2^32
    elements, and every such integer is a binary64 value. *)
Definition of_nat (n : nat) : number :=
  of_uint63 (Uint63.of_Z (Z.min (Z.of_nat n) (2 ^ 32 - 1))).

(** An integer number of milliseconds as a number. *)
Definition of_Z (z : Z) : number :=
  if (z <? 0)%Z then - of_uint63 (Uint63.of_Z (- z)) else of_uint63 (Uint63.of_Z z).

(** [Math.min(a, b)]: NaN if either is NaN, and -0 is below +0. *)
Definition Math_min (a b : number) : number :=
  if is_nan a || is_nan b then nan
  else if a <? b then a
  else if b <? a then b
  else if get_sign a then a else b.

(** [Math.max(a, b)]: NaN if either is NaN, and +0 is above -0. *)
Definition Math_max (a b : number) : number :=
  if is_nan a || is_nan b then nan
  else if a <? b then b
  else if b <? a then a
  else if get_sign a then b else a.

(** [a.slice(0, end)] for an integer [end]: a negative [end] counts from
    the back. *)
Definition slice0 {A} (l : list A) (fin : Z) : list A :=
  if (fin <? 0)%Z then firstn (Z.to_nat (Z.of_nat (length l) + fin)) l
  else firstn (Z.to_nat fin) l.

(** [a.slice(-n)] for a positive [n]: the last [n] elements. *)
Definition slice_last {A} (n : nat) (l : list A) : list A :=
  skipn (length l - n) l.

(** [Array.prototype.sort(cmp)].  The sort is stable, and [x] moves behind
    [y] exactly when [cmp x y] is positive; a NaN from the comparator
    counts as 0.  For a consistent comparator the result is the stable
    ordering, which insertion computes.  For a comparator that is not
    consistent (the rankings below compare by a difference of scores, which
    is NaN against a NaN score and against nothing else) the language leaves
    the order to the engine: the result is then some permutation of the
    array, and insertion computes one of them.  The properties that depend
    on the order are stated for scores that are numbers; the others hold of
    every permutation. *)
Fixpoint sort_insert {A} (cmp : A -> A -> number) (x : A) (l : list A) : list A :=
  match l with
  | [] => [x]
  | y :: r => if 0 <? cmp x y then y :: sort_insert cmp x r else x :: y :: r
  end.

Fixpoint sort {A} (cmp : A -> A -> number) (l : list A) : list A :=
  match l with
  | [] => []
  | x :: r => sort_insert cmp x (sort cmp r)
  end.

(** The predicates of the properties below. *)
Definition nonneg (x : number) : Prop := (0 <=? x) = true.
Definition in_unit (x : number) : Prop := (0 <=? x) = true /\ (x <=? 1) = true.
Definition isNaN (x : number) : Prop := is_nan x = true.

End JsNumber.


(** Classes of binary64 values, read on the specification [spec_float] of a
    primitive float. *)
Module SF.

(** Of sign [s], and not NaN. *)
Definition sign_is (s : bool) (x : spec_float) : bool :=
  match x with
  | S754_zero s' | S754_infinity s' | S754_finite s' _ _ => Bool.eqb s s'
  | S754_nan => false
  end.

(** A zero, a positive finite number or plus infinity: what [0 <= x] accepts. *)
Definition nonneg (x : spec_float) : bool :=
  match x with
  | S754_zero _ => true
  | S754_infinity s | S754_finite s _ _ => negb s
  | S754_nan => false
  end.

(** A positive finite number or plus infinity: what [0 < x] accepts. *)
Definition pos (x : spec_float) : bool :=
  match x with S754_infinity s | S754_finite s _ _ => negb s | _ => false end.

Definition is_zero (x : spec_float) : bool :=
  match x with S754_zero _ => true | _ => false end.

Definition is_nan (x : spec_float) : bool :=
  match x with S754_nan => true | _ => false end.

(** Neither NaN nor an infinity. *)
Definition finite (x : spec_float) : bool :=
  match x with S754_zero _ | S754_finite _ _ _ => true | _ => false end.

(** A zero or NaN: what a product with a zero can be. *)
Definition zero_or_nan (x : spec_float) : bool := is_zero x || is_nan x.

(** A finite, strictly positive number. *)
Definition positive_finite (x : spec_float) : bool :=
  nonneg x && finite x && negb (is_zero x).

End SF.

Import JsNumber.

(** ** Errors *)

(** What a [throw] carries: the fields of an error object that the code reads. *)
Record JsError := {
  err_name : string;
  err_message : string;
  err_code : option string;
  err_response : option (Z * string)
}.

Definition new_Error (msg : string) : JsError :=
  {| err_name := "Error"; err_message := msg; err_code := None; err_response := None |}.

Inductive outcome (A : Type) : Type :=
| Ok (a : A)
| Throw (e : JsError).
Arguments Ok {A} a.
Arguments Throw {A} e.

(** ** The types of rag.types.ts *)

Record RAGWellnessDocument := {
  doc_id : string;
  _id : option string;
  title : string;
  content : string;
  category : string;
  keywords : list string;
  evidence_level : string;
  source : string;
  embedding : option (list number)
}.

Record SearchResult := {
  document : RAGWellnessDocument;
  score : number;
  relevance : number;
  sr_context : string
}.

Record SearchFilters := {
  categories : option (list string);
  evidenceLevels : option (list string);
  sources_filter : option (list string)
}.

Record UserContext := {
  healthConditions : option (list string);
  medications : option (list string);
  wellnessGoals : option (list string);
  recentTopics : option (list string);
  communicationStyle : option string
}.

Record RAGQuery := {
  query : string;
  userId : option string;
  q_context : option UserContext;
  filters : option SearchFilters;
  limit : option Z;
  threshold : option number
}.

Record ResponseMetadata := {
  vectorSearchTime : number;
  rerankingTime : number;
  cacheHit : bool
}.

Record RAGResponse := {
  r_query : string;
  response : string;
  results : list SearchResult;
  totalResults : nat;
  processingTime : Z;
  model : string;
  sources : list string;
  confidence : number;
  metadata : ResponseMetadata
}.

(** A cache entry as it is serialised into the store; [timestamp] is in
    milliseconds and [ttl] in seconds. *)
Record CacheEntry := {
  key : string;
  value : RAGResponse;
  timestamp : Z;
  ttl : Z
}.

(** conversation-context.schema.ts *)
Record ConversationMessage := {
  role : string;
  msg_content : string;
  msg_timestamp : Z
}.

Record ConversationContext := {
  cc_userId : string;
  sessionId : string;
  messages : list ConversationMessage;
  cc_context : UserContext;
  lastUpdated : Z;
  messageCount : Z
}.

(** common.types.ts; a [Date] is kept as the ISO string that
    [JSON.stringify] prints for it. *)
Record CacheFilters := {
  cf_type : option string;
  cf_category : option string;
  cf_userId : option string;
  timeRange : option (string * string)
}.

(** ** The world and its collaborators *)

(** [response.data] of the completion endpoint. *)
Record MistralMessage := { m_content : option string }.
Record MistralChoice := { message : option MistralMessage }.
Record MistralResponse := { choices : option (list MistralChoice); total_tokens : Z }.

(** How the promise of an HTTP request settles. *)
Inductive settled :=
| Resolved (status : Z) (data : option MistralResponse)
| Rejected (error : JsError).

(** The query object handed to [find]: a filter is present when the caller
    gave a non-empty list for it. *)
Record MongoQuery := {
  mq_text : option string;
  mq_category : option (list string);
  mq_evidence_level : option (list string);
  mq_source : option (list string);
  mq_embedding_exists : bool
}.

(** The collaborators: the clock, the document store, the embedding
    provider, the completion provider and the HTTP client. *)
Record Env := {
  clock : nat -> Z;
  find_documents : MongoQuery -> number -> outcome (list RAGWellnessDocument);
  find_user_documents : string -> outcome (list RAGWellnessDocument);
  generateEmbedding : string -> list number;
  http_post : string -> settled;
  abort_rejection : JsError;
  apiKey : string
}.

(** The mutable state: the cache store, the conversation collection (its
    [sessionId] is unique), the registry of running generations with the
    abort controllers it refers to, the requests sent to the completion
    provider, and the number of clock readings made so far. *)
Record World := {
  redis : gmap string CacheEntry;
  conversations : gmap string ConversationContext;
  activeGenerations : gmap string nat;
  aborted : gset nat;
  controllers : nat;
  provider_calls : list string;
  ticks : nat
}.

Definition set_redis (f : gmap string CacheEntry -> gmap string CacheEntry) (w : World) : World :=
  {| redis := f (redis w); conversations := conversations w;
     activeGenerations := activeGenerations w; aborted := aborted w;
     controllers := controllers w; provider_calls := provider_calls w; ticks := ticks w |}.

Definition set_conversations
  (f : gmap string ConversationContext -> gmap string ConversationContext) (w : World) : World :=
  {| redis := redis w; conversations := f (conversations w);
     activeGenerations := activeGenerations w; aborted := aborted w;
     controllers := controllers w; provider_calls := provider_calls w; ticks := ticks w |}.

Definition set_activeGenerations (f : gmap string nat -> gmap string nat) (w : World) : World :=
  {| redis := redis w; conversations := conversations w;
     activeGenerations := f (activeGenerations w); aborted := aborted w;
     controllers := controllers w; provider_calls := provider_calls w; ticks := ticks w |}.

Definition set_aborted (f : gset nat -> gset nat) (w : World) : World :=
  {| redis := redis w; conversations := conversations w;
     activeGenerations := activeGenerations w; aborted := f (aborted w);
     controllers := controllers w; provider_calls := provider_calls w; ticks := ticks w |}.

Definition set_controllers (f : nat -> nat) (w : World) : World :=
  {| redis := redis w; conversations := conversations w;
     activeGenerations := activeGenerations w; aborted := aborted w;
     controllers := f (controllers w); provider_calls := provider_calls w; ticks := ticks w |}.

Definition set_provider_calls (f : list string -> list string) (w : World) : World :=
  {| redis := redis w; conversations := conversations w;
     activeGenerations := activeGenerations w; aborted := aborted w;
     controllers := controllers w; provider_calls := f (provider_calls w); ticks := ticks w |}.

Definition set_ticks (f : nat -> nat) (w : World) : World :=
  {| redis := redis w; conversations := conversations w;
     activeGenerations := activeGenerations w; aborted := aborted w;
     controllers := controllers w; provider_calls := provider_calls w; ticks := f (ticks w) |}.

Definition empty_world : World :=
  {| redis := ∅; conversations := ∅; activeGenerations := ∅; aborted := ∅;
     controllers := 0; provider_calls := []; ticks := 0 |}.

(** [w'] differs from [w] in the cache and the clock at most. *)
Definition same_but_cache (w w' : World) : Prop :=
  conversations w' = conversations w /\
  activeGenerations w' = activeGenerations w /\
  aborted w' = aborted w /\
  controllers w' = controllers w /\
  provider_calls w' = provider_calls w.

(** ** Methods: state and exceptions *)

Definition M (A : Type) : Type := World -> outcome A * World.

Definition ret {A} (a : A) : M A := fun w => (Ok a, w).

Definition bind {A B} (m : M A) (k : A -> M B) : M B :=
  fun w => match m w with
           | (Ok a, w') => k a w'
           | (Throw e, w') => (Throw e, w')
           end.

Definition throw {A} (e : JsError) : M A := fun w => (Throw e, w).

(** [try { body } catch (error) { handler }]: the effects of the body up to
    the throw stay. *)
Definition try_catch {A} (body : M A) (handler : JsError -> M A) : M A :=
  fun w => match body w with
           | (Ok a, w') => (Ok a, w')
           | (Throw e, w') => handler e w'
           end.

Definition lift {A} (o : outcome A) : M A := fun w => (o, w).

Definition modify (f : World -> World) : M unit := fun w => (Ok tt, f w).

Definition gets {A} (f : World -> A) : M A := fun w => (Ok (f w), w).

Notation "'let*' x ':=' m 'in' k" := (bind m (fun x => k))
  (at level 10, x name, m at level 100, k at level 200).
Notation "m ;; k" := (bind m (fun _ => k))
  (at level 100, k at level 200, right associativity).

(** [Date.now()] and [new Date()]: the next reading of the clock. *)
Definition Date_now (env : Env) : M Z :=
  fun w => (Ok (clock env (ticks w)), set_ticks S w).

(** ** EmbeddingService *)

Module EmbeddingService.
Import JsString.
Local Open Scope float_scope.

Definition embeddingModel_name : string := "mistral-embed".

(** One step of the loop of [chunkDocument] over the sentences. *)
Definition chunk_step (maxChunkSize : Z) (st : list string * string) (sentence : string)
  : list string * string :=
  let '(chunks, currentChunk) := st in
  let trimmedSentence := trim sentence in
  if (Z.of_nat (String.length currentChunk) + Z.of_nat (String.length trimmedSentence)
        >? maxChunkSize)%Z
  then
    ((if (0 <? String.length currentChunk)%nat then chunks ++ [trim currentChunk] else chunks),
     trimmedSentence)
  else
    (chunks,
     currentChunk ++ (if (0 <? String.length currentChunk)%nat then ". " else "")
                  ++ trimmedSentence)%string.

Definition sentences_of (content : string) : list string :=
  List.filter (fun s => (0 <? String.length (trim s))%nat) (split_sentences content).

Definition chunkDocument (content : string) (maxChunkSize overlapSize : Z) : list string :=
  let '(chunks, currentChunk) :=
    fold_left (chunk_step maxChunkSize) (sentences_of content) ([], EmptyString) in
  if (0 <? String.length currentChunk)%nat then chunks ++ [trim currentChunk] else chunks.

(** [embedding1.reduce((sum, val, i) => sum + val * embedding2[i], 0)], from index [i]. *)
Fixpoint dot_from (i : nat) (embedding1 embedding2 : list number) (sum : number) : number :=
  match embedding1 with
  | [] => sum
  | val :: r => dot_from (S i) r embedding2 (sum + val * nth i embedding2 nan)
  end.

Definition sum_squares (e : list number) : number :=
  fold_left (fun sum val => sum + val * val) e 0.

(** Every component is a zero, of either sign. *)
Definition all_zero (embedding : list number) : Prop :=
  Forall (fun z => PrimFloat.is_zero z = true) embedding.

Definition calculateSimilarity (embedding1 embedding2 : list number) : outcome number :=
  if negb (length embedding1 =? length embedding2)%nat then
    Throw (new_Error "Embedding dimensions must match")
  else
    let dotProduct := dot_from 0 embedding1 embedding2 0 in
    let magnitude1 := PrimFloat.sqrt (sum_squares embedding1) in
    let magnitude2 := PrimFloat.sqrt (sum_squares embedding2) in
    Ok (dotProduct / (magnitude1 * magnitude2)).

End EmbeddingService.

(** ** VectorSearchService *)

Module VectorSearchService.
Import JsString.
Local Open Scope float_scope.

Definition count {A} (p : A -> bool) (l : list A) : nat := length (List.filter p l).

Definition calculateRelevance (doc : RAGWellnessDocument) (query : string) : number :=
  let relevance := 0 in
  let queryLower := toLowerCase query in
  let relevance :=
    if includes (toLowerCase (title doc)) queryLower then relevance + 0.3 else relevance in
  let keywordMatches :=
    count (fun keyword => includes (toLowerCase keyword) queryLower) (keywords doc) in
  let relevance :=
    relevance + (of_nat keywordMatches / of_nat (length (keywords doc))) * 0.4 in
  let contentWords := split " " (toLowerCase (content doc)) in
  let queryWords := split " " (toLowerCase query) in
  let contentMatches :=
    count (fun word => existsb (fun contentWord => includes contentWord word) contentWords)
          queryWords in
  let relevance :=
    relevance + (of_nat contentMatches / of_nat (length queryWords)) * 0.3 in
  Math_min relevance 1.0.

Definition extractContext (content query : string) : string :=
  let sentences := split_sentences content in
  let queryWords := split " " (toLowerCase query) in
  let relevantSentences :=
    List.filter (fun sentence =>
              existsb (fun word => includes (toLowerCase sentence) word) queryWords)
           sentences in
  if (0 <? length relevantSentences)%nat
  then (join ". " (firstn 2 relevantSentences) ++ ".")%string
  else (join ". " (firstn 2 sentences) ++ ".")%string.

(** [result.document.id || result.document._id?.toString() || `unknown-${Date.now()}`];
    [now] is the reading of the clock. *)
Definition docId (now : Z) (result : SearchResult) : string :=
  if truthy (doc_id (document result)) then doc_id (document result)
  else match _id (document result) with
       | Some s => if truthy s then s else ("unknown-" ++ JsString.of_Z now)%string
       | None => ("unknown-" ++ JsString.of_Z now)%string
       end.

(** A [Map<string, SearchResult>]: the entries in insertion order. *)
Definition JsMap := list (string * SearchResult).

Fixpoint map_get (k : string) (m : JsMap) : option SearchResult :=
  match m with
  | [] => None
  | (k', v) :: r => if String.eqb k k' then Some v else map_get k r
  end.

(** [m.set(k, v)]: an existing key keeps its place. *)
Fixpoint map_set (k : string) (v : SearchResult) (m : JsMap) : JsMap :=
  match m with
  | [] => [(k, v)]
  | (k', v') :: r => if String.eqb k k' then (k', v) :: r else (k', v') :: map_set k v r
  end.

Definition map_values (m : JsMap) : list SearchResult := List.map snd m.

(** The object [existing] after the two assignments of the merge. *)
Definition merge_into (existing result : SearchResult) : SearchResult :=
  {| document := document existing;
     score := (score existing + score result) / 2;
     relevance := Math_max (relevance existing) (relevance result);
     sr_context := sr_context existing |}.

Definition add_vector (now : Z) (combined : JsMap) (result : SearchResult) : JsMap :=
  map_set (docId now result) result combined.

(** [existing] is an entry of the map, so assigning to its fields updates
    the map in place. *)
Definition add_text (now : Z) (combined : JsMap) (result : SearchResult) : JsMap :=
  let k := docId now result in
  match map_get k combined with
  | Some existing => map_set k (merge_into existing result) combined
  | None => map_set k result combined
  end.

Definition combinedScore (a : SearchResult) : number :=
  score a * 0.7 + relevance a * 0.3.

Definition byCombinedScore (a b : SearchResult) : number :=
  combinedScore b - combinedScore a.

Definition combined_map (now : Z) (vectorResults textResults : list SearchResult) : JsMap :=
  fold_left (add_text now) textResults (fold_left (add_vector now) vectorResults []).

Definition combineAndRerank (now : Z) (vectorResults textResults : list SearchResult)
  : list SearchResult :=
  JsNumber.sort byCombinedScore (map_values (combined_map now vectorResults textResults)).

(** The merge as the specification words it: a document of both lists gets
    the mean of the two scores and the larger relevance, a document of one
    list is kept as it is. *)
Definition same_doc (now : Z) (a b : SearchResult) : bool :=
  String.eqb (docId now a) (docId now b).

Definition merged_with (now : Z) (textResults : list SearchResult) (v : SearchResult)
  : SearchResult :=
  match List.find (same_doc now v) textResults with
  | Some t => merge_into v t
  | None => v
  end.

Definition merged_of (now : Z) (vectorResults textResults : list SearchResult)
  : list SearchResult :=
  List.map (merged_with now textResults) vectorResults ++
  List.filter (fun t => negb (existsb (same_doc now t) vectorResults)) textResults.

(** The map holds each result under its own identifier, so it is determined
    by its values: [keyed] rebuilds it, and [set_val] and [step_text] are
    [add_vector] and [add_text] on the values. *)
Definition keyed (now : Z) (l : list SearchResult) : JsMap :=
  List.map (fun v => (docId now v, v)) l.

Fixpoint set_val (now : Z) (v : SearchResult) (l : list SearchResult) : list SearchResult :=
  match l with
  | [] => [v]
  | x :: r => if String.eqb (docId now v) (docId now x) then v :: r else x :: set_val now v r
  end.

Definition step_text (now : Z) (l : list SearchResult) (t : SearchResult) : list SearchResult :=
  match List.find (same_doc now t) l with
  | Some e => set_val now (merge_into e t) l
  | None => set_val now t l
  end.

(** Both scores are numbers that are not negative (so neither is NaN). *)
Definition well_scored (r : SearchResult) : Prop :=
  nonneg (score r) /\ nonneg (relevance r).

(** In descending order of the combined score: every result scores at
    least as much as every later one. *)
Definition descending (l : list SearchResult) : Prop :=
  StronglySorted (fun a b => (combinedScore b <=? combinedScore a) = true) l.

(** The filters of a search as the query object of the store. *)
Definition nonempty (l : option (list string)) : option (list string) :=
  match l with
  | Some (x :: r) => Some (x :: r)
  | _ => None
  end.

Definition filters_query (text : option string) (filters : option SearchFilters)
           (embedding_exists : bool) : MongoQuery :=
  {| mq_text := text;
     mq_category := nonempty (from_option categories None filters);
     mq_evidence_level := nonempty (from_option evidenceLevels None filters);
     mq_source := nonempty (from_option sources_filter None filters);
     mq_embedding_exists := embedding_exists |}.

(** The snapshot of a stored document inside a result: the listed fields
    only, of which [RAGWellnessDocument] here has the ones that the code
    reads (the dates, the tags, the metadata and the usage count are copied
    along and never looked at). *)
Definition snapshot (doc : RAGWellnessDocument) : RAGWellnessDocument :=
  {| doc_id := doc_id doc; _id := None; title := title doc; content := content doc;
     category := category doc; keywords := keywords doc;
     evidence_level := evidence_level doc; source := source doc; embedding := None |}.

(** The loop of [searchSimilarDocuments] over the candidates. *)
Fixpoint rank_candidates (query : string) (queryEmbedding : list number) (threshold : number)
         (documents : list RAGWellnessDocument) (results : list SearchResult)
  : outcome (list SearchResult) :=
  match documents with
  | [] => Ok results
  | doc :: r =>
      match embedding doc with
      | Some e =>
          match EmbeddingService.calculateSimilarity queryEmbedding e with
          | Throw err => Throw err
          | Ok similarity =>
              if threshold <=? similarity then
                rank_candidates query queryEmbedding threshold r
                  (results ++ [{| document := snapshot doc; score := similarity;
                                  relevance := calculateRelevance doc query;
                                  sr_context := extractContext (content doc) query |}])
              else rank_candidates query queryEmbedding threshold r results
          end
      | None => rank_candidates query queryEmbedding threshold r results
      end
  end.

Definition default_limit (limit : option Z) : Z := from_option (fun z => z) 10%Z limit.

Definition searchSimilarDocuments (env : Env) (query : string)
           (filters : option SearchFilters) (limit : option Z) (threshold : number)
  : list SearchResult :=
  let limit := default_limit limit in
  let queryEmbedding := generateEmbedding env query in
  match find_documents env (filters_query None filters true) (JsNumber.of_Z (limit * 2)) with
  | Throw _ => []
  | Ok documents =>
      match rank_candidates query queryEmbedding threshold documents [] with
      | Throw _ => []
      | Ok results => slice0 (JsNumber.sort byCombinedScore results) limit
      end
  end.

Definition textSearch (env : Env) (query : string) (filters : option SearchFilters)
           (limit : option Z) : outcome (list SearchResult) :=
  let limit := default_limit limit in
  match find_documents env (filters_query (Some query) filters false) (JsNumber.of_Z limit) with
  | Throw e => Throw e
  | Ok documents =>
      Ok (List.map (fun doc => {| document := snapshot doc;
                                  score := calculateRelevance doc query;
                                  relevance := 0.5;
                                  sr_context := extractContext (content doc) query |})
                   documents)
  end.

(** Conditions on the document store: every document it returns has a
    keyword, and the documents of one answer have distinct, non-empty
    identifiers (the [id] field is required and unique in the schema). *)
Definition store_has_keywords (env : Env) : Prop :=
  forall mq k documents, find_documents env mq k = Ok documents ->
    Forall (fun d => keywords d <> []) documents.

Definition store_ids_unique (env : Env) : Prop :=
  forall mq k documents, find_documents env mq k = Ok documents ->
    List.NoDup (List.map doc_id documents) /\
    Forall (fun d => truthy (doc_id d) = true) documents.

(** [hybridSearch].  The clock is read where a result depends on it: for
    the key that [combineAndRerank] gives a result without an identifier,
    once for the merge.  The readings that only time the log lines are left
    out, so a search reads the clock fewer times here than in the code; the
    properties below leave the processing time of a search open and hold
    for every clock. *)
Definition hybridSearch (env : Env) (query : string) (filters : option SearchFilters)
           (limit : option Z) : M (list SearchResult) :=
  try_catch
    (let vectorResults := searchSimilarDocuments env query filters (Some (default_limit limit)) 0.5 in
     let* textResults := lift (textSearch env query filters (Some (default_limit limit))) in
     let* now := Date_now env in
     let combinedResults := combineAndRerank now vectorResults textResults in
     ret (slice0 combinedResults (default_limit limit)))
    (fun _ => ret []).


End VectorSearchService.

(** ** CacheService *)

Module CacheService.
Import JsString.
Local Open Scope string_scope.

Definition defaultTTL : Z := 3600.

(** [get]: an entry of the store is returned while
    [Date.now() - timestamp < ttl * 1000]; an entry without a [ttl] and an
    expired one are deleted.

    The store holds text, written by [JSON.stringify] and read by
    [JSON.parse]; here it holds the record that the text stands for.  The
    two agree on a response whose numbers JSON can carry
    ([Json.stable_response] below), and the properties that compare a
    response read from the cache with the one that was written assume it.
    The store is taken to answer: the [catch] blocks of [get] and [set],
    which only a failing store or a damaged entry reaches, are left out. *)
Definition get (env : Env) (k : string) : M (option RAGResponse) :=
  let* cached := gets (fun w => redis w !! k) in
  match cached with
  | Some parsed =>
      if (ttl parsed =? 0)%Z then
        modify (set_redis (delete k));; ret None
      else
        let* now := Date_now env in
        if (now - timestamp parsed <? ttl parsed * 1000)%Z then ret (Some (value parsed))
        else modify (set_redis (delete k));; ret None
  | None => ret None
  end.

(** What [get] finds under [k] when the clock is read in world [w]: the
    value of an entry that has a [ttl] and has not outlived it. *)
Definition fresh_entry (env : Env) (k : string) (w : World) : option RAGResponse :=
  match redis w !! k with
  | Some parsed =>
      if (ttl parsed =? 0)%Z then None
      else if (clock env (ticks w) - timestamp parsed <? ttl parsed * 1000)%Z
           then Some (value parsed) else None
  | None => None
  end.

(** [set]: [setex] refuses a time to live that is not positive, and the
    refusal is caught and logged. *)
Definition set (env : Env) (k : string) (v : RAGResponse) (ttl_s : Z) : M unit :=
  let* now := Date_now env in
  let cacheEntry := {| key := k; value := v; timestamp := now; ttl := ttl_s |} in
  if (ttl_s <=? 0)%Z then ret tt
  else modify (set_redis (insert k cacheEntry)).

Definition delete (k : string) : M unit := modify (set_redis (base.delete k)).

Definition clear : M unit := modify (set_redis (fun _ => ∅)).

(** [ToInt32]: the wrap-around of the bit operators. *)
Definition toInt32 (z : Z) : Z := ((z + 2 ^ 31) mod 2 ^ 32 - 2 ^ 31)%Z.

(** One round of the loop: [hash = (hash << 5) - hash + char; hash = hash & hash]. *)
Definition hash_step (hash : Z) (c : ascii) : Z :=
  toInt32 (toInt32 (hash * 32) - hash + code c).

Fixpoint hash_from (hash : Z) (str : string) : Z :=
  match str with
  | EmptyString => hash
  | String c r => hash_from (hash_step hash c) r
  end.

Definition digit36 (d : Z) : ascii :=
  if (d <? 10)%Z then ascii_of_nat (Z.to_nat (48 + d)) else ascii_of_nat (Z.to_nat (87 + d)).

(** The base-36 digits of a non-negative integer, least significant first. *)
Fixpoint digits36 (fuel : nat) (n : Z) : list ascii :=
  match fuel with
  | O => [digit36 (n mod 36)]
  | S fuel' =>
      if (n <? 36)%Z then [digit36 n] else digit36 (n mod 36) :: digits36 fuel' (n / 36)
  end.

(** [n.toString(36)] for a non-negative integer. *)
Definition toString36 (n : Z) : string :=
  string_of_list_ascii (rev (digits36 (Z.to_nat (Z.log2 n)) n)).

(** The value of a base-36 digit, and of a list of digits that starts with
    the least significant one. *)
Definition digit_value (c : ascii) : Z :=
  if (code c <? 58)%Z then (code c - 48)%Z else (code c - 87)%Z.

Fixpoint value36 (l : list ascii) : Z :=
  match l with
  | [] => 0
  | c :: r => (digit_value c + 36 * value36 r)%Z
  end.

Definition simpleHash (str : string) : string :=
  toString36 (Z.abs (hash_from 0 str)).

(** [JSON.stringify] of a string. *)
Definition hex_digit (d : nat) : ascii :=
  if (d <? 10)%nat then ascii_of_nat (48 + d) else ascii_of_nat (87 + d).

Definition json_char (c : ascii) : string :=
  let n := nat_of_ascii c in
  if (n =? 34)%nat then String "\" dquote
  else if (n =? 92)%nat then "\\"
  else if (n =? 8)%nat then "\b"
  else if (n =? 12)%nat then "\f"
  else if (n =? 10)%nat then "\n"
  else if (n =? 13)%nat then "\r"
  else if (n =? 9)%nat then "\t"
  else if (n <? 32)%nat then
    "\u00" ++ String (hex_digit (n / 16)) (String (hex_digit (n mod 16)) EmptyString)
  else String c EmptyString.

Fixpoint json_chars (s : string) : string :=
  match s with
  | EmptyString => EmptyString
  | String c r => json_char c ++ json_chars r
  end.

Definition json_string (s : string) : string := dquote ++ json_chars s ++ dquote.

Definition json_field (name : string) (v : option string) : list string :=
  match v with
  | Some s => [json_string name ++ ":" ++ s]
  | None => []
  end.

(** [JSON.stringify(filters)]: the fields that are present, in the order
    of the interface.  (The text follows the order in which the object got
    its fields; a caller that fills them in another order gets another
    text.) *)
Definition json_range (r : string * string) : string :=
  "{" ++ json_string "start" ++ ":" ++ json_string (fst r) ++ ","
      ++ json_string "end" ++ ":" ++ json_string (snd r) ++ "}".

Definition JSON_stringify (f : CacheFilters) : string :=
  let fields :=
    List.app (json_field "type" (json_string <$> cf_type f))
      (List.app (json_field "category" (json_string <$> cf_category f))
         (List.app (json_field "userId" (json_string <$> cf_userId f))
            (json_field "timeRange" (json_range <$> timeRange f)))) in
  "{" ++ join "," fields ++ "}".

Definition filterString (filters : option CacheFilters) : string :=
  match filters with Some f => JSON_stringify f | None => "" end.

Definition userString (userId : option string) : string :=
  match userId with
  | Some u => if truthy u then ":user:" ++ u else ""
  | None => ""
  end.

Definition generateCacheKey (query : string) (filters : option CacheFilters)
           (userId : option string) : string :=
  let queryHash := simpleHash (query ++ filterString filters ++ userString userId) in
  "rag:search:" ++ queryHash.

End CacheService.

(** ** MistralApiService *)

Module MistralApiService.
Import JsString.
Local Open Scope string_scope.

Definition useFallback (env : Env) : bool := negb (truthy (apiKey env)).

Definition registered (generationId : option string) : option string :=
  match generationId with
  | Some g => if truthy g then Some g else None
  | None => None
  end.

Definition forget (generationId : option string) : M unit :=
  match registered generationId with
  | Some g => modify (set_activeGenerations (delete g))
  | None => ret tt
  end.

Definition is_abort (error : JsError) : bool :=
  String.eqb (err_name error) "AbortError" ||
  match err_code error with Some c => String.eqb c "ABORT_ERR" | None => false end.

Definition cancelled : JsError := new_Error "Generation cancelled".

(** The HTTP client is axios ([HttpService] of @nestjs/axios).  When the
    signal of a request is aborted, axios rejects the request with a
    [CanceledError]: its name is "CanceledError", its code "ERR_CANCELED"
    and its message "canceled". *)
Definition CanceledError : JsError :=
  {| err_name := "CanceledError"; err_message := "canceled";
     err_code := Some "ERR_CANCELED"; err_response := None |}.

(** [callMistralAPI] up to its [await]: a fresh abort controller, stored
    under the generation id when there is one, and the request sent.  The
    result is the controller, or nothing when the service has no key. *)
Definition call_begin (env : Env) (prompt : string) (maxTokens : Z)
           (generationId : option string) : M (option nat) :=
  if useFallback env then ret None
  else
    let* abortController := gets controllers in
    modify (set_controllers S);;
    match registered generationId with
    | Some g => modify (set_activeGenerations (insert g abortController))
    | None => ret tt
    end;;
    modify (set_provider_calls (fun l => (l ++ [prompt])%list));;
    ret (Some abortController).

(** How the request settles: with the provider's answer, unless its signal
    was aborted first, in which case the HTTP client rejects. *)
Definition settle (env : Env) (abortController : nat) (answer : settled) : M settled :=
  let* stopped := gets (fun w => bool_decide (abortController ∈ aborted w)) in
  ret (if stopped then Rejected (abort_rejection env) else answer).

Definition has_choices (data : option MistralResponse) : bool :=
  match data with
  | Some d => match choices d with Some (_ :: _) => true | _ => false end
  | None => false
  end.

(** The [catch] block of [callMistralAPI]. *)
Definition call_catch (generationId : option string) (error : JsError)
  : M (option MistralResponse) :=
  forget generationId;;
  if is_abort error then throw cancelled else ret None.

(** [callMistralAPI] from its [await] on. *)
Definition call_end (generationId : option string) (s : settled)
  : M (option MistralResponse) :=
  match s with
  | Resolved _ data =>
      forget generationId;;
      if has_choices data then ret data
      else call_catch generationId (new_Error "No response generated from Mistral API")
  | Rejected error => call_catch generationId error
  end.

(** A generation that nothing interrupts. *)
Definition callMistralAPI (env : Env) (prompt : string) (maxTokens : Z)
           (generationId : option string) : M (option MistralResponse) :=
  let* started := call_begin env prompt maxTokens generationId in
  match started with
  | None => ret None
  | Some abortController =>
      let* s := settle env abortController (http_post env prompt) in
      call_end generationId s
  end.

Definition cancelGeneration (generationId : string) : M bool :=
  let* abortController := gets (fun w => activeGenerations w !! generationId) in
  match abortController with
  | Some c =>
      modify (set_aborted (fun s => {[ c ]} ∪ s));;
      modify (set_activeGenerations (delete generationId));;
      ret true
  | None => ret false
  end.

(** A generation that is cancelled while its request is in flight: the
    call runs up to its [await], [cancelGeneration] runs, and the call
    resumes with the way the request settled.  The result is what
    [cancelGeneration] returned, the outcome of the call and the world. *)
Definition cancel_in_flight (env : Env) (prompt : string) (maxTokens : Z)
           (generationId : string) (answer : settled) (w : World)
  : bool * outcome (option MistralResponse) * World :=
  match call_begin env prompt maxTokens (Some generationId) w with
  | (Ok (Some abortController), w1) =>
      match cancelGeneration generationId w1 with
      | (Ok stopped, w2) =>
          let '(o, w3) :=
            (let* s := settle env abortController answer in
             call_end (Some generationId) s) w2 in
          (stopped, o, w3)
      | (Throw e, w2) => (false, Throw e, w2)
      end
  | (Ok None, w1) => (false, Ok None, w1)
  | (Throw e, w1) => (false, Throw e, w1)
  end.

Definition isGenerationActive (generationId : string) : M bool :=
  gets (fun w => bool_decide (is_Some (activeGenerations w !! generationId))).

End MistralApiService.

(** ** RAGService *)

Module RAGService.
Import JsString.
Local Open Scope string_scope.

(** [`search:${query.query}:${query.userId}:${query.limit}`] *)
Definition searchCacheKey (q : RAGQuery) : string :=
  "search:" ++ query q ++ ":" ++ of_option (fun s => s) (userId q)
            ++ ":" ++ of_option JsString.of_Z (limit q).

(** The response of the [catch] block of [searchDocuments]. *)
Definition fallbackResponse (q : RAGQuery) (elapsed : Z) : RAGResponse :=
  {| r_query := query q; response := ""; results := []; totalResults := 0;
     processingTime := elapsed; model := "fallback"; sources := [];
     confidence := 0.0%float;
     metadata := {| vectorSearchTime := 0%float; rerankingTime := 0%float;
                    cacheHit := false |} |}.

(** The response of a search that went through. *)
Definition searchResponse (q : RAGQuery) (results : list SearchResult) (processingTime : Z)
  : RAGResponse :=
  {| r_query := query q;
     response := "";
     results := results;
     totalResults := length results;
     processingTime := processingTime;
     model := EmbeddingService.embeddingModel_name;
     sources := List.filter truthy (List.map (fun r => source (document r)) results);
     confidence := 0.8%float;
     metadata := {| vectorSearchTime := (JsNumber.of_Z processingTime * 0.7)%float;
                    rerankingTime := (JsNumber.of_Z processingTime * 0.3)%float;
                    cacheHit := false |} |}.

Definition searchDocuments (env : Env) (q : RAGQuery) : M RAGResponse :=
  let* startTime := Date_now env in
  try_catch
    (let cacheKey := searchCacheKey q in
     let* cachedResult := CacheService.get env cacheKey in
     match cachedResult with
     | Some r => ret r
     | None =>
         let* results := VectorSearchService.hybridSearch env (query q) (filters q) (limit q) in
         let* finished := Date_now env in
         let processingTime := (finished - startTime)%Z in
         let response := searchResponse q results processingTime in
         CacheService.set env cacheKey response 3600;;
         ret response
     end)
    (fun _ =>
       let* now := Date_now env in
       ret (fallbackResponse q (now - startTime))).

Definition stopKeywords : list string :=
  ["stop"; "end"; "quit"; "exit"; "terminate"; "halt"]%list.

Definition isStopSignal (q : string) : bool :=
  existsb (fun keyword => includes (toLowerCase q) keyword) stopKeywords.

Definition stop_acknowledgement : string :=
  "I understand you want to stop. I'll respect that and won't continue this conversation. Feel free to start a new chat when you're ready.".

Definition stopped_message : string :=
  "This conversation has been stopped. I won't continue responding. Please start a new chat if you need assistance.".

Definition technical_issues : string :=
  "I'm having technical issues right now. For immediate concerns, please consult with a healthcare professional.".

Definition apology : string :=
  "I apologize, but I cannot generate a response at this time.".

(** A document of the conversation collection in memory, and whether it
    still has to be inserted. *)
Record ContextDocument := { doc : ConversationContext; isNew : bool }.

Definition push_message (m : ConversationMessage) (c : ContextDocument) : ContextDocument :=
  {| doc := {| cc_userId := cc_userId (doc c); sessionId := sessionId (doc c);
               messages := (messages (doc c) ++ [m])%list;
               cc_context := cc_context (doc c);
               lastUpdated := lastUpdated (doc c);
               messageCount := messageCount (doc c) |};
     isNew := isNew c |}.

Definition set_lastUpdated (t : Z) (c : ContextDocument) : ContextDocument :=
  {| doc := {| cc_userId := cc_userId (doc c); sessionId := sessionId (doc c);
               messages := messages (doc c);
               cc_context := cc_context (doc c);
               lastUpdated := t;
               messageCount := messageCount (doc c) |};
     isNew := isNew c |}.

Definition set_messageCount (n : Z) (c : ContextDocument) : ContextDocument :=
  {| doc := {| cc_userId := cc_userId (doc c); sessionId := sessionId (doc c);
               messages := messages (doc c);
               cc_context := cc_context (doc c);
               lastUpdated := lastUpdated (doc c);
               messageCount := n |};
     isNew := isNew c |}.

(** [findOne({ userId, sessionId })] over the collection. *)
Definition findOne (userId sessionId : string) : M (option ConversationContext) :=
  gets (fun w => match conversations w !! sessionId with
                 | Some c => if String.eqb (cc_userId c) userId then Some c else None
                 | None => None
                 end).

Definition duplicate_key : JsError :=
  {| err_name := "MongoServerError"; err_message := "E11000 duplicate key error";
     err_code := Some "11000"; err_response := None |}.

(** [context.save()]: a new document is inserted, unless its [sessionId]
    is taken; a loaded one is written back.  The validation of the schema,
    which refuses a document with an empty required string, is left out: a
    refused [save] throws like the one of a taken [sessionId] and stores
    nothing. *)
Definition save (c : ContextDocument) : M unit :=
  let* taken := gets (fun w => bool_decide (is_Some (conversations w !! sessionId (doc c)))) in
  if isNew c && taken then throw duplicate_key
  else modify (set_conversations (insert (sessionId (doc c)) (doc c))).

Definition getOrCreateConversationContext (env : Env) (userId sessionId : string)
  : M ContextDocument :=
  let* context := findOne userId sessionId in
  match context with
  | Some c => ret {| doc := c; isNew := false |}
  | None =>
      let* now := Date_now env in
      ret {| doc := {| cc_userId := userId; sessionId := sessionId; messages := [];
                       cc_context := {| healthConditions := None; medications := None;
                                        wellnessGoals := None; recentTopics := None;
                                        communicationStyle := Some "professional" |};
                       lastUpdated := now;
                       messageCount := 0 |};
             isNew := true |}
  end.

Definition saveConversationContext (env : Env) (context : ContextDocument) : M unit :=
  let* now := Date_now env in
  save (set_lastUpdated now context).

(** The private sibling of the above, which no method calls. *)
Definition updateConversationContext (env : Env) (context : ContextDocument)
           (userMessage assistantResponse : string) : M unit :=
  let* t1 := Date_now env in
  let context := push_message {| role := "user"; msg_content := userMessage;
                                 msg_timestamp := t1 |} context in
  let* t2 := Date_now env in
  let context := push_message {| role := "assistant"; msg_content := assistantResponse;
                                 msg_timestamp := t2 |} context in
  let context := set_messageCount (Z.of_nat (length (messages (doc context)))) context in
  let* t3 := Date_now env in
  save (set_lastUpdated t3 context).

Definition calculateUserDocumentRelevance (d : RAGWellnessDocument) (q : string)
           (conversationContext : ConversationContext) : number :=
  let relevance := 0%float in
  let queryLower := toLowerCase q in
  let relevance :=
    if includes (toLowerCase (title d)) queryLower then (relevance + 0.3)%float
    else relevance in
  let keywordMatches :=
    VectorSearchService.count (fun keyword => includes (toLowerCase keyword) queryLower)
                              (keywords d) in
  let relevance :=
    (relevance + (of_nat keywordMatches / of_nat (length (keywords d))) * 0.4)%float in
  let contentWords := split " " (toLowerCase (content d)) in
  let queryWords := split " " (toLowerCase q) in
  let contentMatches :=
    VectorSearchService.count
      (fun word => existsb (fun contentWord => includes contentWord word) contentWords)
      queryWords in
  let relevance :=
    (relevance + (of_nat contentMatches / of_nat (length queryWords)) * 0.3)%float in
  let relevance :=
    match healthConditions (cc_context conversationContext) with
    | Some (c :: cs) =>
        let conditions := (c :: cs)%list in
        let conditionMatches :=
          VectorSearchService.count
            (fun condition => includes (toLowerCase (content d)) (toLowerCase condition))
            conditions in
        (relevance + (of_nat conditionMatches / of_nat (length conditions)) * 0.2)%float
    | _ => relevance
    end in
  Math_min relevance 1.0%float.

(** The loop of [combineUserAndGeneralResults] over the user's documents. *)
Fixpoint user_pool (env : Env) (q : string) (userResults combined : list SearchResult)
  : outcome (list SearchResult) :=
  match userResults with
  | []%list => Ok combined
  | (result :: r)%list =>
      match embedding (document result) with
      | Some e =>
          let queryEmbedding := generateEmbedding env q in
          match EmbeddingService.calculateSimilarity queryEmbedding e with
          | Throw err => Throw err
          | Ok similarity =>
              if (0.5 <=? similarity)%float then
                user_pool env q r
                  (combined ++ [{| document := document result; score := similarity;
                                   relevance := relevance result;
                                   sr_context := sr_context result |}])%list
              else user_pool env q r combined
          end
      | None => user_pool env q r combined
      end
  end.

Definition discount (result : SearchResult) : SearchResult :=
  {| document := document result; score := (score result * 0.7)%float;
     relevance := relevance result; sr_context := sr_context result |}.

Definition combineUserAndGeneralResults (env : Env) (q : string)
           (userResults generalResults : list SearchResult)
  : outcome (list SearchResult) :=
  match user_pool env q userResults [] with
  | Throw err => Throw err
  | Ok combined =>
      let combined := (combined ++ List.map discount generalResults)%list in
      Ok (slice0 (JsNumber.sort VectorSearchService.byCombinedScore combined) 5)
  end.

Definition searchUserRelevantDocuments (env : Env) (q userId : string)
           (conversationContext : ConversationContext) : M (list SearchResult) :=
  try_catch
    (let* userDocuments := lift (find_user_documents env userId) in
     let userResults :=
       List.map (fun d =>
              {| document := VectorSearchService.snapshot d;
                 score := calculateUserDocumentRelevance d q conversationContext;
                 relevance := 0.8%float;
                 sr_context := "User document: " ++ title d |})
           userDocuments in
     let* generalSearch :=
       searchDocuments env {| query := q; userId := Some userId;
                              q_context := Some (cc_context conversationContext);
                              filters := None; limit := Some 3%Z; threshold := None |} in
     lift (combineUserAndGeneralResults env q userResults (results generalSearch)))
    (fun _ => ret []%list).

Definition or_default (d : string) (l : option (list string)) : string :=
  match l with
  | Some l => let s := join ", " l in if truthy s then s else d
  | None => d
  end.

Definition buildResponsePrompt (q context : string) (c : ConversationContext) : string :=
  let recentMessages := slice_last 3 (messages c) in
  let messageHistory :=
    join newline (List.map (fun msg => role msg ++ ": " ++ msg_content msg) recentMessages) in
  join newline
    ["<s>[INST] You are a knowledgeable wellness consultant who provides helpful, practical advice. Be natural and conversational in your responses.";
     "";
     "Your approach:";
     "- Respond directly to the user's question or concern";
     "- Be helpful and informative without being overly formal";
     "- Only ask follow-up questions if the user specifically requests them or if it's clearly needed for safety";
     "- If the user says " ++ dquote ++ "stop" ++ dquote ++ " or indicates they're done, respect that";
     "- Provide evidence-based information when relevant";
     "- Keep responses concise and actionable";
     "- Be warm and supportive, but not robotic";
     "";
     "KNOWLEDGE BASE:";
     context;
     "";
     "CONVERSATION HISTORY:";
     (if truthy messageHistory then messageHistory else "This is a new conversation.");
     "";
     "USER CONTEXT:";
     "- Health Conditions: " ++ or_default "None specified" (healthConditions (cc_context c));
     "- Medications: " ++ or_default "None specified" (medications (cc_context c));
     "- Wellness Goals: " ++ or_default "None specified" (wellnessGoals (cc_context c));
     "- Communication Style: " ++
       (match communicationStyle (cc_context c) with
        | Some s => if truthy s then s else "professional"
        | None => "professional"
        end);
     "";
     "USER MESSAGE: " ++ q;
     "";
     "Respond naturally and directly to the user's message. Focus on being helpful and informative without unnecessary formalities or follow-up questions unless specifically requested. [/INST]"
    ].

(** [conversationId || `session_${Date.now()}`] *)
Definition session_of (env : Env) (conversationId : option string) : M string :=
  match conversationId with
  | Some s => if truthy s then ret s
              else (let* now := Date_now env in ret ("session_" ++ JsString.of_Z now))
  | None => let* now := Date_now env in ret ("session_" ++ JsString.of_Z now)
  end.

Definition first_choice (r : option MistralResponse) : option MistralChoice :=
  match r with
  | Some d => match choices d with Some (c :: _)%list => Some c | _ => None end
  | None => None
  end.

Definition choice_content (c : MistralChoice) : string :=
  match message c with
  | Some m => match m_content m with
              | Some s => if truthy s then s else apology
              | None => apology
              end
  | None => apology
  end.

(** The body of [generateContextualResponse] once the conversation is
    loaded: the user's turn, the retrieval, the prompt, the generation and,
    with a reply, the assistant's turn and the save. *)
Definition exchange (env : Env) (q userId : string) (generationId : option string)
           (conversationContext : ContextDocument) : M string :=
  let* t := Date_now env in
  let conversationContext :=
    push_message {| role := "user"; msg_content := q; msg_timestamp := t |}
                 conversationContext in
  let* searchResults :=
    searchUserRelevantDocuments env q userId (doc conversationContext) in
  let context :=
    join (newline ++ newline)
         (List.map (fun result => title (document result) ++ ": "
                                    ++ content (document result))
              searchResults) in
  let prompt := buildResponsePrompt q context (doc conversationContext) in
  let* response := MistralApiService.callMistralAPI env prompt 1000 generationId in
  match first_choice response with
  | Some choice =>
      let aiResponse := choice_content choice in
      let* t' := Date_now env in
      let conversationContext :=
        push_message {| role := "assistant"; msg_content := aiResponse;
                        msg_timestamp := t' |}
                     conversationContext in
      saveConversationContext env conversationContext;;
      ret aiResponse
  | None => ret technical_issues
  end.

Definition stopped (conversationContext : ContextDocument) : bool :=
  match last (messages (doc conversationContext)) with
  | Some lastMessage => includes (toLowerCase (msg_content lastMessage)) "stop"
  | None => false
  end.

Definition generateContextualResponse (env : Env) (q userId : string)
           (conversationId generationId : option string) : M string :=
  try_catch
    (if isStopSignal q then ret stop_acknowledgement
     else
       let* sid := session_of env conversationId in
       let* conversationContext := getOrCreateConversationContext env userId sid in
       if stopped conversationContext then ret stopped_message
       else exchange env q userId generationId conversationContext)
    (fun _ => ret technical_issues).


(** Every key of the collection is the [sessionId] of the conversation
    under it. *)
Definition well_keyed (w : World) : Prop :=
  forall k c, conversations w !! k = Some c -> sessionId c = k.

End RAGService.

(** ** What JSON carries

    The cache keeps an entry as the text that [JSON.stringify] writes, and
    [get] reads it back with [JSON.parse].  A number comes back as it was
    when it is finite and not the negative zero: NaN and the infinities are
    written as [null], and [-0] as [0]. *)

Module Json.

Definition stable_number (x : number) : bool :=
  is_finite x && negb (PrimFloat.is_zero x && get_sign x).

Definition stable_document (d : RAGWellnessDocument) : bool :=
  match embedding d with
  | Some e => forallb stable_number e
  | None => true
  end.

Definition stable_result (r : SearchResult) : bool :=
  stable_number (score r) && stable_number (relevance r) && stable_document (document r).

Definition stable_response (v : RAGResponse) : bool :=
  stable_number (confidence v) &&
  stable_number (vectorSearchTime (metadata v)) &&
  stable_number (rerankingTime (metadata v)) &&
  forallb stable_result (results v).

End Json.
(** ** AiService

    [generateChatResponse] of ai.service.ts, the caller of
    [generateContextualResponse] behind the chat. *)

Module AiService.
Import JsString.
Local Open Scope string_scope.

(** ai.types.ts; of the user's context the method reads [userId] only. *)
Record ChatMemory := {
  topics : list string;
  sentiment : string;
  followUpQuestions : list string
}.

Record ChatResponse := {
  cr_content : string;
  usage_total_tokens : number;
  cr_model : string;
  cr_sources : list string;
  cr_confidence : number;
  memory : ChatMemory
}.

Record ConversationHistoryItem := { h_role : string; h_content : string }.

Record AiUserContext := { uc_userId : option string }.

(** [MistralApiService.getModel()] *)
Definition getModel : string := "mistral-small-latest".

Definition chatResponse (content : string) (total_tokens confidence : number) : ChatResponse :=
  {| cr_content := content;
     usage_total_tokens := total_tokens;
     cr_model := getModel;
     cr_sources := [];
     cr_confidence := confidence;
     memory := {| topics := []; sentiment := "neutral"; followUpQuestions := [] |} |}.

Definition getFallbackResponse : ChatResponse :=
  chatResponse
    "I'm having some technical issues right now. For immediate health concerns, please consult with a healthcare professional. I'll be back to help with your wellness questions soon."
    200%float 0.3%float.

(** [context?.userId || 'anonymous'] *)
Definition user_of (context : option AiUserContext) : string :=
  match context with
  | Some c => match uc_userId c with
              | Some u => if truthy u then u else "anonymous"
              | None => "anonymous"
              end
  | None => "anonymous"
  end.

(** The last message of the history says "stop". *)
Definition history_stopped (conversationHistory : list ConversationHistoryItem) : bool :=
  match last conversationHistory with
  | Some lastMessage => includes (toLowerCase (h_content lastMessage)) "stop"
  | None => false
  end.

Definition generateChatResponse (env : Env) (message : string)
           (conversationHistory : list ConversationHistoryItem)
           (context : option AiUserContext) (generationId : option string)
  : M ChatResponse :=
  try_catch
    (if RAGService.isStopSignal message then
       ret (chatResponse RAGService.stop_acknowledgement 50%float 1.0%float)
     else if history_stopped conversationHistory then
       ret (chatResponse RAGService.stopped_message 30%float 1.0%float)
     else
       let* now := Date_now env in
       let* response :=
         RAGService.generateContextualResponse env message (user_of context)
           (Some ("chat_" ++ JsString.of_Z now)) generationId in
       ret (chatResponse response (of_nat (String.length response) / 4)%float 0.8%float))
    (fun _ => ret getFallbackResponse).

End AiService.

(** ** RAGController

    [generateResponse] of rag.controller.ts, the HTTP entry to
    [generateContextualResponse]. *)

Module RAGController.
Local Open Scope string_scope.

Record GenerateBody := {
  body_query : string;
  body_userId : string;
  body_conversationId : option string
}.

Definition generateResponse (env : Env) (body : GenerateBody) : M RAGResponse :=
  let* response :=
    RAGService.generateContextualResponse env (body_query body) (body_userId body)
      (body_conversationId body) None in
  ret {| r_query := body_query body;
         response := response;
         results := [];
         totalResults := 0;
         processingTime := 0;
         model := "mistral-small-latest";
         sources := [];
         confidence := 0.8%float;
         metadata := {| vectorSearchTime := 0%float; rerankingTime := 0%float;
                        cacheHit := false |} |}.

End RAGController.
(** ** CacheService: statistics

    [getStats] of cache.service.ts with its three parsers.  The two texts
    that Redis answers to [info('stats')] and [info('keyspace')] come from
    an oracle. *)

Module CacheStatistics.
Import JsString.
Local Open Scope string_scope.

Definition crlf : string := String (ascii_of_nat 13) (String (ascii_of_nat 10) EmptyString).

(** [s.split('\r\n')] *)
Fixpoint split_crlf (cur s : string) : list string :=
  match s with
  | EmptyString => [cur]
  | String c r =>
      match r with
      | String d r' =>
          if Ascii.eqb c (ascii_of_nat 13) && Ascii.eqb d (ascii_of_nat 10)
          then cur :: split_crlf EmptyString r'
          else split_crlf (cur ++ String c EmptyString) r
      | EmptyString => [cur ++ String c EmptyString]
      end
  end.

Definition lines (info : string) : list string := split_crlf EmptyString info.

Definition is_digit (c : ascii) : bool :=
  let n := nat_of_ascii c in ((48 <=? n) && (n <=? 57))%nat.

(** The longest prefix of decimal digits. *)
Fixpoint take_digits (s : string) : string :=
  match s with
  | EmptyString => EmptyString
  | String c r => if is_digit c then String c (take_digits r) else EmptyString
  end.

(** The integer that a string of decimal digits writes, after [acc]. *)
Fixpoint digits_value (acc : Z) (s : string) : Z :=
  match s with
  | EmptyString => acc
  | String c r => digits_value (10 * acc + (code c - 48)) r
  end.

(** The number nearest to a non-negative integer.  Below 2^63 it is the
    processor's conversion; above, the rounding of the specification. *)
Definition of_integer (z : Z) : number :=
  if (z <? 2 ^ 63)%Z then of_uint63 (Uint63.of_Z z)
  else SF2Prim (binary_normalize FloatOps.prec FloatOps.emax z 0 false).

(** [parseInt(s, 10)]; on a string of digits it is [parseInt(s)] as well.
    White space is skipped, a sign is read, and the digits that follow
    are the value; without a digit the result is NaN. *)
Definition parseInt (s : string) : number :=
  let t := trimStart s in
  let '(negative, body) :=
    match t with
    | String c r =>
        if Ascii.eqb c "-" then (true, r)
        else if Ascii.eqb c "+" then (false, r)
        else (false, t)
    | EmptyString => (false, t)
    end in
  match take_digits body with
  | EmptyString => nan
  | ds => let v := of_integer (digits_value 0 ds) in
          if negative then (- v)%float else v
  end.

(** [stats[key] = value] on a plain object: the name [__proto__] is the
    setter of the prototype, which ignores a string. *)
Definition stats_set (key value : string) (stats : gmap string string) : gmap string string :=
  if String.eqb key "__proto__" then stats else <[key := value]> stats.

(** One round of the loop of [parseRedisInfo]; a line that holds a colon
    splits into two pieces at least. *)
Definition info_line (stats : gmap string string) (line : string) : gmap string string :=
  if includes line ":" then
    match split ":" line with
    | key :: value :: _ => stats_set key value stats
    | _ => stats
    end
  else stats.

Definition parseRedisInfo (info : string) : gmap string string :=
  fold_left info_line (lines info) ∅.

(** [s.startsWith(p)], and [s] without its first [n] characters. *)
Fixpoint starts_with (p s : string) : bool :=
  match p with
  | EmptyString => true
  | String a p' =>
      match s with
      | String b s' => Ascii.eqb a b && starts_with p' s'
      | EmptyString => false
      end
  end.

Fixpoint skip (n : nat) (s : string) : string :=
  match n, s with
  | S n', String _ r => skip n' r
  | _, _ => s
  end.

(** [line.match(/keys=(\d+)/)]: the digits of the first place where
    "keys=" is followed by a digit. *)
Fixpoint match_keys (s : string) : option string :=
  match s with
  | EmptyString => None
  | String _ r =>
      let here := if starts_with "keys=" s then take_digits (skip 5 s) else EmptyString in
      if truthy here then Some here else match_keys r
  end.

(** One round of the loop of [parseKeyspaceInfo]. *)
Definition keyspace_line (totalKeys : number) (line : string) : number :=
  if starts_with "db" line then
    match match_keys line with
    | Some digits => (totalKeys + parseInt digits)%float
    | None => totalKeys
    end
  else totalKeys.

Definition parseKeyspaceInfo (info : string) : number :=
  fold_left keyspace_line (lines info) 0%float.

(** [hits || '0'] *)
Definition or_zero (x : option string) : string :=
  match x with
  | Some s => if truthy s then s else "0"
  | None => "0"
  end.

Definition calculateHitRate (hits misses : option string) : number :=
  let hitsNum := parseInt (or_zero hits) in
  let missesNum := parseInt (or_zero misses) in
  let total := (hitsNum + missesNum)%float in
  if (total =? 0)%float then 0%float else (hitsNum / total)%float.

Record Stats := {
  totalKeys : number;
  memoryUsage : string;
  hitRate : number
}.

Definition no_stats : Stats :=
  {| totalKeys := 0%float; memoryUsage := "0B"; hitRate := 0%float |}.

(** [getStats]; [info] is [this.redis.info]. *)
Definition getStats (info : string -> outcome string) : Stats :=
  match info "stats" with
  | Throw _ => no_stats
  | Ok stats_text =>
      match info "keyspace" with
      | Throw _ => no_stats
      | Ok keyspace =>
          let stats := parseRedisInfo stats_text in
          let keyspaceInfo := parseKeyspaceInfo keyspace in
          {| totalKeys :=
               if is_nan keyspaceInfo || PrimFloat.is_zero keyspaceInfo
               then 0%float else keyspaceInfo;
             memoryUsage :=
               match stats !! "usedMemoryHuman" with
               | Some s => if truthy s then s else "0B"
               | None => "0B"
               end;
             hitRate := calculateHitRate (stats !! "keyspaceHits") (stats !! "keyspaceMisses") |}
      end
  end.

(** A key or a value that a line of the info text can hold: a text without
    a colon and without a carriage return. *)
Definition plain (s : string) : bool :=
  forallb (fun c => negb (Ascii.eqb c ":" || Ascii.eqb c (ascii_of_nat 13)))
          (list_ascii_of_string s).

(** The info text of a list of entries, one "key:value" per line, and the
    value that the last entry of a key gives it. *)
Definition info_text (entries : list (string * string)) : string :=
  join crlf (List.map (fun e => fst e ++ ":" ++ snd e) entries).

Definition last_value (k : string) (entries : list (string * string)) : option string :=
  snd <$> List.find (fun e => String.eqb (fst e) k) (rev entries).

(** The keyspace text of a list of databases, each with its index, its
    number of keys and the rest of its line: a header, and one line
    "db<index>:keys=<keys>,<rest>" per database. *)
Definition db_line (d : string * string * string) : string :=
  "db" ++ fst (fst d) ++ ":keys=" ++ snd (fst d) ++ "," ++ snd d.

Definition keyspace_text (dbs : list (string * string * string)) : string :=
  join crlf ("# Keyspace" :: List.map db_line dbs).

(** A string of decimal digits. *)
Definition digits (s : string) : bool := forallb is_digit (list_ascii_of_string s).

(** A text without a carriage return. *)
Definition one_line (s : string) : bool :=
  forallb (fun c => negb (Ascii.eqb c (ascii_of_nat 13))) (list_ascii_of_string s).

(** The answers of a Redis server with two databases. *)
Definition sample_info (section : string) : outcome string :=
  if String.eqb section "stats" then
    Ok ("# Stats" ++ crlf ++ "total_connections_received:12" ++ crlf ++
        "keyspace_hits:42" ++ crlf ++ "keyspace_misses:7" ++ crlf)
  else
    Ok ("# Keyspace" ++ crlf ++ "db0:keys=5,expires=0,avg_ttl=0" ++ crlf ++
        "db1:keys=7,expires=2,avg_ttl=1000" ++ crlf).

End CacheStatistics.

(** ** Sample data

    The concrete inputs on which the properties below are exercised. *)

Definition sample_document (kw : list string) : RAGWellnessDocument :=
  {| doc_id := "d1"; _id := None; title := "Sleep hygiene";
     content := "Good sleep helps recovery. Avoid caffeine.";
     category := "lifestyle"; keywords := kw; evidence_level := "high";
     source := "who"; embedding := None |}.

Definition sample_context : ConversationContext :=
  {| cc_userId := "u1"; sessionId := "s1"; messages := [];
     cc_context := {| healthConditions := Some ["insomnia"; "recovery"]; medications := None;
                      wellnessGoals := None; recentTopics := None;
                      communicationStyle := None |};
     lastUpdated := 0; messageCount := 0 |}.

Definition sleep_document : RAGWellnessDocument :=
  {| doc_id := "doc-sleep"; _id := None; title := "Sleep hygiene";
     content := "Good sleep helps recovery. Avoid caffeine.";
     category := "lifestyle"; keywords := ["sleep"; "rest"]; evidence_level := "high";
     source := "who"; embedding := Some [1; 0]%float |}.

Definition caffeine_document : RAGWellnessDocument :=
  {| doc_id := "doc-caffeine"; _id := None; title := "Caffeine";
     content := "Coffee has caffeine. It delays sleep.";
     category := "lifestyle"; keywords := ["coffee"]; evidence_level := "medium";
     source := "nih"; embedding := Some [1; 1]%float |}.

Definition nap_document : RAGWellnessDocument :=
  {| doc_id := "doc-nap"; _id := None; title := "Naps";
     content := "A short nap restores attention.";
     category := "lifestyle"; keywords := ["nap"; "sleep"]; evidence_level := "low";
     source := ""; embedding := None |}.

Definition sample_reply : MistralResponse :=
  {| choices := Some [ {| message := Some {| m_content := Some "Keep a regular bedtime." |} |} ];
     total_tokens := 12 |}.

(** A store of three documents, an embedding provider that maps every text
    to the same vector, a completion provider that answers, axios as the HTTP
    client, and a clock that advances by ten milliseconds per reading. *)
Definition sample_env : Env :=
  {| clock := fun n => (1000 + 10 * Z.of_nat n)%Z;
     find_documents := fun mq _ =>
       match mq_text mq with
       | Some _ => Ok [sleep_document; nap_document]
       | None => Ok [sleep_document; caffeine_document]
       end;
     find_user_documents := fun _ => Ok [];
     generateEmbedding := fun _ => [1; 0]%float;
     http_post := fun _ => Resolved 200 (Some sample_reply);
     abort_rejection := MistralApiService.CanceledError;
     apiKey := "key" |}.

Definition sample_text_results : list SearchResult :=
  match VectorSearchService.textSearch sample_env "sleep" None (Some 3%Z) with
  | Ok l => l
  | Throw _ => []
  end.

Definition sample_query : RAGQuery :=
  {| query := "sleep"; userId := Some "u1"; q_context := None; filters := None;
     limit := Some 3%Z; threshold := None |}.

(** The scenario of the specification: one document in both lists, with
    score 0.9 in the vector list and 0.6 in the keyword list. *)
Definition scenario_vector : SearchResult :=
  {| document := VectorSearchService.snapshot sleep_document; score := 0.9%float;
     relevance := 0.4%float; sr_context := "Good sleep helps recovery." |}.

Definition scenario_text : SearchResult :=
  {| document := VectorSearchService.snapshot sleep_document; score := 0.6%float;
     relevance := 0.5%float; sr_context := "Good sleep helps recovery." |}.

(** The same collaborators over an empty document store. *)
Definition empty_store_env : Env :=
  {| clock := clock sample_env;
     find_documents := fun _ _ => Ok [];
     find_user_documents := fun _ => Ok [];
     generateEmbedding := generateEmbedding sample_env;
     http_post := http_post sample_env;
     abort_rejection := abort_rejection sample_env;
     apiKey := apiKey sample_env |}.

(** More collaborators: a store that holds a document whose embedding has
    three components while the provider's have two, and a store whose
    query for embeddings fails while its text query answers. *)
Definition ragged_document : RAGWellnessDocument :=
  {| doc_id := "doc-ragged"; _id := None; title := "Stretching";
     content := "Stretch before sleep.";
     category := "lifestyle"; keywords := ["stretch"]; evidence_level := "low";
     source := "blog"; embedding := Some [1; 0; 0]%float |}.

Definition ragged_env : Env :=
  {| clock := clock sample_env;
     find_documents := fun mq _ =>
       match mq_text mq with
       | Some _ => Ok [sleep_document; nap_document]
       | None => Ok [sleep_document; ragged_document]
       end;
     find_user_documents := find_user_documents sample_env;
     generateEmbedding := generateEmbedding sample_env;
     http_post := http_post sample_env;
     abort_rejection := abort_rejection sample_env;
     apiKey := apiKey sample_env |}.

Definition text_only_env : Env :=
  {| clock := clock sample_env;
     find_documents := fun mq _ =>
       match mq_text mq with
       | Some _ => Ok [sleep_document; nap_document]
       | None => Throw (new_Error "connection lost")
       end;
     find_user_documents := find_user_documents sample_env;
     generateEmbedding := generateEmbedding sample_env;
     http_post := http_post sample_env;
     abort_rejection := abort_rejection sample_env;
     apiKey := apiKey sample_env |}.
(** A completion provider whose reply holds the word "stop". *)
Definition stop_reply : MistralResponse :=
  {| choices := Some [ {| message := Some {| m_content :=
                            Some "Stop drinking coffee after noon." |} |} ];
     total_tokens := 9 |}.

Definition stop_reply_env : Env :=
  {| clock := clock sample_env;
     find_documents := find_documents sample_env;
     find_user_documents := find_user_documents sample_env;
     generateEmbedding := generateEmbedding sample_env;
     http_post := fun _ => Resolved 200 (Some stop_reply);
     abort_rejection := abort_rejection sample_env;
     apiKey := apiKey sample_env |}.
(** A completion provider that is down. *)
Definition failing_env : Env :=
  {| clock := clock sample_env;
     find_documents := find_documents sample_env;
     find_user_documents := find_user_documents sample_env;
     generateEmbedding := generateEmbedding sample_env;
     http_post := fun _ => Rejected (new_Error "socket hang up");
     abort_rejection := abort_rejection sample_env;
     apiKey := apiKey sample_env |}.

(** A store that holds a document without keywords (the schema requires the
    array, not an element of it). *)
Definition bare_document : RAGWellnessDocument :=
  {| doc_id := "doc-bare"; _id := None; title := "Hydration";
     content := "Drink water before sleep.";
     category := "lifestyle"; keywords := []; evidence_level := "low";
     source := "blog"; embedding := Some [1; 0]%float |}.

Definition bare_env : Env :=
  {| clock := clock sample_env;
     find_documents := fun mq _ =>
       match mq_text mq with
       | Some _ => Ok [sleep_document; bare_document; nap_document]
       | None => Ok [sleep_document; bare_document]
       end;
     find_user_documents := find_user_documents sample_env;
     generateEmbedding := generateEmbedding sample_env;
     http_post := http_post sample_env;
     abort_rejection := abort_rejection sample_env;
     apiKey := apiKey sample_env |}.

Definition bare_text_results : list SearchResult :=
  match VectorSearchService.textSearch bare_env "sleep" None (Some 3%Z) with
  | Ok l => l
  | Throw _ => []
  end.

(** The store of [sample_env] answering a query as the database does: a
    document is returned when its category is one of the query's. *)
Definition in_category (mq : MongoQuery) (d : RAGWellnessDocument) : bool :=
  match mq_category mq with
  | Some cs => existsb (String.eqb (category d)) cs
  | None => true
  end.

Definition filtered_env : Env :=
  {| clock := clock sample_env;
     find_documents := fun mq _ =>
       match mq_text mq with
       | Some _ => Ok (List.filter (in_category mq) [sleep_document; nap_document])
       | None => Ok (List.filter (in_category mq) [sleep_document; caffeine_document])
       end;
     find_user_documents := find_user_documents sample_env;
     generateEmbedding := generateEmbedding sample_env;
     http_post := http_post sample_env;
     abort_rejection := abort_rejection sample_env;
     apiKey := apiKey sample_env |}.

(** [sample_query] with a filter on the category. *)
Definition medication_query : RAGQuery :=
  {| query := "sleep"; userId := Some "u1"; q_context := None;
     filters := Some {| categories := Some ["medication"]; evidenceLevels := None;
                        sources_filter := None |};
     limit := Some 3%Z; threshold := None |}.

(** * Properties *)

(** ** Binary64 arithmetic

    Facts about rounding, read off the specification of the primitive
    operations: rounding keeps the sign, a positive value above the
    subnormal floor does not round to zero, and the sign of a difference of
    two numbers agrees with their comparison. *)

Module Binary64.

Ltac fl_lia :=
  unfold fexp, SpecFloat.emin, FloatOps.prec, FloatOps.emax in *; lia.

Section Rounding.
Local Open Scope Z_scope.

Lemma digits2_pos_size p : digits2_pos p = Pos.size p.
Proof. induction p; simpl; congruence. Qed.

Lemma Zdigits2_log2 m : 0 < m -> Zdigits2 m = Z.log2 m + 1.
Proof.
  destruct m as [|p|p]; try lia. intros _. simpl.
  rewrite digits2_pos_size. destruct p; simpl; lia.
Qed.

Lemma Zdigits2_nonneg m : 0 <= m -> 0 <= Zdigits2 m.
Proof. destruct m; simpl; lia. Qed.

Lemma shr_1_m r : 0 <= shr_m r -> shr_m (shr_1 r) = Z.div2 (shr_m r).
Proof.
  destruct r as [m b s]; simpl. destruct m as [|[p|p|]|p]; simpl; try reflexivity; lia.
Qed.

Lemma iter_shr_1_m n : forall r, 0 <= shr_m r ->
  shr_m (SpecFloat.iter_pos shr_1 n r) = shr_m r / 2 ^ Z.pos n.
Proof.
  assert (D2 : forall r, 0 <= shr_m r -> shr_m (shr_1 r) = shr_m r / 2 /\ 0 <= shr_m (shr_1 r)).
  { intros r Hr. rewrite shr_1_m by assumption. rewrite Z.div2_div. split; [reflexivity|].
    apply Z.div_pos; lia. }
  induction n as [n IH|n IH|]; intros r Hr; simpl SpecFloat.iter_pos.
  - destruct (D2 r Hr) as [E1 P1].
    assert (P2 : 0 <= shr_m (SpecFloat.iter_pos shr_1 n (shr_1 r))).
    { rewrite IH by assumption. apply Z.div_pos; lia. }
    rewrite IH by assumption. rewrite IH by assumption. rewrite E1.
    rewrite !Z.div_div by lia. f_equal.
    replace (Z.pos n~1) with (1 + Z.pos n + Z.pos n) by lia.
    rewrite !Z.pow_add_r by lia. lia.
  - assert (P2 : 0 <= shr_m (SpecFloat.iter_pos shr_1 n r)).
    { rewrite IH by assumption. apply Z.div_pos; lia. }
    rewrite IH by assumption. rewrite IH by assumption.
    rewrite !Z.div_div by lia. f_equal.
    replace (Z.pos n~0) with (Z.pos n + Z.pos n) by lia.
    rewrite !Z.pow_add_r by lia. lia.
  - destruct (D2 r Hr) as [E1 _]. rewrite E1. reflexivity.
Qed.

Lemma shr_record_of_loc_m m l : shr_m (shr_record_of_loc m l) = m.
Proof. destruct l as [|[]]; reflexivity. Qed.

Lemma shr_fexp_spec m e l : 0 <= m ->
  let n := Z.max 0 (fexp prec emax (Zdigits2 m + e) - e) in
  shr_m (fst (shr_fexp prec emax m e l)) = m / 2 ^ n /\
  snd (shr_fexp prec emax m e l) = e + n.
Proof.
  intros Hm n. unfold shr_fexp, shr. subst n.
  destruct (fexp prec emax (Zdigits2 m + e) - e) as [|p|p] eqn:E; simpl fst; simpl snd.
  - rewrite shr_record_of_loc_m. simpl. rewrite Z.div_1_r. split; lia.
  - rewrite iter_shr_1_m by (rewrite shr_record_of_loc_m; assumption).
    rewrite shr_record_of_loc_m. replace (Z.max 0 (Z.pos p)) with (Z.pos p) by lia. split; reflexivity.
  - rewrite shr_record_of_loc_m. replace (Z.max 0 (Z.neg p)) with 0 by lia.
    simpl. rewrite Z.div_1_r. split; lia.
Qed.

Lemma round_nearest_even_bounds m l :
  m <= round_nearest_even m l <= m + 1.
Proof. destruct l as [|[]]; simpl; try lia. destruct (Z.even m); lia. Qed.

(** Rounding keeps the sign it is given and never yields NaN. *)
Lemma binary_round_aux_sign s m e l : 0 <= m ->
  SF.sign_is s (binary_round_aux prec emax s m e l) = true.
Proof.
  intros Hm. unfold binary_round_aux.
  destruct (shr_fexp prec emax m e l) as [r1 e1] eqn:E1.
  pose proof (shr_fexp_spec m e l Hm) as [A1 _]. rewrite E1 in A1. simpl in A1.
  set (m1 := round_nearest_even (shr_m r1) (loc_of_shr_record r1)).
  assert (H1 : 0 <= m1).
  { pose proof (round_nearest_even_bounds (shr_m r1) (loc_of_shr_record r1)).
    assert (0 <= shr_m r1) by (rewrite A1; apply Z.div_pos; lia). subst m1; lia. }
  destruct (shr_fexp prec emax m1 e1 loc_Exact) as [r2 e2] eqn:E2.
  pose proof (shr_fexp_spec m1 e1 loc_Exact H1) as [A2 _]. rewrite E2 in A2. simpl in A2.
  assert (0 <= shr_m r2) by (rewrite A2; apply Z.div_pos; lia).
  destruct (shr_m r2); try lia; simpl.
  - destruct s; reflexivity.
  - destruct (e2 <=? emax - prec); simpl; destruct s; reflexivity.
Qed.

Lemma shr_fexp_pos m e l : 0 < m -> emin <= e ->
  0 < shr_m (fst (shr_fexp prec emax m e l)) /\ emin <= snd (shr_fexp prec emax m e l).
Proof.
  intros Hm He. destruct (shr_fexp_spec m e l) as [A B]; [lia|].
  rewrite A, B. split; [|lia].
  set (n := Z.max 0 _).
  assert (Hn : 0 <= n <= Z.log2 m).
  { subst n. unfold fexp. rewrite Zdigits2_log2 by assumption.
    pose proof (Z.log2_nonneg m). fl_lia. }
  apply Z.div_str_pos. split; [lia|].
  transitivity (2 ^ Z.log2 m).
  - apply Z.pow_le_mono_r; lia.
  - apply Z.log2_spec; assumption.
Qed.

(** A positive mantissa at an exponent above the subnormal floor never rounds to zero. *)
Lemma binary_round_aux_nonzero s m e l : 0 < m -> emin <= e ->
  SF.is_zero (binary_round_aux prec emax s m e l) = false.
Proof.
  intros Hm He. unfold binary_round_aux.
  destruct (shr_fexp_pos m e l Hm He) as [P1 Q1].
  destruct (shr_fexp prec emax m e l) as [r1 e1]. simpl in P1, Q1.
  set (m1 := round_nearest_even (shr_m r1) (loc_of_shr_record r1)).
  assert (H1 : 0 < m1).
  { pose proof (round_nearest_even_bounds (shr_m r1) (loc_of_shr_record r1)). subst m1; lia. }
  destruct (shr_fexp_pos m1 e1 loc_Exact H1 Q1) as [P2 Q2].
  destruct (shr_fexp prec emax m1 e1 loc_Exact) as [r2 e2]. simpl in P2, Q2.
  destruct (shr_m r2); try lia.
  destruct (e2 <=? emax - prec); reflexivity.
Qed.


Lemma shr_fexp_digits m e l : 0 < m -> emin <= e ->
  Zdigits2 (shr_m (fst (shr_fexp prec emax m e l))) + snd (shr_fexp prec emax m e l)
  = Zdigits2 m + e.
Proof.
  intros Hm He. destruct (shr_fexp_pos m e l Hm He) as [P _].
  destruct (shr_fexp_spec m e l) as [A B]; [lia|].
  rewrite Zdigits2_log2 by assumption. rewrite A in *. rewrite B.
  set (n := Z.max 0 _) in *.
  assert (Hn : 0 <= n <= Z.log2 m).
  { subst n. unfold fexp. rewrite Zdigits2_log2 by assumption.
    pose proof (Z.log2_nonneg m). fl_lia. }
  rewrite <- Z.shiftr_div_pow2 by lia. rewrite Z.log2_shiftr by assumption.
  rewrite Zdigits2_log2 by assumption. lia.
Qed.

Lemma Zdigits2_mono a b : 0 < a <= b -> Zdigits2 a <= Zdigits2 b.
Proof.
  intros H. rewrite !Zdigits2_log2 by lia. pose proof (Z.log2_le_mono a b). lia.
Qed.

Lemma Zdigits2_succ a : 0 < a -> Zdigits2 (a + 1) <= Zdigits2 a + 1.
Proof.
  intros H. rewrite !Zdigits2_log2 by lia. pose proof (Z.log2_succ_le a).
  unfold Z.succ in *. lia.
Qed.

(** A positive mantissa whose magnitude stays inside the exponent range rounds to a
    finite, non-zero number of the requested sign. *)
Lemma binary_round_aux_finite s m e l :
  0 < m -> emin <= e -> e <= emax - prec -> Zdigits2 m + e + 1 <= emax ->
  exists m' e', binary_round_aux prec emax s m e l = S754_finite s m' e'.
Proof.
  intros Hm He Hu Hd. unfold binary_round_aux.
  destruct (shr_fexp_pos m e l Hm He) as [P1 Q1].
  pose proof (shr_fexp_digits m e l Hm He) as D1.
  destruct (shr_fexp_spec m e l) as [_ B1]; [lia|].
  destruct (shr_fexp prec emax m e l) as [r1 e1]. simpl in P1, Q1, D1, B1.
  set (m1 := round_nearest_even (shr_m r1) (loc_of_shr_record r1)).
  pose proof (round_nearest_even_bounds (shr_m r1) (loc_of_shr_record r1)) as Rb.
  fold m1 in Rb.
  assert (H1 : 0 < m1) by lia.
  assert (Dm1 : Zdigits2 m1 <= Zdigits2 (shr_m r1) + 1).
  { transitivity (Zdigits2 (shr_m r1 + 1)).
    - apply Zdigits2_mono; lia.
    - apply Zdigits2_succ; lia. }
  destruct (shr_fexp_pos m1 e1 loc_Exact H1 Q1) as [P2 Q2].
  destruct (shr_fexp_spec m1 e1 loc_Exact) as [_ B2]; [lia|].
  destruct (shr_fexp prec emax m1 e1 loc_Exact) as [r2 e2]. simpl in P2, Q2, B2.
  assert (He2 : e2 <= emax - prec).
  { rewrite B2, B1 in *. fl_lia. }
  destruct (shr_m r2) as [|p|p]; try lia.
  apply Z.leb_le in He2. rewrite He2. eauto.
Qed.

Lemma pos_iter_xO m d : Z.pos (Pos.iter xO m d) = Z.pos m * 2 ^ Z.pos d.
Proof.
  induction d as [|d IH] using Pos.peano_ind.
  - simpl. lia.
  - rewrite Pos.iter_succ, Pos2Z.inj_succ, Z.pow_succ_r by lia.
    rewrite Pos2Z.inj_xO, IH. lia.
Qed.

Lemma shl_align_spec mx ex ex' :
  Z.pos (fst (shl_align mx ex ex')) = Z.pos mx * 2 ^ (ex - Z.min ex ex') /\
  snd (shl_align mx ex ex') = Z.min ex ex'.
Proof.
  unfold shl_align. destruct (ex' - ex) as [|d|d] eqn:E; simpl fst; simpl snd.
  - replace (Z.min ex ex') with ex by lia. rewrite Z.sub_diag. simpl. lia.
  - replace (Z.min ex ex') with ex by lia. rewrite Z.sub_diag. simpl. lia.
  - replace (Z.min ex ex') with ex' by lia. rewrite pos_iter_xO.
    replace (ex - ex') with (Z.pos d) by lia. split; reflexivity.
Qed.

Lemma fexp_ge_emin e : emin <= fexp prec emax e.
Proof. fl_lia. Qed.

Lemma binary_round_sign s m e : SF.sign_is s (binary_round prec emax s m e) = true.
Proof.
  unfold binary_round. destruct (shl_align _ _ _) as [mz ez].
  apply binary_round_aux_sign. lia.
Qed.

Lemma binary_round_nonzero s m e : emin <= e ->
  SF.is_zero (binary_round prec emax s m e) = false.
Proof.
  intros He. unfold binary_round.
  pose proof (shl_align_spec m e (fexp prec emax (Z.pos (digits2_pos m) + e))) as [_ B].
  pose proof (fexp_ge_emin (Z.pos (digits2_pos m) + e)).
  destruct (shl_align _ _ _) as [mz ez]. simpl in B.
  apply binary_round_aux_nonzero; lia.
Qed.

Lemma binary_round_finite s m e :
  emin <= e -> e <= emax - prec -> Zdigits2 (Z.pos m) + e + 1 <= emax ->
  exists m' e', binary_round prec emax s m e = S754_finite s m' e'.
Proof.
  intros He Hu Hd. unfold binary_round.
  pose proof (shl_align_spec m e (fexp prec emax (Z.pos (digits2_pos m) + e))) as [A B].
  pose proof (fexp_ge_emin (Z.pos (digits2_pos m) + e)).
  destruct (shl_align _ _ _) as [mz ez]. simpl in A, B.
  apply binary_round_aux_finite; try lia.
  rewrite Zdigits2_log2 in * by lia. rewrite A.
  rewrite Z.log2_mul_pow2 by lia. lia.
Qed.

End Rounding.

Section SpecOps.
Local Open Scope Z_scope.

Lemma sign_false_nonneg x : SF.sign_is false x = true -> SF.nonneg x = true.
Proof. destruct x as [s|s| |s m e]; simpl; try discriminate; destruct s; auto. Qed.

Lemma binary_normalize_pos m e sz : 0 < m ->
  SF.sign_is false (binary_normalize prec emax m e sz) = true.
Proof. destruct m; try lia. intros _. apply binary_round_sign. Qed.

Lemma SFadd_nonneg x y :
  SF.nonneg x = true -> SF.nonneg y = true -> SF.nonneg (SF64add x y) = true.
Proof.
  destruct x as [[]|[]| |[] mx ex], y as [[]|[]| |[] my ey];
    simpl; try discriminate; auto.
  intros _ _. apply sign_false_nonneg, binary_round_sign.
Qed.

Lemma SFmul_nonneg x y :
  SF.nonneg x = true -> SF.nonneg y = true -> SF.finite y = true -> SF.is_zero y = false ->
  SF.nonneg (SF64mul x y) = true.
Proof.
  destruct x as [[]|[]| |[] mx ex], y as [[]|[]| |[] my ey];
    simpl; try discriminate; auto.
  intros _ _ _ _. apply sign_false_nonneg, binary_round_aux_sign. lia.
Qed.

Lemma SFdiv_core_nonneg m1 e1 m2 e2 :
  0 <= fst (fst (SFdiv_core_binary prec emax (Z.pos m1) e1 (Z.pos m2) e2)).
Proof.
  unfold SFdiv_core_binary.
  set (s := _ - _ - _).
  set (m' := match s with 0 => _ | Z.pos _ => _ | Z.neg _ => _ end).
  assert (Hm' : 0 <= m').
  { subst m'. destruct s; try lia. apply Z.shiftl_nonneg. lia. }
  pose proof (Z.div_pos m' (Z.pos m2) Hm' ltac:(lia)) as Hq.
  unfold Z.div in Hq. destruct (Z.div_eucl m' (Z.pos m2)) as [q r]. exact Hq.
Qed.

Lemma SFdiv_nonneg x y :
  SF.nonneg x = true -> SF.nonneg y = true -> SF.is_zero y = false ->
  SF.finite x || SF.finite y = true ->
  SF.nonneg (SF64div x y) = true.
Proof.
  destruct x as [[]|[]| |[] mx ex], y as [[]|[]| |[] my ey];
    simpl; try discriminate; auto.
  intros _ _ _ _.
  pose proof (SFdiv_core_nonneg mx ex my ey) as H.
  unfold SF64div, SFdiv.
  destruct (SFdiv_core_binary prec emax (Z.pos mx) ex (Z.pos my) ey) as [[mz ez] lz].
  simpl in H. apply sign_false_nonneg, binary_round_aux_sign. exact H.
Qed.

(** Conversion of a small non-negative integer. *)
Lemma binary_normalize_small z : 0 <= z < 2 ^ 32 ->
  let r := binary_normalize prec emax z 0 false in
  SF.nonneg r = true /\ SF.finite r = true /\ (SF.is_zero r = true <-> z = 0).
Proof.
  intros Hz r. subst r. destruct z as [|p|p]; try lia.
  - simpl. intuition.
  - simpl binary_normalize.
    destruct (binary_round_finite false p 0) as (m' & e' & E).
    + fl_lia.
    + fl_lia.
    + rewrite Zdigits2_log2 by lia.
      assert (Z.log2 (Z.pos p) < 32) by (apply Z.log2_lt_pow2; lia). fl_lia.
    + rewrite E. simpl. intuition; try discriminate.
Qed.

End SpecOps.

Section Comparison.
Local Open Scope Z_scope.

Lemma canonical_fexp m e :
  canonical_mantissa prec emax m e = true -> fexp prec emax (Zdigits2 (Z.pos m) + e) = e.
Proof. unfold canonical_mantissa. intros H. apply Z.eqb_eq in H. exact H. Qed.

Lemma canonical_bounds m e : canonical_mantissa prec emax m e = true ->
  emin <= e /\ Z.pos m < 2 ^ prec /\ (emin < e -> 2 ^ (prec - 1) <= Z.pos m).
Proof.
  intros H. apply canonical_fexp in H. rewrite Zdigits2_log2 in H by lia.
  pose proof (Z.log2_spec (Z.pos m) ltac:(lia)) as [Lo Hi].
  pose proof (Z.log2_nonneg (Z.pos m)) as Hn.
  assert (Hd : Z.log2 (Z.pos m) + 1 <= prec) by fl_lia.
  split; [fl_lia|]. split.
  - eapply Z.lt_le_trans; [exact Hi|]. apply Z.pow_le_mono_r; lia.
  - intros He. assert (Z.log2 (Z.pos m) = prec - 1) by fl_lia.
    rewrite <- H0. exact Lo.
Qed.

Lemma aligned_compare m1 e1 m2 e2 :
  canonical_mantissa prec emax m1 e1 = true ->
  canonical_mantissa prec emax m2 e2 = true ->
  (Z.pos m1 * 2 ^ (e1 - Z.min e1 e2) ?= Z.pos m2 * 2 ^ (e2 - Z.min e1 e2)) =
  match e1 ?= e2 with Eq => (m1 ?= m2)%positive | c => c end.
Proof.
  intros C1 C2.
  destruct (canonical_bounds _ _ C1) as (L1 & U1 & N1).
  destruct (canonical_bounds _ _ C2) as (L2 & U2 & N2).
  assert (P53 : 2 ^ prec = 2 * 2 ^ (prec - 1)) by reflexivity.
  destruct (Z.compare_spec e1 e2) as [E|E|E].
  - subst e2. rewrite Z.min_id, Z.sub_diag. simpl. rewrite !Pos.mul_1_r. reflexivity.
  - replace (Z.min e1 e2) with e1 by lia. rewrite Z.sub_diag, Z.pow_0_r, Z.mul_1_r.
    apply Z.compare_lt_iff.
    assert (2 ^ 1 <= 2 ^ (e2 - e1)) by (apply Z.pow_le_mono_r; lia).
    specialize (N2 ltac:(lia)). change (2 ^ 1) with 2 in *. nia.
  - replace (Z.min e1 e2) with e2 by lia. rewrite Z.sub_diag, Z.pow_0_r, Z.mul_1_r.
    apply Z.compare_gt_iff.
    assert (2 ^ 1 <= 2 ^ (e1 - e2)) by (apply Z.pow_le_mono_r; lia).
    specialize (N1 ltac:(lia)). change (2 ^ 1) with 2 in *. nia.
Qed.

Lemma SFltb_zero x : SFltb (S754_zero false) x = SF.pos x.
Proof. destruct x as [[]|[]| |[] m e]; reflexivity. Qed.

Lemma SFleb_zero x : SFleb (S754_zero false) x = SF.nonneg x.
Proof. destruct x as [[]|[]| |[] m e]; reflexivity. Qed.

Lemma binary_normalize_trichotomy d e : emin <= e ->
  SF.pos (binary_normalize prec emax d e false) = (0 <? d).
Proof.
  intros He. destruct d as [|p|p]; simpl binary_normalize.
  - reflexivity.
  - pose proof (binary_round_sign false p e) as S.
    pose proof (binary_round_nonzero false p e He) as N.
    destruct (binary_round prec emax false p e) as [[]|[]| |[] m' e']; simpl in *;
      try discriminate; reflexivity.
  - pose proof (binary_round_sign true p e) as S.
    destruct (binary_round prec emax true p e) as [[]|[]| |[] m' e']; simpl in *;
      try discriminate; reflexivity.
Qed.

(** The sign of a floating-point difference agrees with the comparison of its operands. *)
Lemma SFsub_pos_ltb x y :
  valid_binary x = true -> valid_binary y = true ->
  SF.nonneg x = true -> SF.nonneg y = true ->
  SF.pos (SF64sub y x) = SFltb x y.
Proof.
  destruct x as [[]|[]| |[] mx ex], y as [[]|[]| |[] my ey];
    simpl; try discriminate; auto.
  intros Vx Vy _ _. unfold bounded in Vx, Vy.
  apply andb_prop in Vx, Vy. destruct Vx as [Cx _], Vy as [Cy _].
  destruct (canonical_bounds _ _ Cx) as (Lx & _), (canonical_bounds _ _ Cy) as (Ly & _).
  unfold SF64sub, SFsub, SFltb, SFcompare.
  rewrite binary_normalize_trichotomy by lia.
  pose proof (shl_align_spec my ey (Z.min ey ex)) as [Ay _].
  pose proof (shl_align_spec mx ex (Z.min ey ex)) as [Ax _].
  unfold cond_Zopp. rewrite Ay, Ax.
  replace (Z.min ey (Z.min ey ex)) with (Z.min ex ey) by lia.
  replace (Z.min ex (Z.min ey ex)) with (Z.min ex ey) by lia.
  change (Pos.compare_cont Eq mx my) with (mx ?= my)%positive.
  rewrite <- (aligned_compare mx ex my ey Cx Cy).
  generalize (Z.pos mx * 2 ^ (ex - Z.min ex ey)) (Z.pos my * 2 ^ (ey - Z.min ex ey)).
  intros A B. destruct (Z.compare_spec A B);
    first [ apply Z.ltb_lt; lia | apply Z.ltb_ge; lia ].
Qed.

End Comparison.

Section Primitive.
Local Open Scope float_scope.

Lemma Prim2SF_zero : Prim2SF 0 = S754_zero false.
Proof. reflexivity. Qed.

Lemma nonneg_spec x : nonneg x <-> SF.nonneg (Prim2SF x) = true.
Proof. unfold nonneg. rewrite FloatAxioms.leb_spec, Prim2SF_zero, SFleb_zero. reflexivity. Qed.

Lemma pos_spec x : (0 <? x) = SF.pos (Prim2SF x).
Proof. rewrite FloatAxioms.ltb_spec, Prim2SF_zero, SFltb_zero. reflexivity. Qed.

Lemma SFcompare_refl x : SF.is_nan x = false -> SFcompare x x = Some Eq.
Proof.
  destruct x as [[]|[]| |[] m e]; simpl; try discriminate; intros _; try reflexivity;
    rewrite Z.compare_refl; change (Pos.compare_cont Eq m m) with (m ?= m)%positive;
    rewrite Pos.compare_refl; reflexivity.
Qed.

Lemma is_nan_spec x : is_nan x = SF.is_nan (Prim2SF x).
Proof.
  unfold is_nan. rewrite FloatAxioms.eqb_spec. unfold SFeqb.
  destruct (SF.is_nan (Prim2SF x)) eqn:E.
  - destruct (Prim2SF x); try discriminate. reflexivity.
  - rewrite SFcompare_refl by assumption. reflexivity.
Qed.

Lemma is_zero_spec x : PrimFloat.is_zero x = SF.is_zero (Prim2SF x).
Proof.
  unfold PrimFloat.is_zero. rewrite FloatAxioms.eqb_spec. change (Prim2SF zero) with (S754_zero false).
  destruct (Prim2SF x) as [[]|[]| |[] m e]; reflexivity.
Qed.

Lemma nonneg_not_nan x : nonneg x -> is_nan x = false.
Proof.
  rewrite nonneg_spec, is_nan_spec. destruct (Prim2SF x) as [[]|[]| |[] m e]; simpl; congruence.
Qed.

Lemma nonneg_add x y : nonneg x -> nonneg y -> nonneg (x + y).
Proof. rewrite !nonneg_spec, FloatAxioms.add_spec. apply SFadd_nonneg. Qed.

Lemma nonneg_mul x c : nonneg x -> SF.positive_finite (Prim2SF c) = true -> nonneg (x * c).
Proof.
  rewrite !nonneg_spec, FloatAxioms.mul_spec. unfold SF.positive_finite.
  intros Hx Hc. apply andb_prop in Hc as [Hc Hz]. apply andb_prop in Hc as [Hn Hf].
  apply SFmul_nonneg; auto. apply negb_true_iff. exact Hz.
Qed.

Lemma nonneg_div_constant x c : nonneg x -> SF.positive_finite (Prim2SF c) = true -> nonneg (x / c).
Proof.
  rewrite !nonneg_spec, FloatAxioms.div_spec. unfold SF.positive_finite.
  intros Hx Hc. apply andb_prop in Hc as [Hc Hz]. apply andb_prop in Hc as [Hn Hf].
  apply SFdiv_nonneg; auto.
  - apply negb_true_iff. exact Hz.
  - rewrite Hf. apply orb_true_r.
Qed.

Lemma of_nat_spec n :
  SF.nonneg (Prim2SF (of_nat n)) = true /\ SF.finite (Prim2SF (of_nat n)) = true /\
  (SF.is_zero (Prim2SF (of_nat n)) = true <-> n = 0%nat).
Proof.
  unfold of_nat. rewrite FloatAxioms.of_uint63_spec, Uint63.of_Z_spec.
  set (z := Z.min (Z.of_nat n) (2 ^ 32 - 1)).
  assert (Hz : (0 <= z < 2 ^ 32)%Z) by (subst z; lia).
  rewrite Z.mod_small by (change wB with (2 ^ 63)%Z; lia).
  destruct (binary_normalize_small z Hz) as (A & B & C).
  split; [exact A|]. split; [exact B|]. rewrite C. subst z. lia.
Qed.

Lemma nonneg_of_nat n : nonneg (of_nat n).
Proof. apply nonneg_spec, of_nat_spec. Qed.

(** A fraction of counts with a non-empty denominator. *)
Lemma nonneg_ratio k n : (0 < n)%nat -> nonneg (of_nat k / of_nat n).
Proof.
  intros Hn. rewrite nonneg_spec, FloatAxioms.div_spec.
  destruct (of_nat_spec k) as (Ak & Bk & _), (of_nat_spec n) as (An & Bn & Cn).
  apply SFdiv_nonneg; auto.
  - apply not_true_is_false. intros E. apply Cn in E. lia.
  - rewrite Bk. reflexivity.
Qed.

Lemma SFcompare_antisym x y :
  SFcompare y x = option_map CompOpp (SFcompare x y).
Proof.
  destruct x as [[]|[]| |[] mx ex], y as [[]|[]| |[] my ey]; simpl; try reflexivity;
    rewrite (Z.compare_antisym ex ey);
    change (Pos.compare_cont Eq my mx) with (my ?= mx)%positive;
    change (Pos.compare_cont Eq mx my) with (mx ?= my)%positive;
    rewrite (Pos.compare_antisym mx my);
    destruct (ex ?= ey)%Z; simpl; try reflexivity;
    destruct (mx ?= my)%positive; reflexivity.
Qed.

Lemma ltb_leb x y : (x <? y) = true -> (x <=? y) = true.
Proof.
  rewrite FloatAxioms.ltb_spec, FloatAxioms.leb_spec. unfold SFltb, SFleb.
  destruct (SFcompare (Prim2SF x) (Prim2SF y)) as [[]|]; congruence.
Qed.

(** Two numbers are comparable unless one of them is NaN. *)
Lemma not_ltb_leb x y :
  is_nan x = false -> is_nan y = false -> (x <? y) = false -> (y <=? x) = true.
Proof.
  rewrite !is_nan_spec, FloatAxioms.ltb_spec, FloatAxioms.leb_spec. unfold SFltb, SFleb.
  rewrite (SFcompare_antisym (Prim2SF x) (Prim2SF y)).
  destruct (Prim2SF x) as [[]|[]| |[] mx ex], (Prim2SF y) as [[]|[]| |[] my ey];
    simpl; try discriminate; auto;
    intros _ _; destruct (ex ?= ey)%Z; simpl; auto;
    destruct (Pos.compare_cont Eq mx my); simpl; auto.
Qed.

Lemma leb_refl x : is_nan x = false -> (x <=? x) = true.
Proof.
  rewrite is_nan_spec, FloatAxioms.leb_spec. unfold SFleb. intros H.
  rewrite SFcompare_refl by assumption. reflexivity.
Qed.

(** The comparator [b - a] is positive exactly when [a < b]. *)
Lemma sub_pos_ltb a b : nonneg a -> nonneg b -> (0 <? b - a) = (a <? b).
Proof.
  rewrite !nonneg_spec. intros Ha Hb.
  rewrite pos_spec, FloatAxioms.sub_spec, FloatAxioms.ltb_spec.
  apply SFsub_pos_ltb; auto using Prim2SF_valid.
Qed.

Lemma Math_min_unit x : nonneg x -> in_unit (Math_min x 1).
Proof.
  intros Hx. pose proof (nonneg_not_nan x Hx) as Nx.
  unfold Math_min, in_unit. rewrite Nx. simpl.
  destruct (x <? 1) eqn:L1.
  - split; [exact Hx | apply ltb_leb; exact L1].
  - destruct (1 <? x) eqn:L2.
    + split; reflexivity.
    + destruct (get_sign x).
      * split; [exact Hx | apply not_ltb_leb; auto].
      * split; reflexivity.
Qed.

Lemma Math_max_nonneg a b : nonneg a -> nonneg b -> nonneg (Math_max a b).
Proof.
  intros Ha Hb. unfold Math_max.
  rewrite (nonneg_not_nan a Ha), (nonneg_not_nan b Hb). simpl.
  destruct (a <? b); [exact Hb|]. destruct (b <? a); [exact Ha|].
  destruct (get_sign a); assumption.
Qed.

(** NaN is absorbing. *)
Lemma is_nan_add_l x y : is_nan x = true -> is_nan (x + y) = true.
Proof.
  rewrite !is_nan_spec, FloatAxioms.add_spec. destruct (Prim2SF x); try discriminate. reflexivity.
Qed.

Lemma is_nan_add_r x y : is_nan y = true -> is_nan (x + y) = true.
Proof.
  rewrite !is_nan_spec, FloatAxioms.add_spec.
  destruct (Prim2SF x) as [[]|[]| |[] mx ex], (Prim2SF y); try discriminate; reflexivity.
Qed.

Lemma is_nan_mul_l x y : is_nan x = true -> is_nan (x * y) = true.
Proof.
  rewrite !is_nan_spec, FloatAxioms.mul_spec. destruct (Prim2SF x); try discriminate. reflexivity.
Qed.

Lemma Math_min_nan x y : is_nan x = true -> is_nan (Math_min x y) = true.
Proof. intros H. unfold Math_min. rewrite H. reflexivity. Qed.

End Primitive.

Section Zeros.
Local Open Scope float_scope.

Lemma SFmul_zero_l x y : SF.is_zero x = true -> SF.zero_or_nan (SF64mul x y) = true.
Proof.
  destruct x as [[]|[]| |[] mx ex], y as [[]|[]| |[] my ey];
    try discriminate; intros; try discriminate; reflexivity.
Qed.

Lemma SFmul_zero_zero x y :
  SF.is_zero x = true -> SF.is_zero y = true -> SF.is_zero (SF64mul x y) = true.
Proof.
  destruct x as [[]|[]| |[] mx ex], y as [[]|[]| |[] my ey];
    try discriminate; intros; try discriminate; reflexivity.
Qed.

Lemma SFadd_zero_zero x y :
  SF.is_zero x = true -> SF.is_zero y = true -> SF.is_zero (SF64add x y) = true.
Proof.
  destruct x as [[]|[]| |[] mx ex], y as [[]|[]| |[] my ey];
    try discriminate; intros; try discriminate; reflexivity.
Qed.

Lemma SFadd_zero_or_nan x y :
  SF.zero_or_nan x = true -> SF.zero_or_nan y = true -> SF.zero_or_nan (SF64add x y) = true.
Proof.
  destruct x as [[]|[]| |[] mx ex], y as [[]|[]| |[] my ey];
    try discriminate; intros; try discriminate; reflexivity.
Qed.

Lemma SFsqrt_zero x : SF.is_zero x = true -> SF.is_zero (SF64sqrt x) = true.
Proof. destruct x as [[]|[]| |[] mx ex]; try discriminate; reflexivity. Qed.

(** 0/0, and any quotient with a NaN, is NaN. *)
Lemma SFdiv_zero_or_nan x y :
  SF.zero_or_nan x = true -> SF.zero_or_nan y = true -> SF.is_nan (SF64div x y) = true.
Proof.
  destruct x as [[]|[]| |[] mx ex], y as [[]|[]| |[] my ey];
    try discriminate; intros; try discriminate; reflexivity.
Qed.

End Zeros.

End Binary64.

Import Binary64.

(** ** EmbeddingService: cosine similarity and chunking *)

Section Similarity.
Import EmbeddingService.
Local Open Scope float_scope.

Lemma dot_from_zero Z : all_zero Z -> forall i B sum,
  SF.zero_or_nan (Prim2SF sum) = true ->
  SF.zero_or_nan (Prim2SF (dot_from i Z B sum)) = true.
Proof.
  induction 1 as [|z Z Hz _ IH]; intros i B sum Hs; simpl; [exact Hs|].
  apply IH. rewrite FloatAxioms.add_spec, FloatAxioms.mul_spec.
  apply SFadd_zero_or_nan; [exact Hs|].
  apply SFmul_zero_l. rewrite <- is_zero_spec. exact Hz.
Qed.

Lemma fold_squares_zero Z : all_zero Z -> forall acc,
  SF.is_zero (Prim2SF acc) = true ->
  SF.is_zero (Prim2SF (fold_left (fun sum val => sum + val * val) Z acc)) = true.
Proof.
  induction 1 as [|z Z Hz _ IH]; intros acc Ha; simpl; [exact Ha|].
  apply IH. rewrite FloatAxioms.add_spec, FloatAxioms.mul_spec.
  rewrite is_zero_spec in Hz.
  apply SFadd_zero_zero; [exact Ha|]. apply SFmul_zero_zero; exact Hz.
Qed.

(** C2: with an all-zero first vector the quotient is 0/0: the code returns
    NaN for every second vector of the same length, where the specification
    asks for 0. *)
Theorem calculateSimilarity_zero_vector (Z B : list number) :
  all_zero Z -> length Z = length B ->
  exists r, calculateSimilarity Z B = Ok r /\ isNaN r.
Proof.
  intros HZ HL. unfold calculateSimilarity.
  rewrite HL, Nat.eqb_refl. simpl. eexists. split; [reflexivity|].
  unfold isNaN. rewrite is_nan_spec, FloatAxioms.div_spec.
  apply SFdiv_zero_or_nan.
  - apply dot_from_zero; [exact HZ | reflexivity].
  - rewrite FloatAxioms.mul_spec. apply SFmul_zero_l.
    rewrite FloatAxioms.sqrt_spec. apply SFsqrt_zero.
    apply fold_squares_zero; [exact HZ | reflexivity].
Qed.

Lemma calculateSimilarity_zero_vector_witness :
  exists r, calculateSimilarity [0; 0] [1; 2] = Ok r /\ isNaN r.
Proof.
  apply (calculateSimilarity_zero_vector [0; 0] [1; 2]).
  - repeat constructor.
  - reflexivity.
Defined.

(** The scenario of the specification, evaluated. *)
Example calculateSimilarity_zero_scenario :
  calculateSimilarity [0; 0; 0] [0.5; 0.25; 1] = Ok nan.
Proof. reflexivity. Qed.

End Similarity.

(** ** Lexical relevance *)

Section Relevance.
Import JsString.
Local Open Scope float_scope.

Lemma split_on_nonempty sep s : forall cur, (0 < length (split_on sep cur s))%nat.
Proof.
  induction s as [|c r IH]; intros cur; simpl; [lia|].
  destruct (Ascii.eqb c sep); simpl; [lia | apply IH].
Qed.

Lemma split_nonempty sep s : (0 < length (split sep s))%nat.
Proof. apply split_on_nonempty. Qed.

Lemma nonneg_term k n c :
  (0 < n)%nat -> SF.positive_finite (Prim2SF c) = true ->
  nonneg (of_nat k / of_nat n * c).
Proof. intros Hn Hc. apply nonneg_mul; [apply nonneg_ratio; exact Hn | exact Hc]. Qed.

Lemma calculateRelevance_unit d q :
  keywords d <> [] -> in_unit (VectorSearchService.calculateRelevance d q).
Proof.
  intros Hk.
  assert (Lk : (0 < length (keywords d))%nat)
    by (destruct (keywords d); [congruence | simpl; lia]).
  pose proof (split_nonempty " " (toLowerCase q)) as Lq.
  unfold VectorSearchService.calculateRelevance. apply Math_min_unit.
  repeat apply nonneg_add; try apply nonneg_term; auto.
  destruct (includes _ _); reflexivity.
Qed.

Lemma calculateUserDocumentRelevance_unit d q c :
  keywords d <> [] -> in_unit (RAGService.calculateUserDocumentRelevance d q c).
Proof.
  intros Hk.
  assert (Lk : (0 < length (keywords d))%nat)
    by (destruct (keywords d); [congruence | simpl; lia]).
  pose proof (split_nonempty " " (toLowerCase q)) as Lq.
  assert (H0 : nonneg (if includes (toLowerCase (title d)) (toLowerCase q)
                       then 0 + 0.3 else 0))
    by (destruct (includes _ _); reflexivity).
  unfold RAGService.calculateUserDocumentRelevance. apply Math_min_unit.
  destruct (healthConditions (cc_context c)) as [[|h hs]|];
    repeat apply nonneg_add; try exact H0; apply nonneg_term; simpl; auto; lia.
Qed.

Lemma calculateRelevance_nan d q :
  keywords d = [] -> isNaN (VectorSearchService.calculateRelevance d q).
Proof.
  intros Hk. unfold isNaN, VectorSearchService.calculateRelevance. rewrite Hk. simpl.
  apply Math_min_nan, is_nan_add_l, is_nan_add_r. reflexivity.
Qed.

Lemma calculateUserDocumentRelevance_nan d q c :
  keywords d = [] -> isNaN (RAGService.calculateUserDocumentRelevance d q c).
Proof.
  intros Hk. unfold isNaN, RAGService.calculateUserDocumentRelevance. rewrite Hk. simpl.
  apply Math_min_nan.
  destruct (healthConditions (cc_context c)) as [[|h hs]|];
    first [ solve [apply is_nan_add_l, is_nan_add_r; reflexivity]
          | solve [apply is_nan_add_l, is_nan_add_l, is_nan_add_r; reflexivity] ].
Qed.

(** C10: with a keyword the score is a number between 0 and 1; without one
    the keyword fraction is 0/0 and the score is NaN. *)
Theorem relevance_in_unit_interval (d : RAGWellnessDocument) (q : string)
        (c : ConversationContext) :
  (keywords d <> [] ->
   in_unit (VectorSearchService.calculateRelevance d q) /\
   in_unit (RAGService.calculateUserDocumentRelevance d q c)) /\
  (keywords d = [] ->
   isNaN (VectorSearchService.calculateRelevance d q) /\
   isNaN (RAGService.calculateUserDocumentRelevance d q c)).
Proof.
  split; intros Hk; split.
  - apply calculateRelevance_unit, Hk.
  - apply calculateUserDocumentRelevance_unit, Hk.
  - apply calculateRelevance_nan, Hk.
  - apply calculateUserDocumentRelevance_nan, Hk.
Qed.

Lemma relevance_in_unit_interval_witness :
  (in_unit (VectorSearchService.calculateRelevance (sample_document ["sleep"; "rest"]) "sleep") /\
   in_unit (RAGService.calculateUserDocumentRelevance (sample_document ["sleep"; "rest"])
              "sleep" sample_context)) /\
  (isNaN (VectorSearchService.calculateRelevance (sample_document []) "sleep") /\
   isNaN (RAGService.calculateUserDocumentRelevance (sample_document []) "sleep"
            sample_context)).
Proof.
  split.
  - apply (relevance_in_unit_interval (sample_document ["sleep"; "rest"]) "sleep" sample_context).
    discriminate.
  - apply (relevance_in_unit_interval (sample_document []) "sleep" sample_context).
    reflexivity.
Defined.

Example calculateRelevance_sample :
  VectorSearchService.calculateRelevance (sample_document ["sleep"; "rest"]) "sleep"
  = (0 + 0.3 + 1 / 2 * 0.4 + 1 / 1 * 0.3).
Proof. reflexivity. Qed.

End Relevance.

(** ** Array.prototype.sort *)

Section Sorting.
Local Open Scope float_scope.
Context {A : Type}.
Variable cmp : A -> A -> number.

Lemma sort_insert_perm x l : Permutation (sort_insert cmp x l) (x :: l).
Proof.
  induction l as [|y r IH]; simpl; [reflexivity|].
  destruct (0 <? cmp x y); [|reflexivity].
  rewrite IH. apply perm_swap.
Qed.

Lemma sort_perm l : Permutation (JsNumber.sort cmp l) l.
Proof.
  induction l as [|x r IH]; simpl; [reflexivity|].
  rewrite sort_insert_perm. constructor. exact IH.
Qed.

Lemma sort_In l x : In x (JsNumber.sort cmp l) <-> In x l.
Proof.
  split; apply Permutation_in; [|symmetry]; apply sort_perm.
Qed.

Variable R : A -> A -> Prop.
Variable P : A -> Prop.
Hypothesis behind : forall x y, P x -> P y -> (0 <? cmp x y) = true -> R y x.
Hypothesis ahead : forall x y, P x -> P y -> (0 <? cmp x y) = false -> R x y.

Lemma sort_insert_sorted x l :
  P x -> Forall P l -> Sorted R l -> Sorted R (sort_insert cmp x l).
Proof.
  intros Px Pl Sl. induction Sl as [|y r Sr IH Hd]; simpl.
  - repeat constructor.
  - apply Forall_cons_iff in Pl as [Py Pr].
    destruct (0 <? cmp x y) eqn:E.
    + constructor; [apply IH; exact Pr|].
      destruct r as [|z r']; simpl.
      * constructor. apply behind; assumption.
      * destruct (0 <? cmp x z); constructor.
        -- inversion Hd; assumption.
        -- apply behind; assumption.
    + constructor; [constructor; assumption|]. constructor. apply ahead; assumption.
Qed.

Lemma sort_sorted l : Forall P l -> Sorted R (JsNumber.sort cmp l).
Proof.
  induction 1 as [|x r Px Pr IH]; simpl; [constructor|].
  apply sort_insert_sorted; auto.
  apply List.Forall_forall. intros y Hy. rewrite List.Forall_forall in Pr. apply Pr, sort_In, Hy.
Qed.

End Sorting.

Section Order.
Local Open Scope float_scope.

Lemma SFleb_trans x y z : SFleb x y = true -> SFleb y z = true -> SFleb x z = true.
Proof.
  unfold SFleb.
  destruct x as [[]|[]| |[] mx ex], y as [[]|[]| |[] my ey], z as [[]|[]| |[] mz ez];
    simpl; try congruence;
    change (Pos.compare_cont Eq mx my) with (mx ?= my)%positive;
    change (Pos.compare_cont Eq my mz) with (my ?= mz)%positive;
    change (Pos.compare_cont Eq mx mz) with (mx ?= mz)%positive;
    destruct (Z.compare_spec ex ey); simpl; try congruence;
    destruct (Z.compare_spec ey ez); simpl; try congruence;
    destruct (Z.compare_spec ex ez); simpl; try congruence; try lia;
    destruct (Pos.compare_spec mx my); simpl; try congruence;
    destruct (Pos.compare_spec my mz); simpl; try congruence;
    destruct (Pos.compare_spec mx mz); simpl; try congruence; lia.
Qed.

Lemma leb_trans x y z : (x <=? y) = true -> (y <=? z) = true -> (x <=? z) = true.
Proof. rewrite !FloatAxioms.leb_spec. apply SFleb_trans. Qed.

End Order.

(** ** VectorSearchService: the hybrid merge *)

Section Merge.
Import VectorSearchService.
Local Open Scope float_scope.
Variable now : Z.

Local Abbreviation key := (docId now).
Local Abbreviation keys := (List.map (docId now)).

Local Abbreviation keyed := (VectorSearchService.keyed now).
Local Abbreviation set_val := (VectorSearchService.set_val now).
Local Abbreviation step_text := (VectorSearchService.step_text now).

Lemma map_values_keyed l : map_values (keyed l) = l.
Proof.
  unfold map_values, VectorSearchService.keyed. rewrite List.map_map. simpl. apply List.map_id.
Qed.

Lemma map_get_keyed (t : SearchResult) l :
  map_get (key t) (keyed l) = List.find (same_doc now t) l.
Proof.
  induction l as [|x r IH]; simpl; [reflexivity|].
  unfold same_doc at 1. destruct (String.eqb (key t) (key x)); [reflexivity | exact IH].
Qed.

Lemma map_set_keyed v l : map_set (key v) v (keyed l) = keyed (set_val v l).
Proof.
  induction l as [|x r IH]; simpl; [reflexivity|].
  destruct (String.eqb (key v) (key x)) eqn:E; simpl.
  - apply String.eqb_eq in E. rewrite E. reflexivity.
  - rewrite IH. reflexivity.
Qed.

Lemma key_merge_into e t : key (merge_into e t) = key e.
Proof. reflexivity. Qed.

Lemma find_same_doc t l e :
  List.find (same_doc now t) l = Some e -> In e l /\ key t = key e.
Proof.
  intros H. apply List.find_some in H as [H1 H2]. split; [exact H1|].
  apply String.eqb_eq. exact H2.
Qed.

Lemma find_same_doc_none t l :
  List.find (same_doc now t) l = None <-> ~ In (key t) (keys l).
Proof.
  induction l as [|x r IH]; simpl; [tauto|].
  unfold same_doc at 1. destruct (String.eqb (key t) (key x)) eqn:E.
  - apply String.eqb_eq in E. split; [discriminate | intros H; exfalso; apply H; auto].
  - apply String.eqb_neq in E. rewrite IH. split.
    + intros H [H1|H1]; [congruence | tauto].
    + intros H H1. apply H. right. exact H1.
Qed.

Lemma existsb_same_doc t l :
  existsb (same_doc now t) l = true <-> In (key t) (keys l).
Proof.
  rewrite existsb_exists, in_map_iff. unfold same_doc. split.
  - intros (x & Hx & E). apply String.eqb_eq in E. eauto.
  - intros (x & E & Hx). exists x. split; [exact Hx|]. apply String.eqb_eq. congruence.
Qed.

Lemma add_vector_keyed l v : add_vector now (keyed l) v = keyed (set_val v l).
Proof. apply map_set_keyed. Qed.

Lemma add_text_keyed l t : add_text now (keyed l) t = keyed (step_text l t).
Proof.
  unfold add_text, VectorSearchService.step_text. rewrite map_get_keyed.
  destruct (List.find (same_doc now t) l) as [e|] eqn:F.
  - apply find_same_doc in F as [_ E]. rewrite E, <- (key_merge_into e t).
    apply map_set_keyed.
  - apply map_set_keyed.
Qed.

Lemma combined_map_keyed vs ts :
  combined_map now vs ts =
  keyed (fold_left step_text ts (fold_left (fun l v => set_val v l) vs [])).
Proof.
  unfold combined_map. change (@nil (string * SearchResult)) with (keyed []).
  generalize (@nil SearchResult). induction vs as [|v vs IH]; intros l; simpl.
  - revert l. induction ts as [|t ts IHt]; intros l; simpl; [reflexivity|].
    rewrite add_text_keyed. apply IHt.
  - rewrite add_vector_keyed. apply IH.
Qed.

(** *** Updating by key *)

Lemma set_val_absent v l : ~ In (key v) (keys l) -> set_val v l = l ++ [v].
Proof.
  induction l as [|x r IH]; simpl; intros H; [reflexivity|].
  destruct (String.eqb (key v) (key x)) eqn:E.
  - apply String.eqb_eq in E. exfalso. apply H. left. congruence.
  - rewrite IH; [reflexivity|]. intros H1. apply H. right. exact H1.
Qed.

Lemma set_val_present v l : List.NoDup (keys l) -> In (key v) (keys l) ->
  set_val v l = List.map (fun x => if String.eqb (key v) (key x) then v else x) l.
Proof.
  induction l as [|x r IH]; simpl; intros N H; [contradiction|].
  apply List.NoDup_cons_iff in N as [Nx Nr].
  destruct (String.eqb (key v) (key x)) eqn:E.
  - apply String.eqb_eq in E. f_equal. symmetry.
    erewrite List.map_ext_in; [apply List.map_id|].
    intros y Hy. simpl. destruct (String.eqb (key v) (key y)) eqn:E'; [|reflexivity].
    apply String.eqb_eq in E'. exfalso. apply Nx. rewrite <- E, E'. apply in_map. exact Hy.
  - apply String.eqb_neq in E. f_equal. apply IH; [exact Nr|].
    destruct H as [H|H]; [congruence | exact H].
Qed.

Lemma keys_set_val v l :
  keys (set_val v l) = if existsb (same_doc now v) l then keys l else keys l ++ [key v].
Proof.
  induction l as [|x r IH]; simpl; [reflexivity|].
  unfold same_doc at 1. destruct (String.eqb (key v) (key x)) eqn:E; simpl.
  - apply String.eqb_eq in E. rewrite E. reflexivity.
  - rewrite IH. destruct (existsb (same_doc now v) r); reflexivity.
Qed.

Lemma NoDup_set_val v l : List.NoDup (keys l) -> List.NoDup (keys (set_val v l)).
Proof.
  intros N. rewrite keys_set_val.
  destruct (existsb (same_doc now v) l) eqn:E; [exact N|].
  apply List.NoDup_app; [exact N | repeat constructor; simpl; tauto |].
  intros k Hk [Hv|[]]. subst k.
  apply existsb_same_doc in Hk. congruence.
Qed.

Lemma NoDup_step_text l t : List.NoDup (keys l) -> List.NoDup (keys (step_text l t)).
Proof.
  intros N. unfold VectorSearchService.step_text. destruct (List.find _ l); apply NoDup_set_val; exact N.
Qed.

Lemma NoDup_fold_text ts : forall l, List.NoDup (keys l) -> List.NoDup (keys (fold_left step_text ts l)).
Proof.
  induction ts as [|t ts IH]; intros l N; simpl; [exact N|].
  apply IH, NoDup_step_text, N.
Qed.

Lemma NoDup_fold_vector vs : forall l,
  List.NoDup (keys l) -> List.NoDup (keys (fold_left (fun l v => set_val v l) vs l)).
Proof.
  induction vs as [|v vs IH]; intros l N; simpl; [exact N|].
  apply IH, NoDup_set_val, N.
Qed.

Lemma fold_vector_fresh vs : forall l, List.NoDup (keys (l ++ vs)) ->
  fold_left (fun l v => set_val v l) vs l = l ++ vs.
Proof.
  induction vs as [|v vs IH]; intros l N; simpl.
  - rewrite List.app_nil_r. reflexivity.
  - rewrite set_val_absent.
    + rewrite IH; rewrite <- List.app_assoc; [reflexivity | exact N].
    + rewrite List.map_app in N. simpl in N. apply List.NoDup_remove_2 in N.
      intros H. apply N. apply in_or_app. left. exact H.
Qed.

Lemma keyed_inj l x y : List.NoDup (keys l) -> In x l -> In y l -> key x = key y -> x = y.
Proof.
  induction l as [|z r IH]; simpl; intros N Hx Hy E; [contradiction|].
  apply List.NoDup_cons_iff in N as [Nz Nr].
  destruct Hx as [Hx|Hx], Hy as [Hy|Hy]; subst.
  - reflexivity.
  - exfalso. apply Nz. rewrite E. apply in_map. exact Hy.
  - exfalso. apply Nz. rewrite <- E. apply in_map. exact Hx.
  - apply IH; assumption.
Qed.

Lemma merged_with_nil v : merged_with now [] v = v.
Proof. reflexivity. Qed.

Lemma merged_with_absent ts v : ~ In (key v) (keys ts) -> merged_with now ts v = v.
Proof.
  intros H. unfold merged_with. apply find_same_doc_none in H. rewrite H. reflexivity.
Qed.

Lemma merged_with_skip t ts v : key v <> key t ->
  merged_with now (t :: ts) v = merged_with now ts v.
Proof.
  intros H. unfold merged_with. simpl. unfold same_doc at 1.
  apply String.eqb_neq in H. rewrite H. reflexivity.
Qed.

(** The loop over the text results computes the merge of the specification. *)
Lemma fold_text_merged ts : forall l,
  List.NoDup (keys l) -> List.NoDup (keys ts) ->
  fold_left step_text ts l =
  List.map (merged_with now ts) l ++
  List.filter (fun t => negb (existsb (same_doc now t) l)) ts.
Proof.
  induction ts as [|t ts IH]; intros l Nl Nt.
  - simpl. rewrite List.app_nil_r. symmetry. apply List.map_id.
  - apply List.NoDup_cons_iff in Nt as [Ft Nt]. fold (keys ts) in Ft, Nt. simpl.
    rewrite IH; [|apply NoDup_step_text; exact Nl | exact Nt].
    unfold VectorSearchService.step_text.
    destruct (List.find (same_doc now t) l) as [e|] eqn:F.
    + pose proof F as F'. apply find_same_doc in F' as [He Ke].
      assert (Hin : In (key (merge_into e t)) (keys l))
        by (rewrite key_merge_into; apply in_map; exact He).
      assert (Ex : existsb (same_doc now t) l = true)
        by (apply existsb_same_doc; rewrite Ke; apply in_map; exact He).
      assert (Ex' : existsb (same_doc now (merge_into e t)) l = true)
        by (apply existsb_same_doc; exact Hin).
      assert (Kl : keys (set_val (merge_into e t) l) = keys l)
        by (rewrite keys_set_val, Ex'; reflexivity).
      rewrite Ex. simpl. f_equal.
      * rewrite (set_val_present _ _ Nl Hin). rewrite List.map_map.
        apply List.map_ext_in. intros x Hx. rewrite key_merge_into.
        destruct (String.eqb (key e) (key x)) eqn:E.
        -- apply String.eqb_eq in E.
           assert (x = e) by (apply (keyed_inj l); auto). subst x.
           rewrite merged_with_absent by (rewrite key_merge_into, <- Ke; exact Ft).
           unfold merged_with. simpl. unfold same_doc at 1.
           rewrite <- Ke, String.eqb_refl. reflexivity.
        -- apply String.eqb_neq in E. rewrite merged_with_skip by congruence. reflexivity.
      * apply List.filter_ext. intros t'. f_equal.
        apply eq_true_iff_eq. rewrite !existsb_same_doc, Kl. reflexivity.
    + pose proof F as F'. apply find_same_doc_none in F'.
      assert (Ex : existsb (same_doc now t) l = false).
      { apply not_true_is_false. intros H. apply existsb_same_doc in H. contradiction. }
      rewrite Ex. simpl.
      rewrite (set_val_absent _ _ F'). rewrite List.map_app. simpl.
      rewrite merged_with_absent by exact Ft.
      rewrite <- List.app_assoc. simpl. f_equal.
      * apply List.map_ext_in. intros x Hx. symmetry. apply merged_with_skip.
        intros E. apply F'. rewrite <- E. apply in_map. exact Hx.
      * f_equal. apply List.filter_ext_in. intros t' Ht'. f_equal.
        rewrite existsb_app. simpl. unfold same_doc at 2.
        assert (key t' <> key t).
        { intros E. apply Ft. rewrite <- E. apply in_map. exact Ht'. }
        apply String.eqb_neq in H. rewrite H. rewrite !orb_false_r. reflexivity.
Qed.

(** [combineAndRerank] is the sorted merge. *)
Lemma combineAndRerank_merged vs ts :
  List.NoDup (keys vs) -> List.NoDup (keys ts) ->
  combineAndRerank now vs ts = JsNumber.sort byCombinedScore (merged_of now vs ts).
Proof.
  intros Nv Nt. unfold combineAndRerank, merged_of.
  rewrite combined_map_keyed, map_values_keyed.
  rewrite (fold_vector_fresh vs []) by exact Nv. simpl.
  rewrite fold_text_merged by assumption. reflexivity.
Qed.

Lemma combineAndRerank_NoDup vs ts : List.NoDup (keys (combineAndRerank now vs ts)).
Proof.
  unfold combineAndRerank. rewrite combined_map_keyed, map_values_keyed.
  eapply Permutation_NoDup.
  - apply Permutation_map. symmetry. apply sort_perm.
  - apply NoDup_fold_text, NoDup_fold_vector. constructor.
Qed.

Lemma well_scored_merge e t :
  well_scored e -> well_scored t -> well_scored (merge_into e t).
Proof.
  intros [Se Re] [St Rt]. split; simpl.
  - apply nonneg_div_constant; [apply nonneg_add; assumption | reflexivity].
  - apply Math_max_nonneg; assumption.
Qed.

Lemma combinedScore_nonneg r : well_scored r -> nonneg (combinedScore r).
Proof.
  intros [S R]. unfold combinedScore.
  apply nonneg_add; apply nonneg_mul; auto.
Qed.

Lemma merged_of_In vs ts r : In r (merged_of now vs ts) ->
  (exists v t, In v vs /\ In t ts /\ key v = key t /\ r = merge_into v t) \/
  (In r vs /\ ~ In (key r) (keys ts)) \/
  (In r ts /\ ~ In (key r) (keys vs)).
Proof.
  unfold merged_of. rewrite in_app_iff, in_map_iff, filter_In.
  intros [(v & E & Hv)|[Ht Hn]].
  - unfold merged_with in E. destruct (List.find (same_doc now v) ts) as [t|] eqn:F.
    + apply find_same_doc in F as [Ht Hk]. left. exists v, t. auto.
    + apply find_same_doc_none in F. subst r. right. left. auto.
  - right. right. split; [exact Ht|]. intros H. apply existsb_same_doc in H.
    rewrite H in Hn. discriminate.
Qed.

Lemma merged_of_both vs ts v t :
  List.NoDup (keys ts) -> In v vs -> In t ts -> key v = key t ->
  In (merge_into v t) (merged_of now vs ts).
Proof.
  intros Nt Hv Ht E. unfold merged_of. apply in_or_app. left.
  apply in_map_iff. exists v. split; [|exact Hv].
  unfold merged_with. destruct (List.find (same_doc now v) ts) as [t'|] eqn:F.
  - apply find_same_doc in F as [Ht' E']. f_equal.
    apply (keyed_inj ts); auto. congruence.
  - apply find_same_doc_none in F. exfalso. apply F. rewrite E. apply in_map. exact Ht.
Qed.

Lemma merged_of_vector_only vs ts v :
  In v vs -> ~ In (key v) (keys ts) -> In v (merged_of now vs ts).
Proof.
  intros Hv Hn. unfold merged_of. apply in_or_app. left.
  apply in_map_iff. exists v. split; [apply merged_with_absent; exact Hn | exact Hv].
Qed.

Lemma merged_of_text_only vs ts t :
  In t ts -> ~ In (key t) (keys vs) -> In t (merged_of now vs ts).
Proof.
  intros Ht Hn. unfold merged_of. apply in_or_app. right.
  apply filter_In. split; [exact Ht|]. apply negb_true_iff, not_true_is_false.
  intros H. apply existsb_same_doc in H. contradiction.
Qed.

Lemma merged_of_well_scored vs ts :
  Forall well_scored vs -> Forall well_scored ts -> Forall well_scored (merged_of now vs ts).
Proof.
  rewrite !List.Forall_forall. intros Hv Ht r Hr.
  apply merged_of_In in Hr as [(v & t & Iv & It & _ & E)|[[Ir _]|[Ir _]]]; auto.
  subst r. apply well_scored_merge; auto.
Qed.

Lemma set_val_Forall (P : SearchResult -> Prop) v l :
  P v -> Forall P l -> Forall P (set_val v l).
Proof.
  intros Pv. induction 1 as [|x r Px Pr IH]; simpl; [repeat constructor; exact Pv|].
  destruct (String.eqb (key v) (key x)); constructor; assumption.
Qed.

Lemma step_text_well_scored l t :
  Forall well_scored l -> well_scored t -> Forall well_scored (step_text l t).
Proof.
  intros Hl Ht. unfold VectorSearchService.step_text.
  destruct (List.find (same_doc now t) l) as [e|] eqn:F.
  - apply set_val_Forall; [|exact Hl]. apply well_scored_merge; [|exact Ht].
    apply find_same_doc in F as [He _]. rewrite List.Forall_forall in Hl. apply Hl, He.
  - apply set_val_Forall; assumption.
Qed.

Lemma combined_well_scored vs ts :
  Forall well_scored vs -> Forall well_scored ts ->
  Forall well_scored (map_values (combined_map now vs ts)).
Proof.
  intros Hv Ht. rewrite combined_map_keyed, map_values_keyed.
  assert (H0 : Forall well_scored (fold_left (fun l v => set_val v l) vs [])).
  { generalize (List.Forall_nil well_scored). generalize (@nil SearchResult).
    induction Hv as [|v vs Pv _ IH]; intros l Hl; simpl; [exact Hl|].
    apply IH, set_val_Forall; assumption. }
  revert H0. generalize (fold_left (fun l v => set_val v l) vs []).
  induction Ht as [|t ts Pt _ IH]; intros l Hl; simpl; [exact Hl|].
  apply IH, step_text_well_scored; assumption.
Qed.

Lemma sort_descending l :
  Forall well_scored l -> descending (JsNumber.sort byCombinedScore l).
Proof.
  intros H. unfold descending. apply Sorted_StronglySorted.
  - intros a b c Hab Hbc. eapply leb_trans; eassumption.
  - apply (sort_sorted byCombinedScore _ well_scored); [| |exact H];
      intros x y Px Py E; unfold byCombinedScore in E;
      rewrite sub_pos_ltb in E by (apply combinedScore_nonneg; assumption).
    + apply ltb_leb. exact E.
    + apply not_ltb_leb; auto; apply nonneg_not_nan, combinedScore_nonneg; assumption.
Qed.

End Merge.

Section HybridSamples.
Import VectorSearchService.
Local Open Scope float_scope.

(** A result whose relevance is NaN (a document without keywords) has a NaN
    combined score, and no list that holds it next to another result is in
    descending order. *)
Example ranking_with_nan :
  let poisoned := {| document := snapshot nap_document; score := 0.6;
                     relevance := calculateRelevance (sample_document []) "sleep";
                     sr_context := "" |} in
  is_nan (combinedScore poisoned) = true /\
  ~ descending (combineAndRerank 0 [scenario_vector; poisoned] []).
Proof.
  split; [reflexivity|]. intros H. vm_compute in H.
  inversion H as [|? ? _ F]. inversion F as [|? ? D _]. discriminate D.
Qed.

Example hybrid_merge_scenario :
  List.map (fun r => (doc_id (document r), score r, relevance r))
           (combineAndRerank 0 [scenario_vector] [scenario_text])
  = [("doc-sleep", 0.75, 0.5)].
Proof. reflexivity. Qed.

End HybridSamples.

(** ** The results of the two searches *)

Section SearchResults.
Import VectorSearchService JsString.
Local Open Scope float_scope.

Lemma firstn_incl {A} n (l : list A) x : In x (firstn n l) -> In x l.
Proof.
  intros H. rewrite <- (firstn_skipn n l). apply in_or_app. left. exact H.
Qed.

Lemma slice0_incl {A} (l : list A) n x : In x (slice0 l n) -> In x l.
Proof. unfold slice0. destruct (n <? 0)%Z; apply firstn_incl. Qed.

Lemma NoDup_map_firstn {A B} (f : A -> B) n (l : list A) :
  List.NoDup (List.map f l) -> List.NoDup (List.map f (firstn n l)).
Proof.
  intros H. rewrite <- (firstn_skipn n l), List.map_app in H.
  apply List.NoDup_app_remove_r in H. exact H.
Qed.

Lemma NoDup_map_slice0 {A B} (f : A -> B) (l : list A) n :
  List.NoDup (List.map f l) -> List.NoDup (List.map f (slice0 l n)).
Proof. unfold slice0. destruct (n <? 0)%Z; apply NoDup_map_firstn. Qed.

Lemma docId_snapshot now d s r c :
  truthy (doc_id d) = true ->
  docId now {| document := snapshot d; score := s; relevance := r; sr_context := c |}
  = doc_id d.
Proof. intros T. unfold docId. simpl. rewrite T. reflexivity. Qed.

(** The candidates that pass the threshold. *)
Lemma rank_candidates_results q qe th documents : forall results res,
  rank_candidates q qe th documents results = Ok res ->
  exists kept,
    res = results ++ kept /\
    Forall (fun r => exists d, In d documents /\ document r = snapshot d /\
                               (th <=? score r) = true /\
                               relevance r = calculateRelevance d q) kept /\
    (forall now, Forall (fun d => truthy (doc_id d) = true) documents ->
                 List.NoDup (List.map doc_id documents) ->
                 List.NoDup (List.map (docId now) kept) /\
                 incl (List.map (docId now) kept) (List.map doc_id documents)).
Proof.
  induction documents as [|d r IH]; intros results res H; simpl in H.
  - injection H as <-. exists []. rewrite List.app_nil_r.
    split; [reflexivity|]. split; [constructor|]. intros now _ _.
    split; [constructor | intros x []].
  - assert (Skip : rank_candidates q qe th r results = Ok res ->
                   exists kept, res = results ++ kept /\
                     Forall (fun r0 => exists d0, In d0 (d :: r) /\ document r0 = snapshot d0 /\
                                          (th <=? score r0) = true /\
                                          relevance r0 = calculateRelevance d0 q) kept /\
                     (forall now, Forall (fun d => truthy (doc_id d) = true) (d :: r) ->
                        List.NoDup (List.map doc_id (d :: r)) ->
                        List.NoDup (List.map (docId now) kept) /\
                        incl (List.map (docId now) kept) (List.map doc_id (d :: r)))).
    { intros H'. destruct (IH _ _ H') as (kept & E & F & N).
      exists kept. split; [exact E|]. split.
      - eapply List.Forall_impl; [|exact F].
        intros x (d0 & I & R). exists d0. split; [right; exact I | exact R].
      - intros now T ND. apply Forall_cons_iff in T as [_ T].
        apply List.NoDup_cons_iff in ND as [_ ND].
        destruct (N now T ND) as [N1 N2]. split; [exact N1|].
        intros x Hx. right. apply N2, Hx. }
    destruct (embedding d) as [e|]; [|apply Skip, H].
    destruct (EmbeddingService.calculateSimilarity qe e) as [sim|err]; [|discriminate].
    destruct (th <=? sim) eqn:L; [|apply Skip, H].
    destruct (IH _ _ H) as (kept & E & F & N).
    eexists (_ :: kept). split; [rewrite E, <- List.app_assoc; reflexivity|]. split.
    + constructor.
      * exists d. simpl. auto.
      * eapply List.Forall_impl; [|exact F].
        intros x (d0 & I & R). exists d0. split; [right; exact I | exact R].
    + intros now T ND. apply Forall_cons_iff in T as [Td T].
      apply List.NoDup_cons_iff in ND as [Nd ND].
      destruct (N now T ND) as [N1 N2]. simpl. rewrite docId_snapshot by exact Td. split.
      * constructor; [|exact N1]. intros Hin. apply Nd, N2, Hin.
      * intros x [<-|Hx]; [left; reflexivity | right; apply N2, Hx].
Qed.

(** When every stored document has a keyword and an identifier of its own,
    the lists that the two searches hand to the merge name each document
    once and hold scores that are not negative. *)
Theorem search_results_well_formed (env : Env) (q : string)
        (filters : option SearchFilters) (limit : option Z) (now : Z) :
  store_has_keywords env -> store_ids_unique env ->
  let vs := searchSimilarDocuments env q filters limit 0.5 in
  (Forall well_scored vs /\ List.NoDup (List.map (docId now) vs)) /\
  (forall ts, textSearch env q filters limit = Ok ts ->
     Forall well_scored ts /\ List.NoDup (List.map (docId now) ts)).
Proof.
  intros HK HU vs. split.
  - subst vs. unfold searchSimilarDocuments.
    destruct (find_documents env _ _) as [documents|e] eqn:F;
      [|split; constructor].
    destruct (rank_candidates q (generateEmbedding env q) 0.5 documents [])
      as [res|e] eqn:R; [|split; constructor].
    destruct (rank_candidates_results _ _ _ _ _ _ R) as (kept & E & P & N).
    simpl in E. subst res.
    destruct (HU _ _ _ F) as [U1 U2]. destruct (N now U2 U1) as [N1 _].
    pose proof (HK _ _ _ F) as K. split.
    + apply List.Forall_forall. intros r Hr.
      apply slice0_incl, sort_In in Hr.
      rewrite List.Forall_forall in P. destruct (P r Hr) as (d & Hd & _ & S & Rel).
      rewrite List.Forall_forall in K. split.
      * unfold nonneg. eapply leb_trans; [|exact S]. reflexivity.
      * rewrite Rel. apply calculateRelevance_unit, K, Hd.
    + apply NoDup_map_slice0. eapply Permutation_NoDup; [|exact N1].
      apply Permutation_map. symmetry. apply sort_perm.
  - intros ts Ht. unfold textSearch in Ht.
    destruct (find_documents env _ _) as [documents|e] eqn:F; [|discriminate].
    injection Ht as <-.
    destruct (HU _ _ _ F) as [U1 U2]. pose proof (HK _ _ _ F) as K. split.
    + apply List.Forall_forall. intros r Hr. apply in_map_iff in Hr as (d & <- & Hd).
      rewrite List.Forall_forall in K. split; simpl.
      * apply calculateRelevance_unit, K, Hd.
      * reflexivity.
    + rewrite List.map_map.
      erewrite List.map_ext_in; [exact U1|].
      intros d Hd. rewrite List.Forall_forall in U2. apply docId_snapshot, U2, Hd.
Qed.

Lemma search_results_well_formed_witness :
  let vs := searchSimilarDocuments sample_env "sleep" None (Some 3%Z) 0.5 in
  (Forall well_scored vs /\ List.NoDup (List.map (docId 0) vs)) /\
  (forall ts, textSearch sample_env "sleep" None (Some 3%Z) = Ok ts ->
     Forall well_scored ts /\ List.NoDup (List.map (docId 0) ts)).
Proof.
  apply (search_results_well_formed sample_env "sleep" None (Some 3%Z) 0).
  - intros mq k documents H. simpl in H.
    destruct (mq_text mq); injection H as <-; repeat constructor; discriminate.
  - intros mq k documents H. simpl in H.
    destruct (mq_text mq); injection H as <-;
      (split; [|repeat constructor]);
      simpl; repeat (constructor; [simpl; intuition discriminate|]); constructor.
Defined.

End SearchResults.

(** ** VectorSearchService: the hybrid search *)

Section HybridMerge.
Import VectorSearchService JsString.
Local Open Scope float_scope.

Lemma leb_nan_l x y : is_nan x = true -> (x <=? y) = false.
Proof.
  rewrite is_nan_spec, FloatAxioms.leb_spec. unfold SFleb.
  destruct (Prim2SF x); try discriminate. reflexivity.
Qed.

Lemma leb_nan_r x y : is_nan y = true -> (x <=? y) = false.
Proof.
  rewrite is_nan_spec, FloatAxioms.leb_spec. unfold SFleb.
  destruct (Prim2SF y); try discriminate. destruct (Prim2SF x) as [[]|[]| |[] m e]; reflexivity.
Qed.

Lemma is_nan_div_l x y : is_nan x = true -> is_nan (x / y) = true.
Proof.
  rewrite !is_nan_spec, FloatAxioms.div_spec. destruct (Prim2SF x); try discriminate. reflexivity.
Qed.

(** A list of two or more results that holds a result whose combined score
    is NaN is not in descending order, however it is arranged. *)
Lemma nan_not_descending l r :
  In r l -> is_nan (combinedScore r) = true -> (2 <= length l)%nat -> ~ descending l.
Proof.
  intros Hr Hn Hl D. unfold descending in D.
  destruct l as [|a l']; [destruct Hr|].
  apply StronglySorted_inv in D as [_ F]. rewrite List.Forall_forall in F.
  destruct Hr as [->|Hr].
  - destruct l' as [|b l'']; [simpl in Hl; lia|].
    specialize (F b (or_introl eq_refl)). rewrite leb_nan_r in F by exact Hn. discriminate.
  - specialize (F r Hr). rewrite leb_nan_l in F by exact Hn. discriminate.
Qed.

Lemma nan_score_combined r : is_nan (score r) = true -> is_nan (combinedScore r) = true.
Proof. intros H. unfold combinedScore. apply is_nan_add_l, is_nan_mul_l, H. Qed.

Section MergeKeys.
Variable now : Z.

Lemma In_set_val v l : In v (set_val now v l).
Proof.
  induction l as [|x r IH]; simpl; [left; reflexivity|].
  destruct (String.eqb (docId now v) (docId now x)); [left; reflexivity | right; exact IH].
Qed.

(** [set_val] replaces the first entry of the key and no other. *)
Lemma set_val_keeps r v l :
  In r l -> In r (set_val now v l) \/ List.find (same_doc now v) l = Some r.
Proof.
  induction l as [|x l' IH]; simpl; intros H; [destruct H|].
  unfold same_doc at 1.
  destruct (String.eqb (docId now v) (docId now x)).
  - destruct H as [->|H]; [right; reflexivity | left; right; exact H].
  - destruct H as [->|H]; [left; left; reflexivity|].
    destruct (IH H) as [H'|H']; [left; right; exact H' | right; exact H'].
Qed.

Lemma find_same_key a b l :
  docId now a = docId now b -> List.find (same_doc now a) l = List.find (same_doc now b) l.
Proof.
  intros E. induction l as [|x r IH]; simpl; [reflexivity|].
  unfold same_doc at 1 3. rewrite E, IH. reflexivity.
Qed.

(** A NaN score stays in the map through the loop over the text results. *)
Lemma step_text_nan l t :
  (exists r, In r l /\ is_nan (score r) = true) \/ is_nan (score t) = true ->
  exists r, In r (step_text now l t) /\ is_nan (score r) = true.
Proof.
  intros H. unfold step_text.
  destruct (List.find (same_doc now t) l) as [e|] eqn:F.
  - destruct H as [(r & Hr & Hn)|Hn].
    + destruct (set_val_keeps r (merge_into e t) l Hr) as [K|K].
      * exists r. split; assumption.
      * rewrite (find_same_key (merge_into e t) t) in K.
        -- rewrite F in K. injection K as ->. exists (merge_into r t).
           split; [apply In_set_val|]. simpl. apply is_nan_div_l, is_nan_add_l, Hn.
        -- apply List.find_some in F as [_ F]. apply String.eqb_eq in F. symmetry. exact F.
    + exists (merge_into e t). split; [apply In_set_val|].
      simpl. apply is_nan_div_l, is_nan_add_r, Hn.
  - destruct H as [(r & Hr & Hn)|Hn].
    + destruct (set_val_keeps r t l Hr) as [K|K]; [|congruence].
      exists r. split; assumption.
    + exists t. split; [apply In_set_val | exact Hn].
Qed.

Lemma fold_text_nan ts : forall l,
  (exists r, In r l /\ is_nan (score r) = true) \/
  (exists x, In x ts /\ is_nan (score x) = true) ->
  exists r, In r (fold_left (step_text now) ts l) /\ is_nan (score r) = true.
Proof.
  induction ts as [|t ts IH]; intros l H; simpl.
  - destruct H as [H|(x & [] & _)]. exact H.
  - apply IH. destruct H as [H|(x & [->|Hx] & Hn)].
    + left. apply step_text_nan. left. exact H.
    + left. apply step_text_nan. right. exact Hn.
    + right. exists x. split; assumption.
Qed.

(** A text result whose score is NaN leaves a result whose combined score
    is NaN in the merge, whatever the vector results are. *)
Lemma combineAndRerank_nan vs ts x :
  In x ts -> is_nan (score x) = true ->
  exists r, In r (combineAndRerank now vs ts) /\ is_nan (combinedScore r) = true.
Proof.
  intros Hx Hn. unfold combineAndRerank.
  rewrite combined_map_keyed, map_values_keyed.
  destruct (fold_text_nan ts (fold_left (fun l v => set_val now v l) vs []))
    as (r & Hr & Nr); [right; exists x; split; assumption|].
  exists r. split; [apply sort_In, Hr | apply nan_score_combined, Nr].
Qed.

End MergeKeys.

Lemma docId_truthy now r :
  truthy (doc_id (document r)) = true -> docId now r = doc_id (document r).
Proof. intros T. unfold docId. rewrite T. reflexivity. Qed.

Lemma keys_truthy now l :
  Forall (fun r => truthy (doc_id (document r)) = true) l ->
  List.map (docId now) l = List.map (fun r => doc_id (document r)) l.
Proof.
  intros F. apply List.map_ext_in. intros r Hr.
  rewrite List.Forall_forall in F. apply docId_truthy, F, Hr.
Qed.

Lemma fold_left_ext_in {A B} (f g : A -> B -> A) l : forall a,
  (forall a x, In x l -> f a x = g a x) -> fold_left f l a = fold_left g l a.
Proof.
  induction l as [|x r IH]; intros a H; simpl; [reflexivity|].
  rewrite H by (left; reflexivity). apply IH. intros a' y Hy. apply H. right. exact Hy.
Qed.

(** With identifiers everywhere the clock plays no part in the merge. *)
Lemma combineAndRerank_now now now' vs ts :
  Forall (fun r => truthy (doc_id (document r)) = true) vs ->
  Forall (fun r => truthy (doc_id (document r)) = true) ts ->
  combineAndRerank now vs ts = combineAndRerank now' vs ts.
Proof.
  intros Fv Ft. unfold combineAndRerank, combined_map. do 2 f_equal.
  rewrite List.Forall_forall in Fv, Ft.
  rewrite (fold_left_ext_in (add_vector now) (add_vector now') vs).
  - apply fold_left_ext_in. intros a x Hx. unfold add_text.
    rewrite !(docId_truthy now), !(docId_truthy now') by (apply Ft, Hx). reflexivity.
  - intros a x Hx. unfold add_vector.
    rewrite (docId_truthy now), (docId_truthy now') by (apply Fv, Hx). reflexivity.
Qed.

(** The results of the two searches over a store with identifiers. *)
Lemma vector_results_ids env q filters limit threshold now :
  store_ids_unique env ->
  let vs := searchSimilarDocuments env q filters limit threshold in
  List.NoDup (List.map (docId now) vs) /\ Forall (fun r => truthy (doc_id (document r)) = true) vs.
Proof.
  intros HU vs. subst vs. unfold searchSimilarDocuments.
  destruct (find_documents env _ _) as [documents|e] eqn:F; [|split; constructor].
  destruct (rank_candidates q (generateEmbedding env q) threshold documents [])
    as [res|e] eqn:R; [|split; constructor].
  destruct (rank_candidates_results _ _ _ _ _ _ R) as (kept & E & P & N).
  simpl in E. subst res.
  destruct (HU _ _ _ F) as [U1 U2]. destruct (N now U2 U1) as [N1 _]. split.
  - apply NoDup_map_slice0. eapply Permutation_NoDup; [|exact N1].
    apply Permutation_map. symmetry. apply sort_perm.
  - apply List.Forall_forall. intros r Hr. apply slice0_incl, sort_In in Hr.
    rewrite List.Forall_forall in P. destruct (P r Hr) as (d & Hd & Ed & _).
    rewrite Ed. simpl. rewrite List.Forall_forall in U2. apply U2, Hd.
Qed.

Lemma vector_results_scored env q filters limit :
  store_has_keywords env ->
  Forall well_scored (searchSimilarDocuments env q filters limit 0.5).
Proof.
  intros HK. unfold searchSimilarDocuments.
  destruct (find_documents env _ _) as [documents|e] eqn:F; [|constructor].
  destruct (rank_candidates q (generateEmbedding env q) 0.5 documents [])
    as [res|e] eqn:R; [|constructor].
  destruct (rank_candidates_results _ _ _ _ _ _ R) as (kept & E & P & _).
  simpl in E. subst res. pose proof (HK _ _ _ F) as K.
  apply List.Forall_forall. intros r Hr. apply slice0_incl, sort_In in Hr.
  rewrite List.Forall_forall in P. destruct (P r Hr) as (d & Hd & _ & S & Rel).
  rewrite List.Forall_forall in K. split.
  - unfold nonneg. eapply leb_trans; [|exact S]. reflexivity.
  - rewrite Rel. apply calculateRelevance_unit, K, Hd.
Qed.

Lemma text_results env q filters limit ts :
  textSearch env q filters limit = Ok ts ->
  exists documents,
    find_documents env (filters_query (Some q) filters false)
                   (JsNumber.of_Z (default_limit limit)) = Ok documents /\
    ts = List.map (fun doc => {| document := snapshot doc;
                                 score := calculateRelevance doc q;
                                 relevance := 0.5;
                                 sr_context := extractContext (content doc) q |}) documents.
Proof.
  unfold textSearch. destruct (find_documents env _ _) as [documents|e]; [|discriminate].
  intros [= <-]. exists documents. split; reflexivity.
Qed.

Lemma text_results_ids env q filters limit ts now :
  store_ids_unique env -> textSearch env q filters limit = Ok ts ->
  List.NoDup (List.map (docId now) ts) /\ Forall (fun r => truthy (doc_id (document r)) = true) ts.
Proof.
  intros HU Ht. destruct (text_results _ _ _ _ _ Ht) as (documents & F & ->).
  destruct (HU _ _ _ F) as [U1 U2]. split.
  - rewrite List.map_map. erewrite List.map_ext_in; [exact U1|].
    intros d Hd. rewrite List.Forall_forall in U2. apply docId_snapshot, U2, Hd.
  - apply List.Forall_forall. intros r Hr. apply in_map_iff in Hr as (d & <- & Hd).
    simpl. rewrite List.Forall_forall in U2. apply U2, Hd.
Qed.

Lemma text_results_scored env q filters limit ts :
  store_has_keywords env -> textSearch env q filters limit = Ok ts ->
  Forall well_scored ts.
Proof.
  intros HK Ht. destruct (text_results _ _ _ _ _ Ht) as (documents & F & ->).
  pose proof (HK _ _ _ F) as K. rewrite List.Forall_forall in K.
  apply List.Forall_forall. intros r Hr. apply in_map_iff in Hr as (d & <- & Hd).
  split; simpl; [apply calculateRelevance_unit, K, Hd | reflexivity].
Qed.

(** The score of a text result is the relevance of its document, which is
    NaN when the document has no keyword. *)
Lemma text_result_nan env q filters limit ts x :
  textSearch env q filters limit = Ok ts -> In x ts -> keywords (document x) = [] ->
  is_nan (score x) = true.
Proof.
  intros Ht Hx Hk. destruct (text_results _ _ _ _ _ Ht) as (documents & _ & ->).
  apply in_map_iff in Hx as (d & <- & _). simpl in *.
  apply calculateRelevance_nan, Hk.
Qed.

(** C1: the hybrid search over a store whose documents have identifiers of
    their own, with [ts] the results of its text search.

    When every stored document has a keyword, the merge of the vector
    results and [ts] holds each document once; a document of both lists has
    the mean of the two scores and the larger relevance, a document of one
    list is unchanged, and nothing else is in the merge; the merge is in
    descending order of [0.7 * score + 0.3 * relevance], and the search
    returns its first [limit] results.

    When a document without keywords is among the text results, its score
    is NaN (0 / 0 in [calculateRelevance]) and so is the combined score of
    its entry in the merge: whatever the vector results are, no arrangement
    of a merge of two or more results is in descending order. *)
Theorem hybrid_merge (env : Env) (q : string) (filters : option SearchFilters)
        (limit : option Z) (w : World) (now : Z) (ts : list SearchResult) :
  let n := default_limit limit in
  store_ids_unique env ->
  textSearch env q filters (Some n) = Ok ts ->
  (store_has_keywords env ->
   let vs := searchSimilarDocuments env q filters (Some n) 0.5 in
   let merged := combineAndRerank now vs ts in
   let id := fun r : SearchResult => doc_id (document r) in
   List.NoDup (List.map id merged) /\
   (forall v t, In v vs -> In t ts -> id v = id t ->
      In {| document := document v;
            score := (score v + score t) / 2;
            relevance := Math_max (relevance v) (relevance t);
            sr_context := sr_context v |} merged) /\
   (forall v, In v vs -> ~ In (id v) (List.map id ts) -> In v merged) /\
   (forall t, In t ts -> ~ In (id t) (List.map id vs) -> In t merged) /\
   (forall r, In r merged ->
      (exists v t, In v vs /\ In t ts /\ id v = id t /\ r = merge_into v t) \/
      (In r vs /\ ~ In (id r) (List.map id ts)) \/
      (In r ts /\ ~ In (id r) (List.map id vs))) /\
   descending merged /\
   ((0 <= n)%Z ->
    fst (hybridSearch env q filters limit w) = Ok (firstn (Z.to_nat n) merged))) /\
  (forall vs x l,
     In x ts -> keywords (document x) = [] ->
     Permutation l (combineAndRerank now vs ts) -> (2 <= length l)%nat ->
     ~ descending l).
Proof.
  intros n HU Ht. split.
  - intros HK vs merged id. subst id. cbv beta.
    destruct (vector_results_ids env q filters (Some n) 0.5 now HU) as [Nv Tv].
    destruct (text_results_ids env q filters (Some n) ts now HU Ht) as [Nt Tt].
    fold vs in Nv, Tv.
    assert (E : merged = JsNumber.sort byCombinedScore (merged_of now vs ts))
      by (apply combineAndRerank_merged; assumption).
    assert (Kv : forall r, In r vs -> docId now r = doc_id (document r))
      by (intros r Hr; rewrite List.Forall_forall in Tv; apply docId_truthy, Tv, Hr).
    assert (Kt : forall r, In r ts -> docId now r = doc_id (document r))
      by (intros r Hr; rewrite List.Forall_forall in Tt; apply docId_truthy, Tt, Hr).
    assert (Km : forall r, In r merged -> docId now r = doc_id (document r)).
    { intros r Hr. rewrite E in Hr. apply sort_In, merged_of_In in Hr.
      destruct Hr as [(v & t & Iv & _ & _ & ->)|[[Ir _]|[Ir _]]]; auto.
      apply (Kv v Iv). }
    rewrite <- (keys_truthy now vs Tv), <- (keys_truthy now ts Tt).
    split; [|split; [|split; [|split; [|split; [|split]]]]].
    + erewrite <- List.map_ext_in; [apply (combineAndRerank_NoDup now vs ts)|].
      intros r Hr. apply Km, Hr.
    + intros v t Hv Ht' Hk. rewrite E. apply sort_In.
      apply (merged_of_both now vs ts v t); auto. rewrite Kv, Kt by assumption. exact Hk.
    + intros v Hv Hk. rewrite E. apply sort_In, merged_of_vector_only; [exact Hv|].
      rewrite Kv by exact Hv. exact Hk.
    + intros t Ht' Hk. rewrite E. apply sort_In, merged_of_text_only; [exact Ht'|].
      rewrite Kt by exact Ht'. exact Hk.
    + intros r Hr. rewrite E in Hr. apply sort_In, merged_of_In in Hr.
      destruct Hr as [(v & t & Iv & It & Hk & ->)|[[Ir Hn]|[Ir Hn]]].
      * left. exists v, t. rewrite <- (Kv v Iv), <- (Kt t It). auto.
      * right. left. rewrite <- (Kv r Ir). auto.
      * right. right. rewrite <- (Kt r Ir). auto.
    + apply sort_descending, combined_well_scored.
      * apply vector_results_scored, HK.
      * eapply text_results_scored; eassumption.
    + intros Hn. unfold hybridSearch, try_catch, bind, lift, Date_now, ret.
      fold n. rewrite Ht. simpl. unfold slice0.
      destruct (n <? 0)%Z eqn:L; [apply Z.ltb_lt in L; lia|].
      fold vs. rewrite (combineAndRerank_now _ now vs ts Tv Tt). reflexivity.
  - intros vs x l Hx Hk P Hl.
    destruct (combineAndRerank_nan now vs ts x Hx) as (r & Hr & Nr).
    + eapply text_result_nan; eassumption.
    + apply (nan_not_descending l r); [|exact Nr | exact Hl].
      eapply Permutation_in; [symmetry; exact P | exact Hr].
Qed.

End HybridMerge.

Section HybridMergeSamples.
Import VectorSearchService JsString.
Local Open Scope float_scope.

Lemma sample_store_ids : store_ids_unique sample_env.
Proof.
  intros mq k documents H. simpl in H.
  destruct (mq_text mq); injection H as <-;
    (split; [|repeat constructor]);
    simpl; repeat (constructor; [simpl; intuition discriminate|]); constructor.
Qed.

Lemma sample_store_keywords : store_has_keywords sample_env.
Proof.
  intros mq k documents H. simpl in H.
  destruct (mq_text mq); injection H as <-; repeat constructor; discriminate.
Qed.

Lemma bare_store_ids : store_ids_unique bare_env.
Proof.
  intros mq k documents H. simpl in H.
  destruct (mq_text mq); injection H as <-;
    (split; [|repeat constructor]);
    simpl; repeat (constructor; [simpl; intuition discriminate|]); constructor.
Qed.

Lemma hybrid_merge_witness :
  (let vs := searchSimilarDocuments sample_env "sleep" None (Some 3%Z) 0.5 in
   let merged := combineAndRerank 0 vs sample_text_results in
   descending merged /\
   fst (hybridSearch sample_env "sleep" None (Some 3%Z) empty_world)
   = Ok (firstn 3 merged)) /\
  (forall l,
     Permutation l (combineAndRerank 0 (searchSimilarDocuments bare_env "sleep" None (Some 3%Z) 0.5)
                                     bare_text_results) ->
     ~ descending l).
Proof.
  split.
  - destruct (hybrid_merge sample_env "sleep" None (Some 3%Z) empty_world 0 sample_text_results
                sample_store_ids eq_refl) as [A _].
    destruct (A sample_store_keywords) as (_ & _ & _ & _ & _ & D & H).
    split; [exact D | apply H; discriminate].
  - intros l P.
    destruct (hybrid_merge bare_env "sleep" None (Some 3%Z) empty_world 0 bare_text_results
                bare_store_ids eq_refl) as [_ B].
    apply (B (searchSimilarDocuments bare_env "sleep" None (Some 3%Z) 0.5)
             (nth 1 bare_text_results (nth 0 bare_text_results scenario_text)) l).
    + right. left. reflexivity.
    + reflexivity.
    + exact P.
    + rewrite (Permutation_length P). vm_compute. lia.
Defined.

(** The search over the store with the document without keywords, run with
    a limit that cuts nothing off: the three documents are returned, the
    one without keywords with a combined score that is NaN, and the list is
    not in descending order. *)
Example hybrid_search_without_keywords :
  exists out,
    fst (hybridSearch bare_env "sleep" None (Some 3%Z) empty_world) = Ok out /\
    length out = 3%nat /\
    (exists r, In r out /\ doc_id (document r) = "doc-bare" /\
               is_nan (score r) = true /\ is_nan (combinedScore r) = true) /\
    ~ descending out.
Proof.
  eexists. split; [vm_compute; reflexivity|]. split; [reflexivity|]. split.
  - eexists. split; [right; left; reflexivity|]. repeat split; reflexivity.
  - eapply nan_not_descending; [right; left; reflexivity | reflexivity | simpl; lia].
Qed.

End HybridMergeSamples.

(** ** RAGService: searching through the cache *)

Ltac run_monad :=
  unfold try_catch, bind, gets, modify, ret, lift, throw, Date_now; simpl.

Section Search.
Import RAGService.
Local Open Scope float_scope.

Lemma set_ticks_id w : set_ticks (fun _ => ticks w) w = w.
Proof. destruct w; reflexivity. Qed.

(** The hybrid search returns a list and touches nothing but the clock. *)
Lemma hybridSearch_frame env q f lim w :
  exists l k, VectorSearchService.hybridSearch env q f lim w = (Ok l, set_ticks (fun _ => k) w).
Proof.
  unfold VectorSearchService.hybridSearch, try_catch, bind, lift, Date_now, ret.
  destruct (VectorSearchService.textSearch env q f _) as [ts|e].
  - eexists _, (S (ticks w)). reflexivity.
  - exists [], (ticks w). rewrite set_ticks_id. reflexivity.
Qed.


(** A search that misses the cache stores its response for an hour. *)
Lemma searchDocuments_miss env q w :
  redis w !! searchCacheKey q = None ->
  exists l elapsed t k,
    searchDocuments env q w =
    (Ok (searchResponse q l elapsed),
     set_ticks (fun _ => k)
       (set_redis (insert (searchCacheKey q)
                          {| key := searchCacheKey q; value := searchResponse q l elapsed;
                             timestamp := t; ttl := 3600 |}) w)).
Proof.
  intros Hmiss.
  unfold searchDocuments, CacheService.get, CacheService.set. run_monad.
  rewrite Hmiss.
  destruct (hybridSearch_frame env (query q) (filters q) (limit q) (set_ticks S w))
    as (l & k & E).
  rewrite E. simpl. eexists l, _, _, _. reflexivity.
Qed.

(** A search that finds a fresh entry returns its value as it was stored. *)
Lemma searchDocuments_hit env q w r :
  CacheService.fresh_entry env (searchCacheKey q) (set_ticks S w) = Some r ->
  fst (searchDocuments env q w) = Ok r.
Proof.
  unfold CacheService.fresh_entry. simpl.
  unfold searchDocuments, CacheService.get. run_monad.
  destruct (redis w !! searchCacheKey q) as [e|]; [|discriminate].
  destruct (ttl e =? 0)%Z; [discriminate|]. simpl.
  destruct (clock env (S (ticks w)) - timestamp e <? ttl e * 1000)%Z; [|discriminate].
  intros [= <-]. reflexivity.
Qed.

(** A search that is not served from the cache answers with the nominal
    confidence, whatever it found. *)
Lemma searchDocuments_not_cached env q w :
  CacheService.fresh_entry env (searchCacheKey q) (set_ticks S w) = None ->
  exists l elapsed, fst (searchDocuments env q w) = Ok (searchResponse q l elapsed).
Proof.
  unfold CacheService.fresh_entry. simpl.
  unfold searchDocuments, CacheService.get, CacheService.set. run_monad.
  destruct (redis w !! searchCacheKey q) as [e|].
  - destruct (ttl e =? 0)%Z; simpl.
    + intros _.
      destruct (hybridSearch_frame env (query q) (filters q) (limit q)
                  (set_redis (base.delete (searchCacheKey q)) (set_ticks S w)))
        as (l & k & E).
      rewrite E. simpl. eauto.
    + destruct (clock env (S (ticks w)) - timestamp e <? ttl e * 1000)%Z; [discriminate|].
      intros _. simpl.
      destruct (hybridSearch_frame env (query q) (filters q) (limit q)
                  (set_redis (base.delete (searchCacheKey q)) (set_ticks S (set_ticks S w))))
        as (l & k & E).
      rewrite E. simpl. eauto.
  - intros _.
    destruct (hybridSearch_frame env (query q) (filters q) (limit q) (set_ticks S w))
      as (l & k & E).
    rewrite E. simpl. eauto.
Qed.

(** C5, as the code has it: a search that is not served from the cache
    answers with confidence 0.8 and the embedding model's name, also when
    it returns no result; confidence 0.0 and the label "fallback" belong to
    the response of the exception handler, which carries no result. *)
Theorem search_confidence (env : Env) (q : RAGQuery) (w : World) :
  (CacheService.fresh_entry env (searchCacheKey q) (set_ticks S w) = None ->
   exists r, fst (searchDocuments env q w) = Ok r /\
             confidence r = 0.8 /\ model r = "mistral-embed" /\
             cacheHit (metadata r) = false /\ totalResults r = length (results r)) /\
  (forall elapsed,
     confidence (fallbackResponse q elapsed) = 0 /\
     model (fallbackResponse q elapsed) = "fallback" /\
     results (fallbackResponse q elapsed) = []).
Proof.
  split.
  - intros H. destruct (searchDocuments_not_cached env q w H) as (l & elapsed & E).
    exists (searchResponse q l elapsed). rewrite E. repeat split; reflexivity.
  - intros elapsed. repeat split; reflexivity.
Qed.

Lemma search_confidence_witness :
  exists r, fst (searchDocuments sample_env sample_query empty_world) = Ok r /\
            confidence r = 0.8 /\ model r = "mistral-embed" /\
            cacheHit (metadata r) = false /\ totalResults r = length (results r).
Proof.
  apply (search_confidence sample_env sample_query empty_world). reflexivity.
Defined.

(** C5 as stated fails: over an empty store the search returns no result,
    and the response still has confidence 0.8 and the embedding model's name. *)
Lemma search_without_results :
  exists r, fst (searchDocuments empty_store_env sample_query empty_world) = Ok r /\
            results r = [] /\
            confidence r = 0.8 /\ (confidence r =? 0) = false /\
            model r = "mistral-embed" /\ String.eqb (model r) "fallback" = false.
Proof. eexists. repeat split; reflexivity. Qed.

(** C3: a second search with the same arguments, made while the entry of
    the first is fresh, is answered from the cache with the response as the
    first call stored it.  The flag of that response is the [cacheHit =
    false] that the first call wrote: the second call reports no cache hit.
    What the cache returns is the first response itself when the numbers
    in it are the ones JSON can carry, and then the results are the same. *)
Theorem repeated_search (env : Env) (q : RAGQuery) (w : World) :
  let first := searchDocuments env q w in
  redis w !! searchCacheKey q = None ->
  is_Some (CacheService.fresh_entry env (searchCacheKey q) (set_ticks S (snd first))) ->
  exists r1 r2,
    fst first = Ok r1 /\
    fst (searchDocuments env q (snd first)) = Ok r2 /\
    cacheHit (metadata r1) = false /\
    cacheHit (metadata r2) = false /\
    (Json.stable_response r1 = true -> r2 = r1 /\ results r2 = results r1).
Proof.
  intros first Hmiss [r Hr]. subst first.
  destruct (searchDocuments_miss env q w Hmiss) as (l & elapsed & t & k & E).
  rewrite E in *. simpl in *.
  assert (R : r = searchResponse q l elapsed).
  { unfold CacheService.fresh_entry in Hr. simpl in Hr.
    rewrite lookup_insert_eq in Hr. simpl in Hr.
    destruct (_ <? _)%Z; [|discriminate]. congruence. }
  subst r. exists (searchResponse q l elapsed), (searchResponse q l elapsed).
  split; [reflexivity|]. split; [apply searchDocuments_hit, Hr|].
  repeat split; reflexivity.
Qed.

Lemma repeated_search_witness :
  let first := searchDocuments sample_env sample_query empty_world in
  exists r1 r2,
    fst first = Ok r1 /\
    fst (searchDocuments sample_env sample_query (snd first)) = Ok r2 /\
    cacheHit (metadata r1) = false /\
    cacheHit (metadata r2) = false /\
    (Json.stable_response r1 = true -> r2 = r1 /\ results r2 = results r1).
Proof.
  apply (repeated_search sample_env sample_query empty_world).
  - reflexivity.
  - vm_compute. eexists. reflexivity.
Defined.

Example repeated_search_sample :
  let first := searchDocuments sample_env sample_query empty_world in
  match fst first, fst (searchDocuments sample_env sample_query (snd first)) with
  | Ok r1, Ok r2 =>
      Json.stable_response r1 = true /\ results r2 = results r1 /\
      List.map (fun r => doc_id (document r)) (results r2) = ["doc-sleep"; "doc-caffeine"; "doc-nap"] /\
      cacheHit (metadata r2) = false
  | _, _ => False
  end.
Proof. vm_compute. repeat split; reflexivity. Qed.

End Search.

(** ** RAGService: the conversation *)

Section Conversation.
Import RAGService JsString.

(** C6: a query whose lowercased text contains a stop keyword is answered
    with the fixed acknowledgement, in the world as it was: no request goes
    to the completion provider, and no conversation is created or changed. *)
Theorem stop_signal (env : Env) (q userId : string) (conversationId generationId : option string)
        (keyword : string) (w : World) :
  In keyword stopKeywords ->
  includes (toLowerCase q) keyword = true ->
  let run := generateContextualResponse env q userId conversationId generationId w in
  run = (Ok stop_acknowledgement, w) /\
  provider_calls (snd run) = provider_calls w /\
  conversations (snd run) = conversations w /\
  (forall sid c, conversations w !! sid = Some c ->
     exists c', conversations (snd run) !! sid = Some c' /\
                length (messages c') = length (messages c) /\
                messageCount c' = messageCount c).
Proof.
  intros Hk Hq run.
  assert (S : isStopSignal q = true).
  { unfold isStopSignal. apply existsb_exists. exists keyword. split; assumption. }
  assert (E : run = (Ok stop_acknowledgement, w)).
  { subst run. unfold generateContextualResponse. rewrite S. reflexivity. }
  rewrite E. simpl. repeat split; try reflexivity.
  intros sid c Hc. exists c. repeat split; auto.
Qed.

Lemma stop_signal_witness :
  let run := generateContextualResponse sample_env "Please STOP now" "u1" (Some "s1")
                                        (Some "g1") empty_world in
  run = (Ok stop_acknowledgement, empty_world) /\
  provider_calls (snd run) = provider_calls empty_world /\
  conversations (snd run) = conversations empty_world /\
  (forall sid c, conversations empty_world !! sid = Some c ->
     exists c', conversations (snd run) !! sid = Some c' /\
                length (messages c') = length (messages c) /\
                messageCount c' = messageCount c).
Proof.
  apply (stop_signal sample_env "Please STOP now" "u1" (Some "s1") (Some "g1") "stop").
  - simpl. auto.
  - reflexivity.
Defined.

(** The appends leave [messageCount] alone, and [saveConversationContext]
    writes the document as it is. *)
Lemma push_message_count m c :
  messageCount (doc (push_message m c)) = messageCount (doc c) /\
  length (messages (doc (push_message m c))) = S (length (messages (doc c))).
Proof.
  split; [reflexivity|]. simpl. rewrite length_app. simpl. lia.
Qed.

Lemma saveConversationContext_stores env c w :
  isNew c && bool_decide (is_Some (conversations w !! sessionId (doc c))) = false ->
  exists stored,
    conversations (snd (saveConversationContext env c w)) !! sessionId (doc c) = Some stored /\
    messages stored = messages (doc c) /\ messageCount stored = messageCount (doc c).
Proof.
  intros H. unfold saveConversationContext, save. run_monad. rewrite H. simpl.
  rewrite lookup_insert_eq. eexists. repeat split; reflexivity.
Qed.

(** The sibling that nothing calls does maintain the count. *)
Lemma updateConversationContext_counts env c u a w :
  isNew c && bool_decide (is_Some (conversations w !! sessionId (doc c))) = false ->
  exists stored,
    conversations (snd (updateConversationContext env c u a w)) !! sessionId (doc c)
      = Some stored /\
    messageCount stored = Z.of_nat (length (messages stored)).
Proof.
  intros H. unfold updateConversationContext, save. run_monad. rewrite H. simpl.
  rewrite lookup_insert_eq. eexists. repeat split; reflexivity.
Qed.

(** C7: a first exchange in a new session.  The reply is returned and the
    conversation is stored with its two messages, and with the
    [messageCount] it was created with: the invariant
    [messageCount = length messages] is broken by the stored document. *)
Theorem messageCount_not_maintained :
  let run := generateContextualResponse sample_env "how can I sleep better" "u1" (Some "s1")
                                        None empty_world in
  fst run = Ok "Keep a regular bedtime." /\
  exists stored, conversations (snd run) !! "s1" = Some stored /\
                 length (messages stored) = 2%nat /\ messageCount stored = 0%Z.
Proof.
  vm_compute. split; [reflexivity|]. eexists. repeat split; reflexivity.
Qed.

End Conversation.

(** ** MistralApiService: the registry of running generations *)

Section Generations.
Import MistralApiService JsString.

Lemma forget_removes g w :
  truthy g = true -> activeGenerations (snd (forget (Some g) w)) !! g = None.
Proof.
  intros T. unfold forget, registered. rewrite T. run_monad. apply lookup_delete_eq.
Qed.

(** Whatever the request settles to, the call leaves no entry behind. *)
Lemma call_end_removes g s w :
  truthy g = true -> activeGenerations (snd (call_end (Some g) s w)) !! g = None.
Proof.
  intros T. unfold call_end, call_catch, forget, registered. rewrite T.
  destruct s as [status data|error]; run_monad.
  - destruct (has_choices data); simpl; [apply lookup_delete_eq|].
    rewrite lookup_delete_eq. reflexivity.
  - destruct (is_abort error); simpl; apply lookup_delete_eq.
Qed.

(** C8: a generation started under [g] and cancelled before the provider
    answers.  [cancelGeneration] returns [true] and [g] is not in the
    registry afterwards; a generation that runs to its end, with an answer
    or with an error of the provider, leaves no entry under [g] either.  The
    cancelled call, however, does not end in the exception "Generation
    cancelled": the catch block looks for the name "AbortError" or the code
    "ABORT_ERR", the [CanceledError] that axios rejects with has neither,
    and the call returns [null], which is what it returns when the provider
    fails. *)
Theorem cancelled_generation_returns_null (env : Env) (prompt : string) (maxTokens : Z) (g : string)
        (answer : settled) (w : World) :
  useFallback env = false ->
  truthy g = true ->
  abort_rejection env = CanceledError ->
  is_abort CanceledError = false /\
  (let '(stopped, o, w') := cancel_in_flight env prompt maxTokens g answer w in
   stopped = true /\ o = Ok None /\ o <> Throw cancelled /\
   activeGenerations w' !! g = None) /\
  activeGenerations (snd (callMistralAPI env prompt maxTokens (Some g) w)) !! g = None /\
  (forall error, controllers w ∉ aborted w ->
     http_post env prompt = Rejected error -> is_abort error = false ->
     fst (callMistralAPI env prompt maxTokens (Some g) w) = Ok None) /\
  (forall status data, controllers w ∉ aborted w ->
     http_post env prompt = Resolved status (Some data) -> has_choices (Some data) = true ->
     fst (callMistralAPI env prompt maxTokens (Some g) w) = Ok (Some data)).
Proof.
  intros F T A. split; [reflexivity|]. split; [|split; [|split]].
  - unfold cancel_in_flight, call_begin, cancelGeneration, settle, call_end, call_catch,
      forget, registered.
    rewrite F, T. run_monad. rewrite lookup_insert_eq. simpl.
    rewrite bool_decide_eq_true_2 by set_solver.
    rewrite A. simpl. repeat split; try reflexivity; [discriminate|]. apply lookup_delete_eq.
  - unfold callMistralAPI, call_begin, registered. rewrite F, T. run_monad.
    destruct (bool_decide _); apply call_end_removes; exact T.
  - intros error Fresh Hp Ha.
    unfold callMistralAPI, call_begin, settle, call_end, call_catch, forget, registered.
    rewrite F, T, Hp. run_monad.
    rewrite bool_decide_eq_false_2 by exact Fresh. rewrite Ha. reflexivity.
  - intros status data Fresh Hp Hc.
    unfold callMistralAPI, call_begin, settle, call_end, call_catch, forget, registered.
    rewrite F, T, Hp. run_monad.
    rewrite bool_decide_eq_false_2 by exact Fresh. rewrite Hc. reflexivity.
Qed.

Lemma cancelled_generation_returns_null_witness :
  let env := sample_env in
  let w := empty_world in
  is_abort CanceledError = false /\
  (let '(stopped, o, w') :=
     cancel_in_flight env "prompt" 1000 "g1" (Resolved 200 (Some sample_reply)) w in
   stopped = true /\ o = Ok None /\ o <> Throw cancelled /\
   activeGenerations w' !! "g1" = None) /\
  activeGenerations (snd (callMistralAPI env "prompt" 1000 (Some "g1") w)) !! "g1" = None /\
  (forall error, controllers w ∉ aborted w ->
     http_post env "prompt" = Rejected error -> is_abort error = false ->
     fst (callMistralAPI env "prompt" 1000 (Some "g1") w) = Ok None) /\
  (forall status data, controllers w ∉ aborted w ->
     http_post env "prompt" = Resolved status (Some data) -> has_choices (Some data) = true ->
     fst (callMistralAPI env "prompt" 1000 (Some "g1") w) = Ok (Some data)).
Proof.
  apply (cancelled_generation_returns_null sample_env "prompt" 1000 "g1" (Resolved 200 (Some sample_reply))
                      empty_world); reflexivity.
Defined.

(** With a client that rejects an aborted request with an abort error, the
    same interleaving ends in the exception. *)
Lemma cancel_in_flight_abort_error env prompt maxTokens g answer w :
  useFallback env = false -> truthy g = true ->
  is_abort (abort_rejection env) = true ->
  snd (fst (cancel_in_flight env prompt maxTokens g answer w)) = Throw cancelled.
Proof.
  intros F T A.
  unfold cancel_in_flight, call_begin, cancelGeneration, settle, call_end, call_catch,
    forget, registered.
  rewrite F, T. run_monad. rewrite lookup_insert_eq. simpl.
  rewrite bool_decide_eq_true_2 by set_solver.
  rewrite A. reflexivity.
Qed.

(** The ways a generation ends, evaluated: with the provider's answer, with
    [null] when it is cancelled in flight, and with [null] when the request
    fails. *)
Example generation_outcomes :
  fst (callMistralAPI sample_env "prompt" 1000 (Some "g1") empty_world) = Ok (Some sample_reply) /\
  snd (fst (cancel_in_flight sample_env "prompt" 1000 "g1" (Resolved 200 (Some sample_reply))
                             empty_world)) = Ok None /\
  fst (call_end (Some "g1") (Rejected (new_Error "socket hang up")) empty_world) = Ok None.
Proof. repeat split; reflexivity. Qed.

End Generations.

(** ** CacheService: the derivation of keys *)

Section Keys.
Import CacheService JsString.
Local Open Scope Z_scope.

Lemma digit_value_digit36 d : 0 <= d < 36 -> digit_value (digit36 d) = d.
Proof.
  intros H. unfold digit_value, digit36, code.
  destruct (d <? 10) eqn:E.
  - apply Z.ltb_lt in E. rewrite nat_ascii_embedding by lia.
    rewrite Z2Nat.id by lia.
    destruct (48 + d <? 58) eqn:E'; [lia | apply Z.ltb_ge in E'; lia].
  - apply Z.ltb_ge in E. rewrite nat_ascii_embedding by lia.
    rewrite Z2Nat.id by lia.
    destruct (87 + d <? 58) eqn:E'; [apply Z.ltb_lt in E'; lia | lia].
Qed.

Lemma value36_digits36 fuel : forall n,
  0 <= n < 36 ^ Z.of_nat (S fuel) -> value36 (digits36 fuel n) = n.
Proof.
  induction fuel as [|fuel IH]; intros n Hn.
  - change (36 ^ Z.of_nat 1) with 36 in Hn. simpl.
    rewrite Z.mod_small by lia. rewrite digit_value_digit36 by lia. lia.
  - simpl digits36. destruct (n <? 36) eqn:E.
    + apply Z.ltb_lt in E. simpl. rewrite digit_value_digit36 by lia. lia.
    + apply Z.ltb_ge in E. simpl value36.
      rewrite digit_value_digit36 by (apply Z.mod_pos_bound; lia).
      rewrite IH.
      * pose proof (Z.div_mod n 36 ltac:(lia)). lia.
      * split; [apply Z.div_pos; lia|].
        apply Z.div_lt_upper_bound; [lia|].
        rewrite <- Z.pow_succ_r by lia. rewrite <- Nat2Z.inj_succ. lia.
Qed.

Lemma enough_digits n : 0 <= n -> n < 36 ^ Z.of_nat (S (Z.to_nat (Z.log2 n))).
Proof.
  intros Hn. rewrite Nat2Z.inj_succ, Z2Nat.id by apply Z.log2_nonneg.
  destruct (Z.eq_dec n 0) as [->|Hz]; [reflexivity|].
  eapply Z.lt_le_trans; [apply Z.log2_spec; lia|].
  apply Z.pow_le_mono_l. lia.
Qed.

Lemma toString36_inj a b : 0 <= a -> 0 <= b -> toString36 a = toString36 b -> a = b.
Proof.
  intros Ha Hb H. unfold toString36 in H.
  apply (f_equal list_ascii_of_string) in H.
  rewrite !list_ascii_of_string_of_list_ascii in H.
  apply (f_equal (@rev ascii)) in H. rewrite !rev_involutive in H.
  apply (f_equal value36) in H.
  rewrite !value36_digits36 in H by (split; [assumption | apply enough_digits; assumption]).
  exact H.
Qed.

Lemma append_inj_l p a b : (p ++ a = p ++ b)%string -> a = b.
Proof.
  induction p as [|c p IH]; simpl; intros H; [exact H|].
  injection H as H. apply IH, H.
Qed.

Lemma append_inj_r s : forall a b, (a ++ s = b ++ s)%string -> a = b.
Proof.
  assert (L : forall x y : string, String.length (x ++ y) = (String.length x + String.length y)%nat).
  { induction x; simpl; intros; [reflexivity | rewrite IHx; reflexivity]. }
  induction a as [|c a IH]; intros [|d b] H.
  - reflexivity.
  - apply (f_equal String.length) in H. rewrite !L in H. simpl in H. lia.
  - apply (f_equal String.length) in H. rewrite !L in H. simpl in H. lia.
  - simpl in H. injection H as -> H. f_equal. apply IH, H.
Qed.

End Keys.

(** ** RAGService: the key of a cached search *)

Section SearchKey.
Import CacheService JsString RAGService.

Lemma to_int_nonnil z : Z.to_int z <> Decimal.Pos Decimal.Nil /\ Z.to_int z <> Decimal.Neg Decimal.Nil.
Proof.
  destruct z as [|p|p]; simpl; split; try discriminate;
    intros [= H]; exact (Unsigned.to_uint_nonnil p H).
Qed.

Lemma of_Z_read z : NilZero.int_of_string (JsString.of_Z z) = Some (Z.to_int z).
Proof. unfold JsString.of_Z. destruct (to_int_nonnil z). apply NilZero.isi; assumption. Qed.

Lemma of_Z_inj a b : JsString.of_Z a = JsString.of_Z b -> a = b.
Proof.
  intros H. apply (f_equal NilZero.int_of_string) in H. rewrite !of_Z_read in H.
  injection H as H. apply (f_equal Z.of_int) in H. rewrite !DecimalZ.of_to in H. exact H.
Qed.

(** A limit prints as its digits, never as the word that stands for an
    absent one. *)
Lemma limit_text_inj (a b : option Z) :
  of_option JsString.of_Z a = of_option JsString.of_Z b -> a = b.
Proof.
  destruct a as [a|], b as [b|]; simpl; intros H.
  - f_equal. apply of_Z_inj, H.
  - apply (f_equal NilZero.int_of_string) in H. rewrite of_Z_read in H. discriminate H.
  - apply (f_equal NilZero.int_of_string) in H. rewrite of_Z_read in H. discriminate H.
  - reflexivity.
Qed.

(** C4: the key under which [searchDocuments] caches a response is the text
    "search:query:userId:limit".  It is a function of the query text, the
    user and the limit, and of nothing else: two queries that agree on these
    derive the same key whatever their filters are; with the user and the
    limit unchanged, another query text gives another key; with the query
    text and the limit unchanged, the key changes with the text that stands
    for the user; and with the query text and the user unchanged, another
    limit gives another key although the limit is not one of the three
    inputs.  The filters are not part of the key: a search for medication
    finds nothing in the store on its own, and after a search without
    filters it is answered with the lifestyle documents which that search
    cached. *)
Theorem search_key_omits_filters :
  (forall a b : RAGQuery,
     query a = query b -> userId a = userId b -> limit a = limit b ->
     searchCacheKey a = searchCacheKey b) /\
  (forall a b : RAGQuery,
     userId a = userId b -> limit a = limit b ->
     (searchCacheKey a = searchCacheKey b <-> query a = query b)) /\
  (forall a b : RAGQuery,
     query a = query b -> limit a = limit b ->
     (searchCacheKey a = searchCacheKey b <->
      of_option (fun s => s) (userId a) = of_option (fun s => s) (userId b))) /\
  (forall a b : RAGQuery,
     query a = query b -> userId a = userId b ->
     (searchCacheKey a = searchCacheKey b <-> limit a = limit b)) /\
  (let first := searchDocuments filtered_env sample_query empty_world in
   query medication_query = query sample_query /\
   userId medication_query = userId sample_query /\
   filters medication_query <> filters sample_query /\
   searchCacheKey medication_query = searchCacheKey sample_query /\
   (exists r, fst (searchDocuments filtered_env medication_query empty_world) = Ok r /\
              results r = []) /\
   (exists r, fst first = Ok r /\
              fst (searchDocuments filtered_env medication_query (snd first)) = Ok r /\
              Json.stable_response r = true /\
              List.map (fun x => (doc_id (document x), category (document x))) (results r)
              = [("doc-sleep", "lifestyle"); ("doc-caffeine", "lifestyle");
                 ("doc-nap", "lifestyle")])).
Proof.
  split; [|split; [|split; [|split]]].
  - intros a b Hq Hu Hl. unfold searchCacheKey. rewrite Hq, Hu, Hl. reflexivity.
  - intros a b Hu Hl. unfold searchCacheKey. rewrite Hu, Hl. split.
    + intros H. apply append_inj_l in H. apply append_inj_r in H. exact H.
    + intros H. rewrite H. reflexivity.
  - intros a b Hq Hl. unfold searchCacheKey. rewrite Hq, Hl. split.
    + intros H. do 3 apply append_inj_l in H. apply append_inj_r in H. exact H.
    + intros H. rewrite H. reflexivity.
  - intros a b Hq Hu. unfold searchCacheKey. rewrite Hq, Hu. split.
    + intros H. do 5 apply append_inj_l in H. apply limit_text_inj, H.
    + intros H. rewrite H. reflexivity.
  - vm_compute. repeat split; try reflexivity; try discriminate.
    + eexists. split; reflexivity.
    + eexists. repeat split; reflexivity.
Qed.

(** [generateCacheKey], which nothing calls, does hash the filters.  It
    depends on its three inputs through the 32-bit hash of their
    concatenation only: two calls derive the same key exactly when the
    absolute values of the two hashes agree. *)
Lemma generateCacheKey_hash q f u q' f' u' :
  generateCacheKey q f u = generateCacheKey q' f' u' <->
  Z.abs (hash_from 0 (q ++ filterString f ++ userString u)) =
  Z.abs (hash_from 0 (q' ++ filterString f' ++ userString u')).
Proof.
  unfold generateCacheKey, simpleHash. split.
  - intros H. apply append_inj_l in H. apply toString36_inj in H; auto; apply Z.abs_nonneg.
  - intros H. rewrite H. reflexivity.
Qed.

(** Two query texts of the same hash. *)
Example generateCacheKey_collision :
  generateCacheKey "Aa" None None = generateCacheKey "BB" None None /\
  generateCacheKey "Aa" None None = "rag:search:1mo"%string.
Proof. repeat split; reflexivity. Qed.

(** The keys of the two sample queries, and of a query without user and
    limit: the absent fields print as "undefined". *)
Example searchCacheKey_sample :
  searchCacheKey sample_query = "search:sleep:u1:3"%string /\
  searchCacheKey medication_query = "search:sleep:u1:3"%string /\
  searchCacheKey
    {| query := "sleep"; userId := None; q_context := None;
       filters := Some {| categories := Some ["lifestyle"]; evidenceLevels := None;
                          sources_filter := None |};
       limit := None; threshold := None |}
  = "search:sleep:undefined:undefined"%string.
Proof. repeat split; reflexivity. Qed.

End SearchKey.

(** ** EmbeddingService: chunking *)

Section Chunking.
Import EmbeddingService JsString.

Lemma length_append (x y : string) :
  String.length (x ++ y) = (String.length x + String.length y)%nat.
Proof. induction x; simpl; [reflexivity | rewrite IHx; reflexivity]. Qed.

Lemma trimStart_length s : (String.length (trimStart s) <= String.length s)%nat.
Proof. induction s as [|c r IH]; simpl; [lia|]. destruct (is_space c); simpl; lia. Qed.

Lemma trimEnd_length s : (String.length (trimEnd s) <= String.length s)%nat.
Proof.
  induction s as [|c r IH]; simpl; [lia|].
  destruct (trimEnd r); [destruct (is_space c)|]; simpl in *; lia.
Qed.

Lemma trim_length s : (String.length (trim s) <= String.length s)%nat.
Proof.
  unfold trim. etransitivity; [apply trimEnd_length | apply trimStart_length].
Qed.

(** The loop keeps every chunk, and the one being built, within two
    characters of the bound: the separator is not counted by the test. *)
Lemma chunk_step_bound maxChunkSize chunks current sentence :
  (Z.of_nat (String.length (trim sentence)) <= maxChunkSize)%Z ->
  Forall (fun c => (Z.of_nat (String.length c) <= maxChunkSize + 2)%Z) chunks ->
  (current = EmptyString \/ Z.of_nat (String.length current) <= maxChunkSize + 2)%Z ->
  let '(chunks', current') := chunk_step maxChunkSize (chunks, current) sentence in
  Forall (fun c => (Z.of_nat (String.length c) <= maxChunkSize + 2)%Z) chunks' /\
  (current' = EmptyString \/ Z.of_nat (String.length current') <= maxChunkSize + 2)%Z.
Proof.
  intros Hs Hc Hcur. unfold chunk_step.
  destruct (_ >? _)%Z eqn:E.
  - split; [|right; lia].
    destruct (0 <? String.length current)%nat eqn:L; [|exact Hc].
    apply Forall_app. split; [exact Hc|]. constructor; [|constructor].
    pose proof (trim_length current). destruct Hcur as [->|Hcur]; [discriminate L | lia].
  - split; [exact Hc|]. right. rewrite Z.gtb_ltb in E. apply Z.ltb_ge in E.
    rewrite !length_append. destruct (0 <? String.length current)%nat; simpl; lia.
Qed.

Lemma chunk_fold_bound maxChunkSize sentences : forall chunks current,
  Forall (fun s => (Z.of_nat (String.length (trim s)) <= maxChunkSize)%Z) sentences ->
  Forall (fun c => (Z.of_nat (String.length c) <= maxChunkSize + 2)%Z) chunks ->
  (current = EmptyString \/ Z.of_nat (String.length current) <= maxChunkSize + 2)%Z ->
  let '(chunks', current') := fold_left (chunk_step maxChunkSize) sentences (chunks, current) in
  Forall (fun c => (Z.of_nat (String.length c) <= maxChunkSize + 2)%Z) chunks' /\
  (current' = EmptyString \/ Z.of_nat (String.length current') <= maxChunkSize + 2)%Z.
Proof.
  induction sentences as [|s r IH]; intros chunks current Hs Hc Hcur.
  - simpl. split; assumption.
  - change (fold_left (chunk_step maxChunkSize) (s :: r) (chunks, current))
      with (fold_left (chunk_step maxChunkSize) r (chunk_step maxChunkSize (chunks, current) s)).
    apply Forall_cons_iff in Hs as [Hs Hr].
    pose proof (chunk_step_bound maxChunkSize chunks current s Hs Hc Hcur) as H.
    destruct (chunk_step maxChunkSize (chunks, current) s) as [chunks' current'].
    destruct H as [H1 H2]. apply IH; assumption.
Qed.

(** When no sentence is longer than [maxChunkSize], no chunk is longer than
    [maxChunkSize + 2]. *)
Theorem chunkDocument_bound (content : string) (maxChunkSize overlapSize : Z) :
  Forall (fun s => (Z.of_nat (String.length (trim s)) <= maxChunkSize)%Z)
         (sentences_of content) ->
  Forall (fun c => (Z.of_nat (String.length c) <= maxChunkSize + 2)%Z)
         (chunkDocument content maxChunkSize overlapSize).
Proof.
  intros Hs. unfold chunkDocument.
  pose proof (chunk_fold_bound maxChunkSize (sentences_of content) [] EmptyString Hs
                (List.Forall_nil _) (or_introl eq_refl)) as H.
  destruct (fold_left _ _ _) as [chunks current]. destruct H as [H1 H2].
  destruct (0 <? String.length current)%nat eqn:L; [|exact H1].
  apply Forall_app. split; [exact H1|]. constructor; [|constructor].
  pose proof (trim_length current). destruct H2 as [->|H2]; [discriminate L | lia].
Qed.

Lemma chunkDocument_bound_witness :
  Forall (fun c => (Z.of_nat (String.length c) <= 18 + 2)%Z)
         (chunkDocument "Sleep well. Eat well." 18 200).
Proof.
  apply (chunkDocument_bound "Sleep well. Eat well." 18 200).
  repeat constructor; vm_compute; discriminate.
Defined.

(** C9: two sentences of 10 and 8 characters and a bound of 18.  No
    sentence is longer than the bound, the test [10 + 8 > 18] fails, and the
    one chunk that is emitted has the 2 characters of the separator on top:
    20 characters. *)
Theorem chunk_exceeds_maxChunkSize :
  sentences_of "Sleep well. Eat well." = ["Sleep well"; " Eat well"] /\
  Forall (fun s => (Z.of_nat (String.length (trim s)) <= 18)%Z)
         (sentences_of "Sleep well. Eat well.") /\
  chunkDocument "Sleep well. Eat well." 18 200 = ["Sleep well. Eat well"] /\
  String.length "Sleep well. Eat well" = 20%nat.
Proof.
  split; [reflexivity|]. split; [|split; reflexivity].
  repeat constructor; vm_compute; discriminate.
Qed.

(** The chunking scenario of the specification: the third sentence would
    overflow, so two chunks are emitted. *)
Example chunkDocument_scenario :
  chunkDocument "One two. Three four! Five six seven?" 20 200
  = ["One two. Three four"; "Five six seven"].
Proof. reflexivity. Qed.

End Chunking.

(** ** RAGService: what an exchange leaves in the collection *)

Section Frames.
Import RAGService JsString.

Lemma same_but_cache_refl w : same_but_cache w w.
Proof. repeat split. Qed.

Lemma same_but_cache_trans w1 w2 w3 :
  same_but_cache w1 w2 -> same_but_cache w2 w3 -> same_but_cache w1 w3.
Proof.
  intros (A1 & A2 & A3 & A4 & A5) (B1 & B2 & B3 & B4 & B5).
  repeat split; congruence.
Qed.

(** A search always returns a response, and touches the cache and the clock only. *)
Lemma searchDocuments_frame env q w :
  exists r w', searchDocuments env q w = (Ok r, w') /\ same_but_cache w w'.
Proof.
  unfold searchDocuments, CacheService.get, CacheService.set. run_monad.
  destruct (redis w !! searchCacheKey q) as [e|].
  - destruct (ttl e =? 0)%Z; simpl.
    + destruct (hybridSearch_frame env (query q) (filters q) (limit q)
                  (set_redis (base.delete (searchCacheKey q)) (set_ticks S w)))
        as (l & k & E).
      rewrite E. simpl. eexists _, _. split; [reflexivity | repeat split].
    + destruct (clock env (S (ticks w)) - timestamp e <? ttl e * 1000)%Z; simpl.
      * eexists _, _. split; [reflexivity | repeat split].
      * destruct (hybridSearch_frame env (query q) (filters q) (limit q)
                    (set_redis (base.delete (searchCacheKey q)) (set_ticks S (set_ticks S w))))
          as (l & k & E).
        rewrite E. simpl. eexists _, _. split; [reflexivity | repeat split].
  - destruct (hybridSearch_frame env (query q) (filters q) (limit q) (set_ticks S w))
      as (l & k & E).
    rewrite E. simpl. eexists _, _. split; [reflexivity | repeat split].
Qed.

Lemma searchUserRelevantDocuments_frame env q userId c w :
  exists l w', searchUserRelevantDocuments env q userId c w = (Ok l, w') /\
               same_but_cache w w'.
Proof.
  unfold searchUserRelevantDocuments. run_monad.
  destruct (find_user_documents env userId) as [docs|e].
  - match goal with |- context [searchDocuments env ?q0 w] =>
      destruct (searchDocuments_frame env q0 w) as (r & w' & E & F) end.
    rewrite E.
    destruct (combineUserAndGeneralResults env q _ (results r)) as [l|e];
      eexists _, _; (split; [reflexivity | exact F]).
  - eexists _, _. split; [reflexivity | apply same_but_cache_refl].
Qed.

(** A generation leaves the conversations alone. *)
Lemma callMistralAPI_conversations env prompt n g w :
  conversations (snd (MistralApiService.callMistralAPI env prompt n g w)) = conversations w.
Proof.
  unfold MistralApiService.callMistralAPI, MistralApiService.call_begin,
    MistralApiService.settle, MistralApiService.call_end, MistralApiService.call_catch,
    MistralApiService.forget.
  destruct (MistralApiService.useFallback env); [reflexivity|].
  destruct (MistralApiService.registered g); run_monad;
    destruct (bool_decide _); simpl;
    try destruct (MistralApiService.is_abort _); simpl; try reflexivity;
    destruct (http_post env prompt) as [st data|error]; simpl;
    try destruct (MistralApiService.has_choices data); simpl;
    try destruct (MistralApiService.is_abort _); reflexivity.
Qed.

(** An exchange writes the conversation at most once, with the two turns
    appended and the [messageCount] it was loaded with. *)
Lemma exchange_writes env q userId g c w :
  let w' := snd (exchange env q userId g c w) in
  conversations w' = conversations w \/
  exists u a t,
    conversations w' =
    <[sessionId (doc c) :=
        {| cc_userId := cc_userId (doc c); sessionId := sessionId (doc c);
           messages := (messages (doc c) ++ [u]) ++ [a];
           cc_context := cc_context (doc c); lastUpdated := t;
           messageCount := messageCount (doc c) |}]> (conversations w) /\
    role u = "user" /\ msg_content u = q /\ role a = "assistant" /\
    isNew c && bool_decide (is_Some (conversations w !! sessionId (doc c))) = false.
Proof.
  unfold exchange, bind, Date_now. cbv beta iota zeta.
  match goal with |- context [searchUserRelevantDocuments env q userId ?c0 ?w0] =>
    destruct (searchUserRelevantDocuments_frame env q userId c0 w0)
      as (l & w1 & E1 & (F1 & _)) end.
  rewrite E1. simpl in F1. cbv beta iota zeta.
  match goal with |- context [MistralApiService.callMistralAPI env ?p 1000 g w1] =>
    pose proof (callMistralAPI_conversations env p 1000 g w1) as F2;
    destruct (MistralApiService.callMistralAPI env p 1000 g w1) as [[response|e] w2] end;
    simpl in F2; cbv beta iota zeta; [|left; simpl; congruence].
  destruct (first_choice response) as [choice|]; [|left; simpl; congruence].
  unfold saveConversationContext, save, bind, Date_now, gets, modify, throw, ret.
  cbv beta iota zeta. simpl. rewrite F2, F1.
  destruct (isNew c && bool_decide _) eqn:T; cbv beta iota zeta; simpl;
    [left; congruence|].
  right. eexists _, _, _. split; [rewrite F2, F1; reflexivity|]. repeat split.
Qed.



End Frames.

(** ** EmbeddingService: the similarity is symmetric *)

Section Symmetry.
Import EmbeddingService.
Local Open Scope float_scope.

Lemma SFmul_comm x y : SF64mul x y = SF64mul y x.
Proof.
  unfold SF64mul, SFmul.
  destruct x as [sx|sx| |sx mx ex], y as [sy|sy| |sy my ey]; try reflexivity;
    rewrite (xorb_comm sx sy); try reflexivity.
  rewrite (Pos.mul_comm mx my), (Z.add_comm ex ey). reflexivity.
Qed.

Lemma float_mul_comm (x y : float) : x * y = y * x.
Proof. apply FloatAxioms.Prim2SF_inj. rewrite !FloatAxioms.mul_spec. apply SFmul_comm. Qed.

(** The two dot products add the same terms in the same order. *)
Lemma dot_from_comm a : forall b pa pb sum,
  length a = length b -> length pa = length pb ->
  dot_from (length pb) a (pb ++ b) sum = dot_from (length pa) b (pa ++ a) sum.
Proof.
  induction a as [|x a IH]; intros [|y b] pa pb sum L P; try discriminate; [reflexivity|].
  simpl.
  rewrite (nth_middle pb b y nan).
  replace (nth (length pa) (pa ++ x :: a) nan) with x by (symmetry; apply nth_middle).
  rewrite (float_mul_comm y x).
  replace (pb ++ y :: b) with ((pb ++ [y]) ++ b) by (rewrite <- List.app_assoc; reflexivity).
  replace (pa ++ x :: a) with ((pa ++ [x]) ++ a) by (rewrite <- List.app_assoc; reflexivity).
  replace (S (length pb)) with (length (pb ++ [y])) by (rewrite List.length_app; simpl; lia).
  replace (S (length pa)) with (length (pa ++ [x])) by (rewrite List.length_app; simpl; lia).
  apply IH; [simpl in L; lia | rewrite !List.length_app; simpl; lia].
Qed.

(** [calculateSimilarity] gives the same number, bit for bit, whichever of
    the two vectors comes first, and it throws exactly when their lengths
    differ. *)
Theorem calculateSimilarity_symmetric (a b : list number) :
  calculateSimilarity a b = calculateSimilarity b a /\
  (length a <> length b <->
   calculateSimilarity a b = Throw (new_Error "Embedding dimensions must match")).
Proof.
  unfold calculateSimilarity.
  destruct (length a =? length b)%nat eqn:E.
  - apply Nat.eqb_eq in E. rewrite <- E, Nat.eqb_refl. simpl. split.
    + f_equal. f_equal.
      * apply (dot_from_comm a b [] [] 0 E eq_refl).
      * apply float_mul_comm.
    + split; [congruence | discriminate].
  - rewrite Nat.eqb_sym, E. simpl. split; [reflexivity|].
    apply Nat.eqb_neq in E. split; [reflexivity | intros _; exact E].
Qed.

End Symmetry.
(** ** EmbeddingService: the chunks hold every sentence *)

Section ChunkGroups.
Import EmbeddingService JsString.
Local Open Scope string_scope.

(** A string that [trim] leaves as it is, and that is not empty. *)
Local Abbreviation tidy s :=
  (s%string <> EmptyString /\ trimStart s%string = s%string /\ trimEnd s%string = s%string)
  (only parsing).

Lemma trimEnd_head c r :
  trimEnd (String c r) = EmptyString \/ exists r', trimEnd (String c r) = String c r'.
Proof.
  simpl. destruct (trimEnd r); [destruct (is_space c)|]; eauto.
Qed.

Lemma trimEnd_idem s : trimEnd (trimEnd s) = trimEnd s.
Proof.
  induction s as [|c r IH]; [reflexivity|]. simpl.
  destruct (trimEnd r) as [|c' r'] eqn:E.
  - destruct (is_space c) eqn:S; [reflexivity|]. simpl. rewrite S. reflexivity.
  - change (trimEnd (String c (String c' r'))) with
      (match trimEnd (String c' r') with
       | EmptyString => if is_space c then EmptyString else String c EmptyString
       | r0 => String c r0
       end).
    rewrite IH. reflexivity.
Qed.

Lemma trimStart_fixed s : trimStart (trimStart s) = trimStart s.
Proof.
  induction s as [|c r IH]; [reflexivity|]. simpl.
  destruct (is_space c) eqn:S; [exact IH|]. simpl. rewrite S. reflexivity.
Qed.

Lemma trimStart_head s :
  trimStart s = EmptyString \/
  exists c r, trimStart s = String c r /\ is_space c = false.
Proof.
  induction s as [|c r IH]; [left; reflexivity|]. simpl.
  destruct (is_space c) eqn:S; [exact IH|]. right. eauto.
Qed.

Lemma tidy_trim s : trim s <> EmptyString -> tidy (trim s).
Proof.
  intros N. split; [exact N|]. unfold trim in *. split; [|apply trimEnd_idem].
  destruct (trimStart_head s) as [E|(c & r & E & S)]; rewrite E in *; [destruct N; reflexivity|].
  destruct (trimEnd_head c r) as [Z|[r' Z]]; rewrite Z in *; [destruct N; reflexivity|].
  simpl. rewrite S. reflexivity.
Qed.

Lemma trimStart_app a b :
  a <> EmptyString -> trimStart a = a -> trimStart (a ++ b) = a ++ b.
Proof.
  destruct a as [|c r]; [congruence|]. intros _. simpl.
  destruct (is_space c); [|reflexivity].
  intros H. pose proof (trimStart_length r) as L. rewrite H in L. simpl in L. lia.
Qed.

Lemma trimEnd_app a b :
  trimEnd b <> EmptyString -> trimEnd (a ++ b) = a ++ trimEnd b.
Proof.
  intros N. induction a as [|c a IH]; [reflexivity|].
  change (trimEnd (String c a ++ b)) with
    (match trimEnd (a ++ b) with
     | EmptyString => if is_space c then EmptyString else String c EmptyString
     | r0 => String c r0
     end).
  change (String c a ++ trimEnd b) with (String c (a ++ trimEnd b)).
  rewrite IH.
  assert (N' : a ++ trimEnd b <> EmptyString)
    by (destruct a; [exact N | discriminate]).
  destruct (a ++ trimEnd b); [congruence | reflexivity].
Qed.

Lemma tidy_app a m b : tidy a -> tidy b -> tidy (a ++ m ++ b).
Proof.
  intros (Na & Sa & _) (Nb & _ & Eb). split; [|split].
  - destruct a; [congruence | discriminate].
  - apply trimStart_app; assumption.
  - assert (E1 : trimEnd (m ++ b) = m ++ b)
      by (rewrite trimEnd_app; rewrite Eb; [reflexivity | exact Nb]).
    rewrite trimEnd_app; rewrite E1; [reflexivity|].
    destruct m; [exact Nb | discriminate].
Qed.

Lemma tidy_join g :
  g <> [] -> Forall (fun s => tidy s) g -> tidy (join ". " g).
Proof.
  induction g as [|x [|y r] IH]; intros N F; [congruence| |].
  - apply Forall_inv in F. exact F.
  - change (join ". " (x :: y :: r)) with (x ++ ". " ++ join ". " (y :: r)).
    apply tidy_app; [exact (Forall_inv F)|].
    apply IH; [discriminate | exact (Forall_inv_tail F)].
Qed.

Lemma append_assoc (a b c : string) : ((a ++ b) ++ c = a ++ b ++ c)%string.
Proof.
  induction a as [|x a IH]; [reflexivity|].
  change (String x ((a ++ b) ++ c) = String x (a ++ b ++ c)). rewrite IH. reflexivity.
Qed.

Lemma join_snoc sep g t :
  g <> [] -> join sep (g ++ [t]) = join sep g ++ sep ++ t.
Proof.
  induction g as [|x [|y r] IH]; intros N; [congruence|reflexivity|].
  change (join sep ((x :: y :: r) ++ [t])) with (x ++ sep ++ join sep ((y :: r) ++ [t])).
  rewrite IH by discriminate.
  change (join sep (x :: y :: r)) with (x ++ sep ++ join sep (y :: r)).
  rewrite !append_assoc. reflexivity.
Qed.

Lemma tidy_trim_id s : tidy s -> trim s = s.
Proof. intros (_ & S & E). unfold trim. rewrite S. exact E. Qed.

Lemma tidy_length s : tidy s -> (0 <? String.length s)%nat = true.
Proof. intros (N & _). destruct s; [congruence | reflexivity]. Qed.

(** The loop keeps the sentences it has seen, in order, in groups: one
    group per chunk, and the group of the chunk in the making. *)
Lemma chunk_fold_groups maxChunkSize sentences : forall gs g,
  Forall (fun s => trim s <> EmptyString) sentences ->
  Forall (fun g => g <> []) gs -> Forall (fun s => tidy s) g ->
  exists gs' g',
    fold_left (chunk_step maxChunkSize) sentences (List.map (join ". ") gs, join ". " g)
    = (List.map (join ". ") gs', join ". " g') /\
    Forall (fun g => g <> []) gs' /\ Forall (fun s => tidy s) g' /\
    (concat gs' ++ g' = concat gs ++ g ++ List.map trim sentences)%list.
Proof.
  induction sentences as [|s r IH]; intros gs g Hs Hgs Hg.
  - exists gs, g. simpl. rewrite List.app_nil_r. auto.
  - apply Forall_cons_iff in Hs as [Hs Hr].
    pose proof (tidy_trim s Hs) as Ts.
    change (fold_left (chunk_step maxChunkSize) (s :: r) (List.map (join ". ") gs, join ". " g))
      with (fold_left (chunk_step maxChunkSize) r
              (chunk_step maxChunkSize (List.map (join ". ") gs, join ". " g) s)).
    assert (Step : exists gs1 g1,
      chunk_step maxChunkSize (List.map (join ". ") gs, join ". " g) s
      = (List.map (join ". ") gs1, join ". " g1) /\
      Forall (fun g => g <> []) gs1 /\ Forall (fun s => tidy s) g1 /\
      (concat gs1 ++ g1 = concat gs ++ g ++ [trim s])%list).
    { unfold chunk_step.
      destruct (_ >? _)%Z.
      - destruct g as [|x g0].
        + exists gs, [trim s]. simpl. repeat split; auto.
        + pose proof (tidy_join (x :: g0) ltac:(discriminate) Hg) as Tj.
          rewrite (tidy_length _ Tj), (tidy_trim_id _ Tj).
          exists (gs ++ [x :: g0])%list, [trim s].
          rewrite List.map_app, concat_app. simpl. rewrite List.app_nil_r, <- List.app_assoc.
          repeat split; auto.
          apply Forall_app. split; [exact Hgs|]. constructor; [discriminate|constructor].
      - destruct g as [|x g0].
        + exists gs, [trim s]. simpl. repeat split; auto.
        + pose proof (tidy_join (x :: g0) ltac:(discriminate) Hg) as Tj.
          rewrite (tidy_length _ Tj).
          exists gs, ((x :: g0) ++ [trim s])%list.
          rewrite join_snoc by discriminate. repeat split; auto.
          apply Forall_app. split; [exact Hg|]. constructor; [exact Ts|constructor]. }
    destruct Step as (gs1 & g1 & -> & Hgs1 & Hg1 & E1).
    destruct (IH gs1 g1 Hr Hgs1 Hg1) as (gs' & g' & E & Hgs' & Hg' & C).
    exists gs', g'. split; [exact E|]. split; [exact Hgs'|]. split; [exact Hg'|].
    rewrite C. simpl. rewrite !List.app_assoc. rewrite E1, <- !List.app_assoc. reflexivity.
Qed.

(** The chunks are the sentences of the text that are not blank, trimmed,
    in their order, each chunk a group of them joined with ". ": no
    sentence is lost, repeated or moved, no chunk is empty, and neither
    size takes part in which sentences appear. *)
Theorem chunkDocument_keeps_sentences (content : string) (maxChunkSize overlapSize : Z) :
  exists groups,
    chunkDocument content maxChunkSize overlapSize = List.map (join ". ") groups /\
    concat groups = List.map trim (sentences_of content) /\
    Forall (fun g => g <> []) groups.
Proof.
  unfold chunkDocument.
  destruct (chunk_fold_groups maxChunkSize (sentences_of content) [] [])
    as (gs & g & E & Hgs & Hg & C); [|constructor|constructor|].
  { unfold sentences_of. apply List.Forall_forall. intros s Hs.
    apply filter_In in Hs as [_ Hs]. destruct (trim s); [discriminate Hs | discriminate]. }
  change (List.map (join ". ") [], join ". " []) with (@nil string, EmptyString) in E.
  rewrite E. simpl in C. destruct g as [|x g0].
  - exists gs. rewrite List.app_nil_r in C. simpl. auto.
  - pose proof (tidy_join (x :: g0) ltac:(discriminate) Hg) as Tj.
    rewrite (tidy_length _ Tj), (tidy_trim_id _ Tj).
    exists (gs ++ [x :: g0])%list. rewrite List.map_app, concat_app. simpl.
    rewrite List.app_nil_r. split; [reflexivity|]. split; [exact C|].
    apply Forall_app. split; [exact Hgs|]. constructor; [discriminate|constructor].
Qed.

End ChunkGroups.
(** ** VectorSearchService: what the searches return, and when they fail *)

Section VectorSearch.
Import VectorSearchService EmbeddingService JsString.
Local Open Scope float_scope.

Lemma slice0_length {A} (l : list A) n :
  (0 <= n)%Z -> (length (slice0 l n) <= Z.to_nat n)%nat.
Proof.
  intros H. unfold slice0. destruct (n <? 0)%Z eqn:E; [apply Z.ltb_lt in E; lia|].
  apply firstn_le_length.
Qed.

Lemma StronglySorted_firstn {A} (R : A -> A -> Prop) n : forall l,
  StronglySorted R l -> StronglySorted R (firstn n l).
Proof.
  induction n as [|n IH]; intros l H; [constructor|].
  destruct l as [|x l]; [constructor|]. simpl.
  inversion H as [|? ? S F]; subst. constructor; [apply IH, S|].
  apply List.Forall_forall. intros y Hy. rewrite List.Forall_forall in F.
  apply F. rewrite <- (firstn_skipn n l). apply in_or_app. left. exact Hy.
Qed.

Lemma descending_slice0 l n : descending l -> descending (slice0 l n).
Proof. unfold descending, slice0. destruct (n <? 0)%Z; apply StronglySorted_firstn. Qed.

(** The candidates that the loop keeps: each is built from a document that
    has an embedding, with the similarity of that embedding as its score. *)
Lemma rank_candidates_kept q qe th documents : forall results res,
  rank_candidates q qe th documents results = Ok res ->
  exists kept,
    res = results ++ kept /\
    (length kept <= length documents)%nat /\
    Forall (fun r => exists d e,
              In d documents /\ embedding d = Some e /\
              calculateSimilarity qe e = Ok (score r) /\
              (th <=? score r) = true /\
              r = {| document := snapshot d; score := score r;
                     relevance := calculateRelevance d q;
                     sr_context := extractContext (content d) q |}) kept.
Proof.
  induction documents as [|d r IH]; intros results res H; simpl in H.
  - injection H as <-. exists []. rewrite List.app_nil_r.
    split; [reflexivity|]. split; [simpl; lia | constructor].
  - assert (Skip : rank_candidates q qe th r results = Ok res ->
      exists kept, res = results ++ kept /\
        (length kept <= length (d :: r))%nat /\
        Forall (fun r0 => exists d0 e,
                  In d0 (d :: r) /\ embedding d0 = Some e /\
                  calculateSimilarity qe e = Ok (score r0) /\
                  (th <=? score r0) = true /\
                  r0 = {| document := snapshot d0; score := score r0;
                          relevance := calculateRelevance d0 q;
                          sr_context := extractContext (content d0) q |}) kept).
    { intros H'. destruct (IH _ _ H') as (kept & E & L & F).
      exists kept. split; [exact E|]. split; [simpl; lia|].
      eapply List.Forall_impl; [|exact F].
      intros x (d0 & e0 & I & R). exists d0, e0. split; [right; exact I | exact R]. }
    destruct (embedding d) as [e|] eqn:Ee; [|apply Skip, H].
    destruct (calculateSimilarity qe e) as [sim|err] eqn:Es; [|discriminate].
    destruct (th <=? sim) eqn:L; [|apply Skip, H].
    destruct (IH _ _ H) as (kept & E & Len & F).
    eexists (_ :: kept). split; [rewrite E, <- List.app_assoc; reflexivity|].
    split; [simpl; lia|]. constructor.
    + exists d, e. simpl. auto.
    + eapply List.Forall_impl; [|exact F].
      intros x (d0 & e0 & I & R). exists d0, e0. split; [right; exact I | exact R].
Qed.

(** Every result of the vector search comes from a stored document that
    has an embedding: its score is the similarity of that embedding to the
    query's, and it is at least the threshold (so it is not NaN).  With a
    limit that is not negative there are at most [limit] results, and when
    the threshold is not negative and every stored document has a keyword
    they are in descending order of the combined score. *)
Theorem vector_search_results (env : Env) (q : string) (filters : option SearchFilters)
        (limit : option Z) (threshold : number) :
  let n := default_limit limit in
  let vs := searchSimilarDocuments env q filters limit threshold in
  Forall (fun r => exists documents d e,
            find_documents env (filters_query None filters true) (JsNumber.of_Z (n * 2))
              = Ok documents /\
            In d documents /\ embedding d = Some e /\
            calculateSimilarity (generateEmbedding env q) e = Ok (score r) /\
            (threshold <=? score r) = true /\
            r = {| document := snapshot d; score := score r;
                   relevance := calculateRelevance d q;
                   sr_context := extractContext (content d) q |}) vs /\
  ((0 <= n)%Z -> (length vs <= Z.to_nat n)%nat) /\
  (nonneg threshold -> store_has_keywords env -> descending vs).
Proof.
  intros n vs. subst vs. unfold searchSimilarDocuments. fold n.
  destruct (find_documents env _ _) as [documents|e] eqn:F;
    [|split; [constructor|split; [simpl; lia|constructor]]].
  destruct (rank_candidates q (generateEmbedding env q) threshold documents [])
    as [res|e] eqn:R; [|split; [constructor|split; [simpl; lia|constructor]]].
  destruct (rank_candidates_kept _ _ _ _ _ _ R) as (kept & E & _ & P).
  simpl in E. subst res. split; [|split].
  - apply List.Forall_forall. intros r Hr. apply slice0_incl, sort_In in Hr.
    rewrite List.Forall_forall in P. destruct (P r Hr) as (d & e & H).
    exists documents, d, e. split; [reflexivity | exact H].
  - apply slice0_length.
  - intros T K. apply descending_slice0, sort_descending.
    apply List.Forall_forall. intros r Hr.
    rewrite List.Forall_forall in P. destruct (P r Hr) as (d & e & Hd & _ & _ & S & ->).
    pose proof (K _ _ _ F) as Kd. rewrite List.Forall_forall in Kd.
    split; simpl.
    + unfold nonneg. eapply leb_trans; [exact T | exact S].
    + apply calculateRelevance_unit, Kd, Hd.
Qed.

Lemma vector_search_results_witness :
  let vs := searchSimilarDocuments sample_env "sleep" None (Some 3%Z) 0.5 in
  (length vs <= Z.to_nat 3)%nat /\ descending vs.
Proof.
  destruct (vector_search_results sample_env "sleep" None (Some 3%Z) 0.5) as (_ & L & D).
  split; [apply L; simpl; lia|]. apply D; [reflexivity|].
  intros mq k documents H. simpl in H.
  destruct (mq_text mq); injection H as <-; repeat constructor; discriminate.
Defined.

(** The loop stops at the first embedding whose length differs from the
    query's. *)
Lemma rank_candidates_throws q qe th documents d e :
  In d documents -> embedding d = Some e -> length e <> length qe ->
  forall results, exists err, rank_candidates q qe th documents results = Throw err.
Proof.
  intros Hin He Hlen. induction documents as [|d0 r IH]; [destruct Hin|].
  intros results. simpl.
  destruct Hin as [->|Hin].
  - rewrite He. unfold calculateSimilarity.
    destruct (length qe =? length e)%nat eqn:L;
      [apply Nat.eqb_eq in L; congruence|]. simpl. eauto.
  - destruct (embedding d0) as [e0|]; [|apply IH, Hin].
    destruct (calculateSimilarity qe e0) as [sim|err]; [|eauto].
    destruct (th <=? sim); apply IH, Hin.
Qed.

(** One stored embedding of the wrong length empties the vector search:
    the exception of [calculateSimilarity] ends the loop, and the results
    gathered for the other documents are dropped with it. *)
Theorem vector_search_all_or_nothing (env : Env) (q : string)
        (filters : option SearchFilters) (limit : option Z) (threshold : number)
        (documents : list RAGWellnessDocument) (d : RAGWellnessDocument) (e : list number) :
  find_documents env (filters_query None filters true)
                 (JsNumber.of_Z (default_limit limit * 2)) = Ok documents ->
  In d documents -> embedding d = Some e ->
  length e <> length (generateEmbedding env q) ->
  searchSimilarDocuments env q filters limit threshold = [].
Proof.
  intros F Hin He Hlen. unfold searchSimilarDocuments. rewrite F.
  destruct (rank_candidates_throws q (generateEmbedding env q) threshold documents d e
              Hin He Hlen []) as [err ->].
  reflexivity.
Qed.

Lemma vector_search_all_or_nothing_witness :
  searchSimilarDocuments ragged_env "sleep" None (Some 3%Z) 0.5 = [] /\
  searchSimilarDocuments sample_env "sleep" None (Some 3%Z) 0.5 <> [].
Proof.
  split.
  - apply (vector_search_all_or_nothing ragged_env "sleep" None (Some 3%Z) 0.5
             [sleep_document; ragged_document] ragged_document [1; 0; 0]).
    + reflexivity.
    + right. left. reflexivity.
    + reflexivity.
    + simpl. lia.
  - vm_compute. discriminate.
Defined.

(** [hybridSearch] always returns a list, of at most [limit] results when
    the limit is not negative.  Its two halves fail differently: when the
    text search fails the result is empty, whatever the vector search found;
    when the store fails the vector search, the result is the ranking of the
    text results alone. *)
Theorem hybridSearch_degrades (env : Env) (q : string) (filters : option SearchFilters)
        (limit : option Z) (w : World) :
  let n := default_limit limit in
  let run := hybridSearch env q filters limit w in
  (exists l, fst run = Ok l /\ ((0 <= n)%Z -> (length l <= Z.to_nat n)%nat)) /\
  (forall e, textSearch env q filters (Some n) = Throw e -> fst run = Ok []) /\
  (forall ts e,
     textSearch env q filters (Some n) = Ok ts ->
     find_documents env (filters_query None filters true) (JsNumber.of_Z (n * 2)) = Throw e ->
     List.NoDup (List.map (docId (clock env (ticks w))) ts) ->
     fst run = Ok (slice0 (JsNumber.sort byCombinedScore ts) n)).
Proof.
  intros n run. subst run. unfold hybridSearch, try_catch, bind, lift, Date_now, ret.
  fold n. split; [|split].
  - destruct (textSearch env q filters (Some n)) as [ts|e]; simpl.
    + eexists. split; [reflexivity|]. apply slice0_length.
    + exists []. split; [reflexivity|]. simpl. lia.
  - intros e ->. reflexivity.
  - intros ts e -> F N. simpl. unfold searchSimilarDocuments.
    change (default_limit (Some n)) with n. rewrite F.
    rewrite combineAndRerank_merged by (assumption || constructor).
    unfold merged_of. simpl.
    replace (List.filter (fun _ => true) ts) with ts; [reflexivity|].
    clear. induction ts as [|t ts IH]; simpl; [reflexivity | rewrite <- IH; reflexivity].
Qed.

Lemma hybridSearch_degrades_witness :
  fst (hybridSearch text_only_env "sleep" None (Some 3%Z) empty_world)
  = Ok (slice0 (JsNumber.sort byCombinedScore sample_text_results) 3).
Proof.
  destruct (hybridSearch_degrades text_only_env "sleep" None (Some 3%Z) empty_world)
    as (_ & _ & H).
  apply (H sample_text_results (new_Error "connection lost")); [reflexivity | reflexivity |].
  vm_compute. repeat (constructor; [simpl; intuition discriminate|]). constructor.
Defined.

End VectorSearch.
(** ** CacheService: entries and their time to live *)

Section CacheEntries.
Import CacheService.
Local Open Scope Z_scope.




End CacheEntries.
(** ** CacheService: the shape of a key *)

Section KeyShape.
Import CacheService JsString.
Local Open Scope Z_scope.

Lemma toInt32_range z : - 2 ^ 31 <= toInt32 z < 2 ^ 31.
Proof.
  unfold toInt32. pose proof (Z.mod_pos_bound (z + 2 ^ 31) (2 ^ 32) ltac:(lia)). lia.
Qed.

Lemma hash_from_range str : forall hash,
  - 2 ^ 31 <= hash < 2 ^ 31 -> - 2 ^ 31 <= hash_from hash str < 2 ^ 31.
Proof.
  induction str as [|c r IH]; intros hash H; simpl; [exact H|].
  apply IH. unfold hash_step. apply toInt32_range.
Qed.

Lemma digits36_shape fuel : forall n k,
  0 <= n < 36 ^ Z.of_nat (S k) ->
  (1 <= length (digits36 fuel n) <= S k)%nat /\
  Forall (fun c => exists d, 0 <= d < 36 /\ c = digit36 d) (digits36 fuel n).
Proof.
  induction fuel as [|fuel IH]; intros n k H; simpl.
  - split; [lia|]. constructor; [|constructor].
    exists (n mod 36). split; [apply Z.mod_pos_bound; lia | reflexivity].
  - destruct (n <? 36) eqn:E.
    + apply Z.ltb_lt in E. simpl. split; [lia|].
      constructor; [|constructor]. exists n. split; [lia | reflexivity].
    + apply Z.ltb_ge in E. destruct k as [|k].
      { change (36 ^ Z.of_nat 1) with 36 in H. lia. }
      destruct (IH (n / 36) k) as [L F].
      { split; [apply Z.div_pos; lia|].
        apply Z.div_lt_upper_bound; [lia|].
        replace (36 * 36 ^ Z.of_nat (S k)) with (36 ^ Z.of_nat (S (S k))); [lia|].
        rewrite (Nat2Z.inj_succ (S k)), Z.pow_succ_r by lia. reflexivity. }
      simpl. split; [lia|]. constructor; [|exact F].
      exists (n mod 36). split; [apply Z.mod_pos_bound; lia | reflexivity].
Qed.

Lemma length_string_of_list_ascii l :
  String.length (string_of_list_ascii l) = length l.
Proof. induction l as [|c l IH]; simpl; [reflexivity | rewrite IH; reflexivity]. Qed.

(** Whatever the query, the filters and the user, the key is "rag:search:"
    followed by one to six digits of base 36: at most 17 characters for an
    input of any length. *)
Theorem cache_key_shape (q : string) (f : option CacheFilters) (u : option string) :
  exists h,
    generateCacheKey q f u = ("rag:search:" ++ h)%string /\
    (1 <= String.length h <= 6)%nat /\
    Forall (fun c => exists d, 0 <= d < 36 /\ c = digit36 d) (list_ascii_of_string h).
Proof.
  unfold generateCacheKey, simpleHash, toString36.
  set (s := (q ++ filterString f ++ userString u)%string).
  pose proof (hash_from_range s 0 ltac:(lia)) as R.
  set (n := Z.abs (hash_from 0 s)) in *.
  assert (N : 0 <= n < 36 ^ Z.of_nat 6) by (change (36 ^ Z.of_nat 6) with 2176782336; lia).
  destruct (digits36_shape (Z.to_nat (Z.log2 n)) n 5 N) as [L F].
  eexists. split; [reflexivity|]. split.
  - rewrite length_string_of_list_ascii, length_rev. exact L.
  - rewrite list_ascii_of_string_of_list_ascii. apply Forall_rev. exact F.
Qed.

End KeyShape.
(** ** RAGService: what a search answers, and for whom *)

Section SearchAnswers.
Import RAGService.
Local Open Scope float_scope.

Lemma searchCacheKey_fields (a b : RAGQuery) :
  query a = query b -> userId a = userId b -> limit a = limit b ->
  searchCacheKey a = searchCacheKey b.
Proof. unfold searchCacheKey. intros -> -> ->. reflexivity. Qed.



(** The key of the cache holds the text of the query, the user and the
    limit only.  A search that differs from an earlier one in its filters,
    its context or its threshold is therefore answered, while the entry is
    fresh, with the response of the earlier one: the results that the
    filters of the earlier search selected. *)
Theorem cache_ignores_filters (env : Env) (a b : RAGQuery) (w : World) :
  query a = query b -> userId a = userId b -> limit a = limit b ->
  redis w !! searchCacheKey a = None ->
  let first := searchDocuments env a w in
  (forall r, fst first = Ok r -> Json.stable_response r = true) ->
  is_Some (CacheService.fresh_entry env (searchCacheKey b) (set_ticks S (snd first))) ->
  exists results elapsed,
    fst first = Ok (searchResponse a results elapsed) /\
    fst (searchDocuments env b (snd first)) = Ok (searchResponse a results elapsed).
Proof.
  intros Hq Hu Hl Hmiss first _ [r Hr]. subst first.
  pose proof (searchCacheKey_fields a b Hq Hu Hl) as K.
  destruct (searchDocuments_miss env a w Hmiss) as (l & elapsed & t & k & E).
  rewrite E in *. simpl in *. exists l, elapsed. split; [reflexivity|].
  apply searchDocuments_hit. rewrite Hr. f_equal.
  unfold CacheService.fresh_entry in Hr. simpl in Hr.
  rewrite <- K, lookup_insert_eq in Hr. simpl in Hr.
  destruct (_ <? _)%Z; [|discriminate]. congruence.
Qed.

Lemma cache_ignores_filters_witness :
  let b := {| query := "sleep"; userId := Some "u1"; q_context := None;
              filters := Some {| categories := Some ["medication"]; evidenceLevels := None;
                                 sources_filter := None |};
              limit := Some 3%Z; threshold := Some 0.9 |} in
  let first := searchDocuments sample_env sample_query empty_world in
  exists results elapsed,
    fst first = Ok (searchResponse sample_query results elapsed) /\
    fst (searchDocuments sample_env b (snd first)) = Ok (searchResponse sample_query results elapsed).
Proof.
  apply (cache_ignores_filters sample_env sample_query
           {| query := "sleep"; userId := Some "u1"; q_context := None;
              filters := Some {| categories := Some ["medication"]; evidenceLevels := None;
                                 sources_filter := None |};
              limit := Some 3%Z; threshold := Some 0.9 |} empty_world);
    try reflexivity.
  - intros r H. vm_compute in H. injection H as <-. vm_compute. reflexivity.
  - vm_compute. eexists. reflexivity.
Defined.

Lemma user_pool_snapshots env q (f : RAGWellnessDocument -> number * number * string)
      documents : forall combined,
  user_pool env q
    (List.map (fun d => {| document := VectorSearchService.snapshot d;
                           score := fst (fst (f d)); relevance := snd (fst (f d));
                           sr_context := snd (f d) |}) documents) combined
  = Ok combined.
Proof.
  induction documents as [|d r IH]; intros combined; simpl; [reflexivity | apply IH].
Qed.

(** [searchUserRelevantDocuments] loads the documents stored under the
    user's id and builds an entry for each, but none of these entries
    reaches the result: the snapshot in an entry has no embedding, and the
    loop over the entries skips it.  The result is made of the results of
    the general search (the search of the whole store, with limit 3), each
    with its score multiplied by 0.7: it is the first five of an arrangement
    of them, namely the ranking by the combined score when no combined
    score among them is NaN.  A document of the user is therefore returned
    exactly when the general search finds it.  When loading the user's
    documents fails the result is empty. *)
Theorem user_entries_never_returned (env : Env) (q u : string)
        (c : ConversationContext) (w : World) :
  let general := {| query := q; userId := Some u; q_context := Some (cc_context c);
                    filters := None; limit := Some 3%Z; threshold := None |} in
  match find_user_documents env u with
  | Ok _ =>
      exists r w' l,
        searchDocuments env general w = (Ok r, w') /\
        searchUserRelevantDocuments env q u c w = (Ok l, w') /\
        (length l <= 5)%nat /\
        (exists p, Permutation p (List.map discount (results r)) /\ l = firstn 5 p) /\
        (Forall (fun x => is_nan (VectorSearchService.combinedScore (discount x)) = false)
                (results r) ->
         l = firstn 5 (JsNumber.sort VectorSearchService.byCombinedScore
                         (List.map discount (results r))))
  | Throw _ => searchUserRelevantDocuments env q u c w = (Ok [], w)
  end.
Proof.
  intros general. unfold searchUserRelevantDocuments, try_catch, bind, lift.
  destruct (find_user_documents env u) as [documents|e]; [|reflexivity].
  fold general.
  destruct (searchDocuments_frame env general w) as (r & w' & E & _).
  exists r, w'. rewrite E.
  unfold combineUserAndGeneralResults.
  rewrite (user_pool_snapshots env q
             (fun d => (calculateUserDocumentRelevance d q c, 0.8,
                        ("User document: " ++ title d)%string))).
  eexists. split; [reflexivity|]. split; [reflexivity|].
  change (slice0 ?x 5) with (firstn 5 x). simpl app.
  split; [apply firstn_le_length|]. split; [|reflexivity].
  eexists. split; [apply sort_perm | reflexivity].
Qed.

End SearchAnswers.
(** ** MistralApiService: what a call and a cancellation leave behind *)

Section Registry.
Import MistralApiService JsString.

(** Every way [callMistralAPI] ends.  It returns a response that has a
    choice, or [null], or throws "Generation cancelled" and nothing else.
    Without an API key nothing is sent and nothing is registered; with one,
    the prompt is sent once and the registry ends without the generation's
    id, whether or not the id was registered before the call.  The cache
    and the conversations are not touched. *)
Theorem callMistralAPI_outcomes (env : Env) (prompt : string) (maxTokens : Z)
        (generationId : option string) (w : World) :
  let run := callMistralAPI env prompt maxTokens generationId w in
  match fst run with
  | Ok (Some data) => has_choices (Some data) = true
  | Ok None => True
  | Throw e => e = cancelled
  end /\
  (if useFallback env then run = (Ok None, w)
   else provider_calls (snd run) = provider_calls w ++ [prompt] /\
        activeGenerations (snd run) =
        match registered generationId with
        | Some g => delete g (activeGenerations w)
        | None => activeGenerations w
        end) /\
  redis (snd run) = redis w /\ conversations (snd run) = conversations w.
Proof.
  unfold callMistralAPI, call_begin.
  destruct (useFallback env); [run_monad; auto|].
  unfold settle, call_end, call_catch, forget.
  destruct (registered generationId) as [g|]; run_monad;
    destruct (bool_decide _); simpl;
    try (destruct (http_post env prompt) as [status data|error]; simpl);
    try (destruct (has_choices data) eqn:H; simpl);
    try (destruct data; [|discriminate H]);
    try (destruct (is_abort _); simpl);
    repeat split; auto;
    rewrite ?delete_insert_eq, ?delete_delete_eq; auto.
Qed.

(** [cancelGeneration] answers whether the id was registered.  Afterwards
    the id is not active, a second cancellation answers [false], the other
    generations are registered as before, and the controller that was
    stored under the id is aborted; an id that was not registered leaves
    everything as it was. *)
Theorem cancelGeneration_registry (generationId : string) (w : World) :
  let run := cancelGeneration generationId w in
  fst run = Ok (bool_decide (is_Some (activeGenerations w !! generationId))) /\
  activeGenerations (snd run) = delete generationId (activeGenerations w) /\
  fst (isGenerationActive generationId (snd run)) = Ok false /\
  fst (cancelGeneration generationId (snd run)) = Ok false /\
  match activeGenerations w !! generationId with
  | Some c => aborted (snd run) = {[ c ]} ∪ aborted w
  | None => snd run = w
  end.
Proof.
  unfold cancelGeneration, isGenerationActive. run_monad.
  destruct (activeGenerations w !! generationId) as [c|] eqn:L; simpl.
  - rewrite lookup_delete_eq. simpl. repeat split; try reflexivity.
  - rewrite L. simpl. rewrite delete_id by exact L. repeat split; try reflexivity.
Qed.

End Registry.
(** ** RAGService: how a conversation ends *)

Section Endings.
Import RAGService JsString.

Lemma callMistralAPI_calls env prompt n g w :
  let run := MistralApiService.callMistralAPI env prompt n g w in
  conversations (snd run) = conversations w /\
  (MistralApiService.useFallback env = true /\ run = (Ok None, w) \/
   MistralApiService.useFallback env = false /\
   provider_calls (snd run) = (provider_calls w ++ [prompt])%list).
Proof.
  split; [apply callMistralAPI_conversations|].
  unfold MistralApiService.callMistralAPI, MistralApiService.call_begin,
    MistralApiService.settle, MistralApiService.call_end, MistralApiService.call_catch,
    MistralApiService.forget.
  destruct (MistralApiService.useFallback env); [left; split; reflexivity|].
  right. split; [reflexivity|].
  destruct (MistralApiService.registered g); run_monad;
    destruct (bool_decide _); simpl;
    try destruct (MistralApiService.is_abort _); simpl; try reflexivity;
    destruct (http_post env prompt) as [st data|error]; simpl;
    try destruct (MistralApiService.has_choices data); simpl;
    try destruct (MistralApiService.is_abort _); reflexivity.
Qed.

(** What an exchange does to the world, and what it answers when it has
    stored the conversation: the content of the assistant's turn. *)
Lemma exchange_effects env q userId g c w :
  let run := exchange env q userId g c w in
  (MistralApiService.useFallback env = true /\ fst run = Ok technical_issues /\
   provider_calls (snd run) = provider_calls w /\
   conversations (snd run) = conversations w \/
   MistralApiService.useFallback env = false /\
   exists prompt, provider_calls (snd run) = (provider_calls w ++ [prompt])%list) /\
  (conversations (snd run) = conversations w \/
   exists um am t,
     fst run = Ok (msg_content am) /\ msg_content um = q /\
     conversations (snd run) =
     <[sessionId (doc c) :=
         {| cc_userId := cc_userId (doc c); sessionId := sessionId (doc c);
            messages := (messages (doc c) ++ [um]) ++ [am];
            cc_context := cc_context (doc c); lastUpdated := t;
            messageCount := messageCount (doc c) |}]> (conversations w)).
Proof.
  unfold exchange, bind, Date_now. cbv beta iota zeta.
  match goal with |- context [searchUserRelevantDocuments env q userId ?c0 ?w0] =>
    destruct (searchUserRelevantDocuments_frame env q userId c0 w0)
      as (l & w1 & E1 & (F1 & _ & _ & _ & P1)) end.
  rewrite E1. simpl in F1, P1. cbv beta iota zeta.
  match goal with |- context [MistralApiService.callMistralAPI env ?p 1000 g w1] =>
    destruct (callMistralAPI_calls env p 1000 g w1) as [F2 C2];
    destruct (MistralApiService.callMistralAPI env p 1000 g w1) as [[response|e] w2] eqn:E2 end;
    simpl in F2, C2; cbv beta iota zeta.
  - destruct C2 as [[U C2]|[U C2]].
    + injection C2 as -> ->. simpl. split; [left|left]; repeat split; congruence.
    + split; [right; split; [exact U|]|].
      * destruct (first_choice response) as [choice|]; simpl;
          [|eexists; rewrite C2, P1; reflexivity].
        unfold saveConversationContext, save, bind, Date_now, gets, modify, throw, ret.
        cbv beta iota zeta. simpl.
        destruct (isNew c && bool_decide _); simpl; eexists; rewrite C2, P1; reflexivity.
      * destruct (first_choice response) as [choice|]; simpl; [|left; congruence].
        unfold saveConversationContext, save, bind, Date_now, gets, modify, throw, ret.
        cbv beta iota zeta. simpl.
        destruct (isNew c && bool_decide _); simpl; [left; congruence|].
        right. eexists {| role := "user"; msg_content := q; msg_timestamp := _ |},
                       {| role := "assistant"; msg_content := choice_content choice;
                             msg_timestamp := _ |}, _.
        split; [reflexivity|]. split; [reflexivity|]. rewrite F2, F1. reflexivity.
  - simpl. split; [|left; congruence].
    destruct C2 as [[U C2]|[U C2]]; [discriminate C2|].
    right. split; [exact U|]. eexists. rewrite C2, P1. reflexivity.
Qed.

Lemma app_one_neq {A} (l : list A) x : (l ++ [x])%list <> l.
Proof.
  intros H. apply (f_equal (@length A)) in H. rewrite List.length_app in H. simpl in H. lia.
Qed.

Lemma session_of_frame env conversationId w :
  exists sid w0, session_of env conversationId w = (Ok sid, w0) /\
                 conversations w0 = conversations w /\
                 provider_calls w0 = provider_calls w.
Proof.
  unfold session_of. destruct conversationId as [s|]; [destruct (truthy s)|];
    run_monad; eexists _, _; repeat split; reflexivity.
Qed.

Lemma getOrCreateConversationContext_frame env userId sid w :
  exists c w1, getOrCreateConversationContext env userId sid w = (Ok c, w1) /\
               conversations w1 = conversations w /\
               provider_calls w1 = provider_calls w.
Proof.
  unfold getOrCreateConversationContext, findOne. run_monad.
  destruct (conversations w !! sid) as [c0|]; [destruct (String.eqb _ _)|];
    simpl; eexists _, _; repeat split; reflexivity.
Qed.

(** [generateContextualResponse] always answers with a text.  It sends at
    most one prompt to the provider, and none without an API key; when it
    sends none, the conversations are as before and the answer is one of
    the three fixed messages. *)
Theorem generateContextualResponse_effects (env : Env) (q userId : string)
        (conversationId generationId : option string) (w : World) :
  exists s w',
    generateContextualResponse env q userId conversationId generationId w = (Ok s, w') /\
    (provider_calls w' = provider_calls w \/
     exists prompt, provider_calls w' = (provider_calls w ++ [prompt])%list) /\
    (provider_calls w' = provider_calls w ->
     conversations w' = conversations w /\
     In s [stop_acknowledgement; stopped_message; technical_issues]) /\
    (MistralApiService.useFallback env = true -> provider_calls w' = provider_calls w).
Proof.
  unfold generateContextualResponse, try_catch.
  destruct (isStopSignal q).
  { eexists _, _. split; [reflexivity|]. simpl. auto 6. }
  unfold bind at 1.
  destruct (session_of_frame env conversationId w) as (sid & w0 & -> & C0 & P0).
  unfold bind at 1.
  destruct (getOrCreateConversationContext_frame env userId sid w0) as (c & w1 & -> & C1 & P1).
  destruct (stopped c).
  { eexists _, _. split; [reflexivity|]. simpl. rewrite P1, P0, C1, C0. auto 6. }
  pose proof (exchange_effects env q userId generationId c w1) as [X Y]. simpl in X, Y.
  destruct (exchange env q userId generationId c w1) as [[a|e] w2]; simpl in *;
    (eexists _, _; split; [reflexivity|]);
    rewrite P1, P0, C1, C0 in *;
    (destruct X as [(U & R & P & C)|(U & prompt & P)];
     [ split; [left; exact P|]; split;
       [intros _; split; [exact C | first [injection R as <-; simpl; auto | simpl; auto]]
       |intros _; exact P]
     | split; [right; exists prompt; exact P|]; split;
       [intros H; rewrite P in H; destruct (app_one_neq _ _ H)
       |intros H; congruence] ]).
Qed.

(** A conversation whose last stored message holds "stop" is closed: a
    later message in it is answered with the notice, and nothing is read
    from the clock, sent to the provider or written. *)
Theorem stopped_conversation_refuses (env : Env) (q userId sid : string)
        (generationId : option string) (w : World)
        (c : ConversationContext) (m : ConversationMessage) :
  isStopSignal q = false -> truthy sid = true ->
  conversations w !! sid = Some c -> cc_userId c = userId ->
  last (messages c) = Some m ->
  includes (toLowerCase (msg_content m)) "stop" = true ->
  generateContextualResponse env q userId (Some sid) generationId w
  = (Ok stopped_message, w).
Proof.
  intros Hq Hs Hc Hu Hl Hm.
  unfold generateContextualResponse, try_catch, session_of, getOrCreateConversationContext,
    findOne, stopped.
  rewrite Hq, Hs. run_monad. rewrite Hc, Hu, String.eqb_refl. simpl.
  rewrite Hl, Hm. reflexivity.
Qed.

Lemma stopped_conversation_refuses_witness :
  let c := {| cc_userId := "u1"; sessionId := "s1";
              messages := [ {| role := "assistant"; msg_content := "Stop by any time.";
                               msg_timestamp := 0 |} ];
              cc_context := cc_context sample_context; lastUpdated := 0; messageCount := 1 |} in
  let w := set_conversations (insert "s1" c) empty_world in
  generateContextualResponse sample_env "how can I sleep better" "u1" (Some "s1") None w
  = (Ok stopped_message, w).
Proof.
  intros c w.
  apply (stopped_conversation_refuses sample_env "how can I sleep better" "u1" "s1" None w c
           {| role := "assistant"; msg_content := "Stop by any time."; msg_timestamp := 0 |});
    reflexivity.
Defined.

(** A reply of the assistant that holds the word "stop" closes the
    conversation: once the exchange is stored, the next message of the
    user in the same session is answered with the notice that the
    conversation has been stopped. *)
Theorem reply_with_stop_ends_conversation (env : Env) (q q' userId sid : string)
        (g g' : option string) (w : World) (reply : string) :
  well_keyed w -> truthy sid = true -> isStopSignal q' = false ->
  let run := generateContextualResponse env q userId (Some sid) g w in
  conversations (snd run) <> conversations w ->
  fst run = Ok reply ->
  includes (toLowerCase reply) "stop" = true ->
  generateContextualResponse env q' userId (Some sid) g' (snd run)
  = (Ok stopped_message, snd run).
Proof.
  intros WK Hs Hq' run Hw Hr Hstop. subst run.
  assert (S : exists c' am,
             conversations (snd (generateContextualResponse env q userId (Some sid) g w)) !! sid
               = Some c' /\
             cc_userId c' = userId /\ last (messages c') = Some am /\ msg_content am = reply).
  { revert Hw Hr.
    unfold generateContextualResponse, try_catch, session_of.
    destruct (isStopSignal q); [simpl; congruence|].
    rewrite Hs. unfold bind at 1, ret at 1. unfold bind at 1.
    unfold getOrCreateConversationContext, findOne, bind, gets, Date_now, ret.
    cbv beta iota zeta.
    assert (Fin : forall (c : ContextDocument) (w1 : World),
      conversations w1 = conversations w ->
      sessionId (doc c) = sid -> cc_userId (doc c) = userId ->
      let r := (let (o, w') := (if stopped c then (fun w => (Ok stopped_message, w))
                                else exchange env q userId g c) w1 in
                match o with
                | Ok a => (Ok a, w')
                | Throw _ => (Ok technical_issues, w')
                end) in
      conversations (snd r) <> conversations w -> fst r = Ok reply ->
      exists c' am, conversations (snd r) !! sid = Some c' /\
                    cc_userId c' = userId /\ last (messages c') = Some am /\
                    msg_content am = reply).
    { intros c w1 C1 Sid Uid.
      destruct (stopped c); [simpl; congruence|].
      pose proof (exchange_effects env q userId g c w1) as [_ Y]. simpl in Y.
      destruct (exchange env q userId g c w1) as [[a|e] w2]; simpl in *;
        (destruct Y as [Y|(um & am & t & R & _ & Y)]; [congruence|]);
        [|discriminate R].
      intros _ Ha. rewrite Y, Sid, lookup_insert_eq.
      eexists _, am. split; [reflexivity|]. simpl. split; [exact Uid|].
      split; [apply last_snoc | congruence]. }
    destruct (conversations w !! sid) as [c0|] eqn:L0.
    - destruct (String.eqb (cc_userId c0) userId) eqn:Eu; cbv beta iota zeta.
      + apply Fin; [reflexivity | apply WK, L0 | apply String.eqb_eq, Eu].
      + apply Fin; reflexivity.
    - cbv beta iota zeta. apply Fin; reflexivity. }
  revert S. clear Hw Hr.
  generalize (snd (generateContextualResponse env q userId (Some sid) g w)).
  intros w' (c' & am & Hc & Hu & Hl & Hm).
  unfold generateContextualResponse, try_catch, session_of, getOrCreateConversationContext,
    findOne, stopped.
  rewrite Hq', Hs. run_monad. rewrite Hc, Hu, String.eqb_refl. simpl.
  rewrite Hl, Hm, Hstop. reflexivity.
Qed.

Lemma reply_with_stop_ends_conversation_witness :
  let run := generateContextualResponse stop_reply_env "how can I sleep better" "u1"
                                        (Some "s1") None empty_world in
  fst run = Ok "Stop drinking coffee after noon." /\
  generateContextualResponse stop_reply_env "and tea" "u1" (Some "s1") None (snd run)
  = (Ok stopped_message, snd run).
Proof.
  split; [reflexivity|].
  apply (reply_with_stop_ends_conversation stop_reply_env "how can I sleep better" "and tea"
           "u1" "s1" None None empty_world "Stop drinking coffee after noon.").
  - intros k c H. simpl in H. rewrite lookup_empty in H. discriminate.
  - reflexivity.
  - reflexivity.
  - vm_compute. discriminate.
  - reflexivity.
  - reflexivity.
Defined.

End Endings.
(** ** RAGService: what a call does to the stored conversations *)

Section Stored.
Import RAGService JsString.

Lemma callMistralAPI_fails env prompt n g w :
  match http_post env prompt with
  | Resolved _ data => MistralApiService.has_choices data = false
  | Rejected _ => True
  end ->
  match fst (MistralApiService.callMistralAPI env prompt n g w) with
  | Ok (Some _) => False
  | _ => True
  end.
Proof.
  intros H.
  unfold MistralApiService.callMistralAPI, MistralApiService.call_begin,
    MistralApiService.settle, MistralApiService.call_end, MistralApiService.call_catch,
    MistralApiService.forget.
  destruct (MistralApiService.useFallback env); [exact I|].
  destruct (MistralApiService.registered g); run_monad;
    destruct (bool_decide _); simpl;
    try (destruct (MistralApiService.is_abort _); simpl; exact I);
    destruct (http_post env prompt) as [st data|error]; simpl;
    try rewrite H; simpl;
    try (destruct (MistralApiService.is_abort _); simpl); exact I.
Qed.

(** When the provider gives no usable answer, because the request fails,
    is aborted or comes back without a choice, the reply is the message
    about technical issues (or the notice of a stopped conversation) and
    the conversations are as before: the user's message is not stored. *)
Theorem failed_generation_leaves_no_trace (env : Env) (q userId : string)
        (conversationId generationId : option string) (w : World) :
  isStopSignal q = false ->
  (forall prompt, match http_post env prompt with
                  | Resolved _ data => MistralApiService.has_choices data = false
                  | Rejected _ => True
                  end) ->
  let run := generateContextualResponse env q userId conversationId generationId w in
  (fst run = Ok technical_issues \/ fst run = Ok stopped_message) /\
  conversations (snd run) = conversations w.
Proof.
  intros Hq Hp run.
  assert (A : exists s w',
             generateContextualResponse env q userId conversationId generationId w = (Ok s, w') /\
             (s = technical_issues \/ s = stopped_message) /\
             conversations w' = conversations w).
  { unfold generateContextualResponse, try_catch. rewrite Hq.
    unfold bind at 1.
    destruct (session_of_frame env conversationId w) as (sid & w0 & -> & C0 & _).
    unfold bind at 1.
    destruct (getOrCreateConversationContext_frame env userId sid w0)
      as (c & w1 & -> & C1 & _).
    destruct (stopped c);
      [eexists _, _; split; [reflexivity|]; split; [right; reflexivity | congruence]|].
    unfold exchange, bind, Date_now. cbv beta iota zeta.
    match goal with |- context [searchUserRelevantDocuments env q userId ?c0 ?w2] =>
      destruct (searchUserRelevantDocuments_frame env q userId c0 w2)
        as (l & w3 & E1 & (F1 & _)) end.
    rewrite E1. simpl in F1. cbv beta iota zeta.
    match goal with |- context [MistralApiService.callMistralAPI env ?p 1000 generationId w3] =>
      pose proof (callMistralAPI_conversations env p 1000 generationId w3) as F2;
      pose proof (callMistralAPI_fails env p 1000 generationId w3 (Hp p)) as X;
      destruct (MistralApiService.callMistralAPI env p 1000 generationId w3)
        as [[[response|]|e] w4] end;
      simpl in *; [destruct X| |];
      (eexists _, _; split; [reflexivity|]; split; [left; reflexivity | congruence]). }
  destruct A as (s & w' & E & [-> | ->] & C); subst run; rewrite E; simpl; auto.
Qed.

Lemma failed_generation_leaves_no_trace_witness :
  let run := generateContextualResponse failing_env "how can I sleep better" "u1" (Some "s1")
                                        None empty_world in
  (fst run = Ok technical_issues \/ fst run = Ok stopped_message) /\
  conversations (snd run) = conversations empty_world.
Proof.
  apply (failed_generation_leaves_no_trace failing_env "how can I sleep better" "u1"
           (Some "s1") None empty_world).
  - reflexivity.
  - intros prompt. exact I.
Defined.

(** The stored conversations only grow.  A call keeps every conversation
    of the collection, with its user, and leaves its messages as they are
    or appends two to them; and the collection stays keyed by the
    identifier of the session. *)
Theorem conversations_append_only (env : Env) (q userId : string)
        (conversationId generationId : option string) (w : World) :
  well_keyed w ->
  let w' := snd (generateContextualResponse env q userId conversationId generationId w) in
  well_keyed w' /\
  forall sid c, conversations w !! sid = Some c ->
    exists c' added,
      conversations w' !! sid = Some c' /\
      messages c' = (messages c ++ added)%list /\
      (added = [] \/ length added = 2%nat) /\
      cc_userId c' = cc_userId c.
Proof.
  intros WK w'.
  assert (Same : forall w0 : World, conversations w0 = conversations w ->
            well_keyed w0 /\
            forall sid c, conversations w !! sid = Some c ->
              exists c' added,
                conversations w0 !! sid = Some c' /\
                messages c' = (messages c ++ added)%list /\
                (added = [] \/ length added = 2%nat) /\ cc_userId c' = cc_userId c).
  { intros w0 E. split; [unfold well_keyed; rewrite E; exact WK|].
    intros sid c H. exists c, []. rewrite E, List.app_nil_r. auto. }
  assert (Fin : forall (c : ContextDocument) (w1 w2 : World),
    conversations w1 = conversations w ->
    (isNew c = false /\ conversations w !! sessionId (doc c) = Some (doc c) \/
     isNew c = true) ->
    w2 = snd (let (o, w') := (if stopped c then (fun w => (Ok stopped_message, w))
                              else exchange env q userId generationId c) w1 in
              match o with
              | Ok a => (Ok a, w')
              | Throw _ => (Ok technical_issues, w')
              end) ->
    well_keyed w2 /\
    forall sid c0, conversations w !! sid = Some c0 ->
      exists c' added,
        conversations w2 !! sid = Some c' /\
        messages c' = (messages c0 ++ added)%list /\
        (added = [] \/ length added = 2%nat) /\ cc_userId c' = cc_userId c0).
  { intros c w1 w2 C1 Hc ->.
    destruct (stopped c); [apply Same; exact C1|].
    pose proof (exchange_writes env q userId generationId c w1) as Y. simpl in Y.
    set (w2 := snd (let (o, w') := exchange env q userId generationId c w1 in
                    match o with
                    | Ok a => (Ok a, w')
                    | Throw _ => (Ok technical_issues, w')
                    end)).
    assert (E2 : conversations w2 = conversations (snd (exchange env q userId generationId c w1)))
      by (subst w2; destruct (exchange env q userId generationId c w1) as [[a|e] w3];
          reflexivity).
    destruct Y as [Y|(um & am & t & Y & _ & _ & _ & T)];
      [apply Same; rewrite E2, Y; exact C1|].
    rewrite C1 in Y, T. rewrite <- E2 in Y. split.
    - intros k c1. rewrite Y. destruct (decide (k = sessionId (doc c))) as [->|Ne].
      + rewrite lookup_insert_eq. intros [= <-]. reflexivity.
      + rewrite lookup_insert_ne by congruence. apply WK.
    - intros sid c0 H0. rewrite Y.
      destruct (decide (sid = sessionId (doc c))) as [->|Ne].
      + rewrite lookup_insert_eq. eexists _, [um; am]. split; [reflexivity|]. simpl.
        destruct Hc as [[_ L]|N].
        * rewrite L in H0. injection H0 as <-.
          split; [rewrite <- List.app_assoc; reflexivity | auto].
        * rewrite N in T. simpl in T. apply bool_decide_eq_false in T.
          destruct T. rewrite H0. eauto.
      + rewrite lookup_insert_ne by congruence.
        exists c0, []. rewrite List.app_nil_r. auto. }
  assert (G : forall w2,
            w2 = snd (generateContextualResponse env q userId conversationId generationId w) ->
            well_keyed w2 /\
            forall sid c, conversations w !! sid = Some c ->
              exists c' added,
                conversations w2 !! sid = Some c' /\
                messages c' = (messages c ++ added)%list /\
                (added = [] \/ length added = 2%nat) /\ cc_userId c' = cc_userId c);
    [|exact (G w' eq_refl)].
  intros w2. unfold generateContextualResponse, try_catch.
  destruct (isStopSignal q); [intros ->; apply Same; reflexivity|].
  unfold bind at 1.
  destruct (session_of_frame env conversationId w) as (sid0 & w0 & -> & C0 & _).
  unfold bind at 1, getOrCreateConversationContext, findOne, bind, gets, Date_now, ret.
  cbv beta iota zeta.
  destruct (conversations w0 !! sid0) as [c0|] eqn:L0.
  - destruct (String.eqb (cc_userId c0) userId) eqn:Eu; cbv beta iota zeta.
    + apply Fin; [exact C0|]. left. split; [reflexivity|]. simpl.
      rewrite C0 in L0. rewrite (WK _ _ L0). exact L0.
    + apply Fin; [exact C0 | right; reflexivity].
  - cbv beta iota zeta. apply Fin; [exact C0 | right; reflexivity].
Qed.

Lemma conversations_append_only_witness :
  let w := set_conversations (insert "s1" sample_context) empty_world in
  let w' := snd (generateContextualResponse sample_env "what about naps" "u1"
                   (Some "s1") None w) in
  well_keyed w' /\
  forall sid c, conversations w !! sid = Some c ->
    exists c' added,
      conversations w' !! sid = Some c' /\
      messages c' = (messages c ++ added)%list /\
      (added = [] \/ length added = 2%nat) /\
      cc_userId c' = cc_userId c.
Proof.
  apply (conversations_append_only sample_env "what about naps" "u1" (Some "s1") None
           (set_conversations (insert "s1" sample_context) empty_world)).
  intros k c H. simpl in H.
  destruct (decide (k = "s1")) as [->|Ne].
  - rewrite lookup_insert_eq in H. injection H as <-. reflexivity.
  - rewrite lookup_insert_ne, lookup_empty in H by congruence. discriminate.
Defined.

End Stored.
(** ** RAGService: what counts as a stop signal *)

Section StopWords.
Import RAGService JsString.
Local Open Scope string_scope.

Lemma toLowerCase_app a b : toLowerCase (a ++ b) = toLowerCase a ++ toLowerCase b.
Proof.
  induction a as [|c a IH]; [reflexivity|].
  change (String c a ++ b) with (String c (a ++ b)). simpl. rewrite IH. reflexivity.
Qed.

Lemma prefix_app k b : String.prefix k (k ++ b) = true.
Proof.
  induction k as [|c k IH]; [destruct b; reflexivity|].
  change (String c k ++ b) with (String c (k ++ b)). simpl.
  destruct (ascii_dec c c) as [_|N]; [exact IH | destruct N; reflexivity].
Qed.

Lemma includes_app a k b : includes (a ++ k ++ b) k = true.
Proof.
  induction a as [|c a IH].
  - change (EmptyString ++ k ++ b) with (k ++ b).
    destruct (k ++ b) eqn:E; unfold includes; fold includes;
      rewrite <- E, prefix_app; reflexivity.
  - change (String c a ++ k ++ b) with (String c (a ++ k ++ b)).
    change (includes (String c (a ++ k ++ b)) k) with
      (if String.prefix k (String c (a ++ k ++ b)) then true else includes (a ++ k ++ b) k).
    rewrite IH. destruct (String.prefix _ _); reflexivity.
Qed.

(** A message is a stop signal as soon as one of the six keywords occurs
    in it, in any mix of upper and lower case and anywhere, inside a longer
    word as well: it is then answered with the acknowledgement, and nothing
    is searched, generated or stored. *)
Theorem stop_keyword_anywhere (env : Env) (before word after userId : string)
        (conversationId generationId : option string) (w : World) :
  In (toLowerCase word) stopKeywords ->
  isStopSignal (before ++ word ++ after) = true /\
  generateContextualResponse env (before ++ word ++ after) userId conversationId
                             generationId w
  = (Ok stop_acknowledgement, w).
Proof.
  intros H.
  assert (S : isStopSignal (before ++ word ++ after) = true).
  { unfold isStopSignal. apply existsb_exists. exists (toLowerCase word).
    split; [exact H|]. rewrite !toLowerCase_app. apply includes_app. }
  split; [exact S|].
  unfold generateContextualResponse, try_catch. rewrite S. reflexivity.
Qed.

Lemma stop_keyword_anywhere_witness :
  isStopSignal "Can you recommEND a diet?" = true /\
  generateContextualResponse sample_env "Can you recommEND a diet?" "u1" (Some "s1") None
                             empty_world
  = (Ok stop_acknowledgement, empty_world).
Proof.
  apply (stop_keyword_anywhere sample_env "Can you recomm" "END" " a diet?" "u1"
           (Some "s1") None empty_world).
  simpl. auto.
Defined.

End StopWords.
(** ** AiService: the chat behind the conversation *)

Section Chat.
Import RAGService AiService JsString.
Local Open Scope float_scope.

Lemma generateContextualResponse_Ok env q userId conversationId generationId w :
  exists s w',
    generateContextualResponse env q userId conversationId generationId w = (Ok s, w').
Proof.
  unfold generateContextualResponse, try_catch.
  match goal with |- context [match ?body w with _ => _ end] => destruct (body w) as [[s|e] w'] end;
    eexists _, _; reflexivity.
Qed.

(** [generateChatResponse] always answers, with confidence 1 for the two
    notices about stopping and 0.8 for everything else, the message about
    technical issues included: its fallback response, with confidence 0.3,
    is never returned. *)
Theorem generateChatResponse_confidence (env : Env) (message : string)
        (conversationHistory : list ConversationHistoryItem)
        (context : option AiUserContext) (generationId : option string) (w : World) :
  exists r w',
    generateChatResponse env message conversationHistory context generationId w = (Ok r, w') /\
    (if isStopSignal message || history_stopped conversationHistory
     then cr_confidence r = 1 /\ w' = w
     else cr_confidence r = 0.8 /\
          usage_total_tokens r = of_nat (String.length (cr_content r)) / 4).
Proof.
  unfold generateChatResponse, try_catch.
  destruct (isStopSignal message); simpl; [eexists _, _; split; [reflexivity | split; reflexivity]|].
  destruct (history_stopped conversationHistory); simpl;
    [eexists _, _; split; [reflexivity | split; reflexivity]|].
  unfold bind at 1, Date_now at 1. unfold bind.
  match goal with |- context [generateContextualResponse env message ?u ?c generationId ?w0] =>
    destruct (generateContextualResponse_Ok env message u c generationId w0) as (s & w' & ->) end.
  eexists _, _. split; [reflexivity | split; reflexivity].
Qed.

(** What [generateContextualResponse] stores for a session that is not in
    the collection: a conversation of two messages. *)
Lemma new_session_writes env q userId sid g w :
  truthy sid = true -> conversations w !! sid = None ->
  let run := generateContextualResponse env q userId (Some sid) g w in
  conversations (snd run) = conversations w \/
  exists um am c',
    conversations (snd run) = <[sid := c']> (conversations w) /\
    messages c' = [um; am] /\ cc_userId c' = userId /\ messageCount c' = 0%Z /\
    msg_content um = q /\ fst run = Ok (msg_content am).
Proof.
  intros Hs Hn. unfold generateContextualResponse, try_catch, session_of.
  destruct (isStopSignal q); [left; reflexivity|].
  rewrite Hs. unfold bind at 1, ret at 1. unfold bind at 1.
  unfold getOrCreateConversationContext, findOne, bind, gets, Date_now, ret.
  cbv beta iota zeta. rewrite Hn. cbv beta iota zeta.
  match goal with |- context [stopped ?c0] =>
    change (stopped c0) with false; cbv beta iota zeta;
    match goal with |- context [exchange env q userId g c0 ?w1] =>
      pose proof (exchange_effects env q userId g c0 w1) as [_ Y];
      destruct (exchange env q userId g c0 w1) as [[a|e] w2] end end;
    simpl in *;
    (destruct Y as [Y|(um & am & t & R & U & Y)]; [left; exact Y|]); [|discriminate R].
  right. eexists um, am, _. split; [exact Y|]. simpl. auto.
Qed.

(** Every message of the chat opens a session of its own, named after the
    clock.  When that name is free, the call either leaves the
    conversations as they are or adds one conversation, which holds the
    message and the reply and nothing of what was said before: the
    conversations that earlier messages stored are never read again. *)
Theorem chat_sessions_are_fresh (env : Env) (message : string)
        (conversationHistory : list ConversationHistoryItem)
        (context : option AiUserContext) (generationId : option string) (w : World) :
  let sid := ("chat_" ++ JsString.of_Z (clock env (ticks w)))%string in
  let run := generateChatResponse env message conversationHistory context generationId w in
  conversations w !! sid = None ->
  conversations (snd run) = conversations w \/
  exists um am c' r,
    conversations (snd run) = <[sid := c']> (conversations w) /\
    messages c' = [um; am] /\ cc_userId c' = user_of context /\
    msg_content um = message /\
    fst run = Ok r /\ cr_content r = msg_content am.
Proof.
  intros sid run Hn. subst run. unfold generateChatResponse, try_catch.
  destruct (isStopSignal message); [left; reflexivity|].
  destruct (history_stopped conversationHistory); [left; reflexivity|].
  unfold bind, Date_now, ret. cbv beta iota zeta.
  pose proof (new_session_writes env message (user_of context) sid generationId
                (set_ticks S w) eq_refl Hn) as X.
  cbv zeta in X. unfold sid in *.
  destruct (generateContextualResponse env message (user_of context)
              (Some ("chat_" ++ JsString.of_Z (clock env (ticks w)))%string)
              generationId (set_ticks S w)) as [[s|e] w'];
    cbv beta iota zeta; unfold snd, fst in *;
    (destruct X as [X|(um & am & c' & X & M2 & U & _ & Q & R)]; [left; exact X|]);
    [|discriminate R].
  right. exists um, am, c'. eexists. split; [exact X|]. split; [exact M2|].
  split; [exact U|]. split; [exact Q|]. split; [reflexivity|]. simpl. congruence.
Qed.

Lemma chat_sessions_are_fresh_witness :
  let run := generateChatResponse sample_env "how can I sleep better"
               [ {| h_role := "user"; h_content := "hello" |};
                 {| h_role := "assistant"; h_content := "Hello, how can I help?" |} ]
               (Some {| uc_userId := Some "u1" |}) None empty_world in
  conversations (snd run) = conversations empty_world \/
  exists um am c' r,
    conversations (snd run) = <[("chat_1000")%string := c']> (conversations empty_world) /\
    messages c' = [um; am] /\ cc_userId c' = "u1"%string /\
    msg_content um = "how can I sleep better"%string /\
    fst run = Ok r /\ cr_content r = msg_content am.
Proof.
  apply (chat_sessions_are_fresh sample_env "how can I sleep better"
           [ {| h_role := "user"; h_content := "hello" |};
             {| h_role := "assistant"; h_content := "Hello, how can I help?" |} ]
           (Some {| uc_userId := Some "u1" |}) None empty_world).
  reflexivity.
Defined.

End Chat.
(** ** CacheService: the statistics *)

Section Statistics.
Import CacheStatistics JsString.
Local Open Scope string_scope.

Lemma append_nil_r (s : string) : s ++ EmptyString = s.
Proof.
  induction s as [|c s IH]; [reflexivity|].
  change (String c (s ++ EmptyString) = String c s). rewrite IH. reflexivity.
Qed.

(** A text without a carriage return is one line. *)
Local Abbreviation no_cr l := (one_line l%string = true) (only parsing).

(** Every entry of the parsed statistics is the first two pieces of a line. *)
Lemma info_lines_entries ls : forall stats k v,
  fold_left info_line ls stats !! k = Some v ->
  stats !! k = Some v \/
  exists line rest, In line ls /\ split ":" line = k :: v :: rest.
Proof.
  induction ls as [|l ls IH]; intros stats k v H; [left; exact H|].
  simpl in H. apply IH in H as [H|(line & rest & I & E)];
    [|right; exists line, rest; split; [right; exact I | exact E]].
  unfold info_line in H.
  destruct (includes l ":"); [|left; exact H].
  destruct (split ":" l) as [|key [|value rest]] eqn:E; try (left; exact H).
  unfold stats_set in H.
  destruct (String.eqb key "__proto__"); [left; exact H|].
  destruct (decide (key = k)) as [->|Ne].
  - rewrite lookup_insert_eq in H. injection H as ->.
    right. exists l, rest. split; [left; reflexivity | exact E].
  - rewrite lookup_insert_ne in H by exact Ne. left. exact H.
Qed.

(** [getStats] looks the counters up as [keyspaceHits], [keyspaceMisses]
    and [usedMemoryHuman].  When no line of the statistics starts with one
    of these names, the hit rate is 0 and the memory is "0B", whatever the
    text says under other names; and when Redis does not answer, all three
    figures are zero. *)
Theorem getStats_field_names (info : string -> outcome string) :
  match info "stats" with
  | Ok stats_text =>
      (forall line key rest,
         In line (lines stats_text) -> split ":" line = key :: rest ->
         key <> "keyspaceHits" /\ key <> "keyspaceMisses" /\ key <> "usedMemoryHuman") ->
      hitRate (getStats info) = 0%float /\ memoryUsage (getStats info) = "0B"
  | Throw _ => getStats info = no_stats
  end.
Proof.
  unfold getStats. destruct (info "stats") as [stats_text|e]; [|reflexivity].
  intros H. destruct (info "keyspace") as [keyspace|e]; [|split; reflexivity].
  assert (N : forall k, In k ["keyspaceHits"; "keyspaceMisses"; "usedMemoryHuman"] ->
                        parseRedisInfo stats_text !! k = None).
  { intros k Hk. destruct (parseRedisInfo stats_text !! k) as [v|] eqn:L; [|reflexivity].
    apply info_lines_entries in L as [L|(line & rest & I & E)];
      [rewrite lookup_empty in L; discriminate|].
    destruct (H line k (v :: rest) I E) as (A & B & C).
    simpl in Hk. intuition congruence. }
  simpl. rewrite !N by (simpl; auto). split; reflexivity.
Qed.

Lemma getStats_field_names_witness :
  hitRate (getStats sample_info) = 0%float /\ memoryUsage (getStats sample_info) = "0B" /\
  In "keyspace_hits:42" (lines ("# Stats" ++ crlf ++ "total_connections_received:12" ++ crlf ++
                                "keyspace_hits:42" ++ crlf ++ "keyspace_misses:7" ++ crlf)).
Proof.
  pose proof (getStats_field_names sample_info) as H. simpl in H.
  split; [apply H|split; [apply H|]].
  - intros line key rest I E. vm_compute in I.
    repeat (destruct I as [<-|I]; [vm_compute in E; injection E as <- _;
                                   repeat split; discriminate|]).
    destruct I.
  - intros line key rest I E. vm_compute in I.
    repeat (destruct I as [<-|I]; [vm_compute in E; injection E as <- _;
                                   repeat split; discriminate|]).
    destruct I.
  - vm_compute. auto.
Defined.

Lemma plain_cons c s :
  plain (String c s) = true ->
  Ascii.eqb c ":" = false /\ Ascii.eqb c (ascii_of_nat 13) = false /\ plain s = true.
Proof.
  unfold plain. simpl. intros H. apply andb_true_iff in H as [H1 H2].
  apply negb_true_iff, orb_false_iff in H1. tauto.
Qed.

Lemma split_on_plain v : forall cur,
  plain v = true -> split_on ":" cur v = [cur ++ v].
Proof.
  induction v as [|c v IH]; intros cur H; simpl; [rewrite append_nil_r; reflexivity|].
  apply plain_cons in H as (H1 & _ & H3). rewrite H1, IH by exact H3.
  rewrite append_assoc. reflexivity.
Qed.

Lemma split_on_piece k rest : forall cur,
  plain k = true ->
  split_on ":" cur (k ++ ":" ++ rest) = (cur ++ k) :: split_on ":" EmptyString rest.
Proof.
  induction k as [|c k IH]; intros cur Hk.
  - simpl. rewrite append_nil_r. reflexivity.
  - apply plain_cons in Hk as (H1 & _ & H3).
    change (String c k ++ ":" ++ rest) with (String c (k ++ ":" ++ rest)). simpl.
    rewrite H1, IH by assumption. rewrite append_assoc. reflexivity.
Qed.

Lemma split_entry k v : forall cur,
  plain k = true -> plain v = true ->
  split_on ":" cur (k ++ ":" ++ v) = [cur ++ k; v].
Proof.
  intros cur Hk Hv. rewrite split_on_piece by exact Hk.
  rewrite split_on_plain by exact Hv. reflexivity.
Qed.

Lemma includes_entry k v : includes (k ++ ":" ++ v) ":" = true.
Proof.
  induction k as [|c k IH];
    [change (EmptyString ++ ":" ++ v) with (String ":" v); destruct v; reflexivity|].
  change (String c k ++ ":" ++ v) with (String c (k ++ ":" ++ v)).
  change (includes (String c (k ++ ":" ++ v)) ":") with
    (if String.prefix ":" (String c (k ++ ":" ++ v)) then true
     else includes (k ++ ":" ++ v) ":").
  destruct (String.prefix _ _); [reflexivity | exact IH].
Qed.

Lemma no_cr_cons c l :
  no_cr (String c l) -> Ascii.eqb c (ascii_of_nat 13) = false /\ no_cr l.
Proof.
  unfold one_line. simpl. intros H. apply andb_true_iff in H as [H1 H2].
  apply negb_true_iff in H1. tauto.
Qed.

Lemma no_cr_app a b : no_cr a -> no_cr b -> no_cr (a ++ b).
Proof.
  induction a as [|c a IH]; intros Ha Hb; [exact Hb|].
  apply no_cr_cons in Ha as (H1 & H2).
  change (String c a ++ b) with (String c (a ++ b)).
  unfold one_line. simpl. rewrite H1. simpl. apply IH; assumption.
Qed.

Lemma plain_no_cr s : plain s = true -> no_cr s.
Proof.
  induction s as [|c s IH]; intros H; [reflexivity|].
  apply plain_cons in H as (_ & H2 & H3). unfold one_line. simpl. rewrite H2. simpl.
  apply IH, H3.
Qed.

Lemma split_crlf_one l : forall cur, no_cr l -> split_crlf cur l = [cur ++ l].
Proof.
  induction l as [|c l IH]; intros cur H; simpl; [rewrite append_nil_r; reflexivity|].
  apply no_cr_cons in H as (H2 & H3).
  destruct l as [|d l']; [reflexivity|].
  rewrite H2. simpl andb. cbv iota. rewrite IH by exact H3.
  rewrite append_assoc. reflexivity.
Qed.

Lemma split_crlf_line l rest : forall cur,
  no_cr l ->
  split_crlf cur (l ++ crlf ++ rest) = (cur ++ l) :: split_crlf EmptyString rest.
Proof.
  induction l as [|c l IH]; intros cur H.
  - simpl. rewrite append_nil_r. reflexivity.
  - apply no_cr_cons in H as (H2 & H3).
    change (String c l ++ crlf ++ rest) with (String c (l ++ crlf ++ rest)).
    assert (R : exists d r', l ++ crlf ++ rest = String d r')
      by (destruct l; simpl; eauto).
    destruct R as (d & r' & R).
    change (split_crlf cur (String c (l ++ crlf ++ rest))) with
      (match l ++ crlf ++ rest with
       | String d r' =>
           if Ascii.eqb c (ascii_of_nat 13) && Ascii.eqb d (ascii_of_nat 10)
           then cur :: split_crlf EmptyString r'
           else split_crlf (cur ++ String c EmptyString) (l ++ crlf ++ rest)
       | EmptyString => [cur ++ String c EmptyString]
       end).
    rewrite R at 1. rewrite H2. simpl andb. cbv iota.
    rewrite IH by exact H3. rewrite append_assoc. reflexivity.
Qed.

Lemma lines_join ls :
  ls <> [] -> Forall (fun l => no_cr l) ls -> lines (join crlf ls) = ls.
Proof.
  unfold lines. induction ls as [|l [|l2 r] IH]; intros N F; [congruence| |].
  - simpl. apply split_crlf_one. exact (Forall_inv F).
  - change (join crlf (l :: l2 :: r)) with (l ++ crlf ++ join crlf (l2 :: r)).
    rewrite split_crlf_line by exact (Forall_inv F). simpl. f_equal.
    apply IH; [discriminate | exact (Forall_inv_tail F)].
Qed.

Lemma fold_entries entries : forall stats,
  Forall (fun e => plain (fst e) = true /\ plain (snd e) = true) entries ->
  fold_left info_line (List.map (fun e => fst e ++ ":" ++ snd e) entries) stats
  = fold_left (fun m e => stats_set (fst e) (snd e) m) entries stats.
Proof.
  induction entries as [|e r IH]; intros stats F; [reflexivity|].
  apply Forall_cons_iff in F as [[Hk Hv] F]. simpl. rewrite <- IH by exact F. f_equal.
  unfold info_line, split. rewrite includes_entry, split_entry by assumption. reflexivity.
Qed.

Lemma find_append {A} (f : A -> bool) (l1 l2 : list A) :
  List.find f (l1 ++ l2)
  = match List.find f l1 with Some x => Some x | None => List.find f l2 end.
Proof.
  induction l1 as [|x l1 IH]; [reflexivity|]. simpl.
  destruct (f x); [reflexivity | exact IH].
Qed.

Lemma lookup_entries k entries : forall stats,
  k <> "__proto__" ->
  fold_left (fun m e => stats_set (fst e) (snd e) m) entries stats !! k
  = match last_value k entries with
    | Some v => Some v
    | None => stats !! k
    end.
Proof.
  intros stats Hk. revert stats.
  induction entries as [|e r IH]; intros stats; [reflexivity|].
  simpl. rewrite IH. unfold last_value. simpl. rewrite find_append.
  destruct (List.find _ (rev r)) as [e'|]; [reflexivity|]. simpl.
  unfold stats_set.
  destruct (String.eqb (fst e) k) eqn:E.
  - apply String.eqb_eq in E. subst k.
    destruct (String.eqb (fst e) "__proto__") eqn:P;
      [apply String.eqb_eq in P; congruence|].
    simpl. apply lookup_insert_eq.
  - apply String.eqb_neq in E. simpl.
    destruct (String.eqb (fst e) "__proto__"); [reflexivity|].
    apply lookup_insert_ne. exact E.
Qed.

(** Writing entries as lines "key:value" joined by "\r\n" and parsing the
    text gives every key the value of its last entry, as long as keys and
    values hold no colon and no carriage return.  A value that holds a
    colon is cut at it: the parser keeps the piece between the first two
    colons of a line. *)
Theorem parseRedisInfo_round_trip (entries : list (string * string)) (k : string) :
  Forall (fun e => plain (fst e) = true /\ plain (snd e) = true) entries ->
  k <> "__proto__" ->
  parseRedisInfo (info_text entries) !! k = last_value k entries /\
  forall v tail, plain k = true -> plain v = true -> plain tail = true ->
    parseRedisInfo (k ++ ":" ++ v ++ ":" ++ tail) !! k = Some v.
Proof.
  intros F Hk. split.
  - unfold parseRedisInfo, info_text.
    destruct entries as [|e r]; [reflexivity|].
    rewrite lines_join.
    + rewrite fold_entries by exact F. rewrite lookup_entries by exact Hk.
      destruct (last_value k (e :: r)); [reflexivity | apply lookup_empty].
    + discriminate.
    + apply List.Forall_forall. intros l Hl. apply in_map_iff in Hl as (e0 & <- & He).
      rewrite List.Forall_forall in F. destruct (F e0 He) as [P1 P2].
      apply no_cr_app; [apply plain_no_cr, P1|].
      apply (no_cr_app ":"); [reflexivity | apply plain_no_cr, P2].
  - intros v tail Pk Pv Pt. unfold parseRedisInfo, lines.
    rewrite split_crlf_one.
    + change (fold_left info_line [EmptyString ++ (k ++ ":" ++ v ++ ":" ++ tail)] ∅)
        with (info_line ∅ (k ++ ":" ++ v ++ ":" ++ tail)).
      unfold info_line, split.
      rewrite includes_entry, split_on_piece by exact Pk.
      rewrite split_on_piece by exact Pv.
      change (EmptyString ++ k) with k. change (EmptyString ++ v) with v.
      unfold stats_set.
      destruct (String.eqb k "__proto__") eqn:P;
        [apply String.eqb_eq in P; congruence|].
      apply lookup_insert_eq.
    + repeat first [ apply no_cr_app | apply plain_no_cr; assumption | reflexivity ].
Qed.

Lemma parseRedisInfo_round_trip_witness :
  parseRedisInfo (info_text [("role", "master"); ("uptime", "12"); ("role", "replica")])
    !! "role" = Some "replica" /\
  parseRedisInfo ("executable:/usr/bin/redis:6379") !! "executable" = Some "/usr/bin/redis".
Proof.
  assert (F : Forall (fun e => plain (fst e) = true /\ plain (snd e) = true)
                     [("role", "master"); ("uptime", "12"); ("role", "replica")])
    by (repeat constructor).
  assert (N : "role" <> "__proto__") by discriminate.
  assert (N' : "executable" <> "__proto__") by discriminate.
  split.
  - exact (proj1 (parseRedisInfo_round_trip _ "role" F N)).
  - exact (proj2 (parseRedisInfo_round_trip [] "executable" (List.Forall_nil _) N')
             "/usr/bin/redis" "6379" eq_refl eq_refl eq_refl).
Defined.

End Statistics.
Section Keyspace.
Import CacheStatistics JsString.
Local Open Scope string_scope.

Lemma digits_cons c s : digits (String c s) = true -> is_digit c = true /\ digits s = true.
Proof. unfold digits. simpl. intros H. apply andb_true_iff in H. exact H. Qed.

Lemma is_digit_not c x : is_digit x = false -> is_digit c = true -> Ascii.eqb c x = false.
Proof.
  intros Hx Hc. destruct (Ascii.eqb c x) eqn:E; [|reflexivity].
  apply Ascii.eqb_eq in E. congruence.
Qed.

Lemma is_digit_not_space c : is_digit c = true -> is_space c = false.
Proof.
  unfold is_digit, is_space. intros H.
  apply andb_true_iff in H as [H1 H2]. apply Nat.leb_le in H1, H2.
  destruct (nat_of_ascii c <=? 13)%nat eqn:A; [apply Nat.leb_le in A; lia|].
  destruct (nat_of_ascii c =? 32)%nat eqn:B; [apply Nat.eqb_eq in B; lia|].
  destruct (nat_of_ascii c =? 160)%nat eqn:C; [apply Nat.eqb_eq in C; lia|].
  rewrite andb_false_r. reflexivity.
Qed.

Lemma digits_one_line s : digits s = true -> one_line s = true.
Proof.
  induction s as [|c s IH]; intros H; [reflexivity|].
  apply digits_cons in H as [H1 H2]. unfold one_line. simpl.
  rewrite (is_digit_not c (ascii_of_nat 13) eq_refl H1). simpl. apply IH, H2.
Qed.

Lemma take_digits_app ds rest :
  digits ds = true ->
  match rest with String c _ => is_digit c = false | EmptyString => True end ->
  take_digits (ds ++ rest) = ds.
Proof.
  intros H R. induction ds as [|c ds IH].
  - destruct rest as [|c r]; [reflexivity|]. simpl. rewrite R. reflexivity.
  - apply digits_cons in H as [H1 H2].
    change (String c ds ++ rest) with (String c (ds ++ rest)). simpl.
    rewrite H1, IH by exact H2. reflexivity.
Qed.

(** On a string of digits [parseInt] is the number nearest to its value. *)
Lemma parseInt_digits ds :
  digits ds = true -> ds <> EmptyString ->
  parseInt ds = of_integer (digits_value 0 ds).
Proof.
  intros H N. destruct ds as [|c ds]; [congruence|].
  pose proof (take_digits_app (String c ds) EmptyString H I) as T.
  rewrite append_nil_r in T.
  apply digits_cons in H as [H1 H2].
  unfold parseInt.
  change (trimStart (String c ds)) with (if is_space c then trimStart ds else String c ds).
  rewrite (is_digit_not_space c H1).
  rewrite (is_digit_not c "-" eq_refl H1), (is_digit_not c "+" eq_refl H1).
  rewrite T. reflexivity.
Qed.

(** Up to "keys=" nothing matches when no character before it is a "k". *)
Lemma match_keys_after p ds tail :
  forallb (fun c => negb (Ascii.eqb "k" c)) (list_ascii_of_string p) = true ->
  digits ds = true -> ds <> EmptyString ->
  match_keys (p ++ "keys=" ++ ds ++ "," ++ tail) = Some ds.
Proof.
  intros P H N. induction p as [|c p IH].
  - change (EmptyString ++ "keys=" ++ ds ++ "," ++ tail)
      with (String "k" (String "e" (String "y" (String "s" (String "=" (ds ++ "," ++ tail)))))).
    unfold match_keys. fold match_keys.
    change (starts_with "keys=" (String "k" (String "e" (String "y" (String "s"
              (String "=" (ds ++ "," ++ tail))))))) with true.
    change (skip 5 (String "k" (String "e" (String "y" (String "s"
              (String "=" (ds ++ "," ++ tail))))))) with (ds ++ "," ++ tail).
    cbv iota. rewrite take_digits_app by (exact H || reflexivity).
    destruct ds; [congruence | reflexivity].
  - cbn [forallb list_ascii_of_string] in P.
    apply andb_true_iff in P as [P1 P2]. apply negb_true_iff in P1.
    change (String c p ++ "keys=" ++ ds ++ "," ++ tail)
      with (String c (p ++ "keys=" ++ ds ++ "," ++ tail)).
    unfold match_keys. fold match_keys.
    change (starts_with "keys=" (String c (p ++ "keys=" ++ ds ++ "," ++ tail)))
      with (Ascii.eqb "k" c && starts_with "eys=" (p ++ "keys=" ++ ds ++ "," ++ tail)).
    rewrite P1. simpl andb. cbv iota. simpl truthy. cbv iota. apply IH, P2.
Qed.

Lemma digits_no_k s :
  digits s = true ->
  forallb (fun c => negb (Ascii.eqb "k" c)) (list_ascii_of_string s) = true.
Proof.
  induction s as [|c s IH]; intros H; [reflexivity|].
  apply digits_cons in H as [H1 H2]. cbn [forallb list_ascii_of_string].
  rewrite Ascii.eqb_sym, (is_digit_not c "k" eq_refl H1). simpl. apply IH, H2.
Qed.

Lemma forallb_string_app (f : ascii -> bool) a b :
  forallb f (list_ascii_of_string a) = true -> forallb f (list_ascii_of_string b) = true ->
  forallb f (list_ascii_of_string (a ++ b)) = true.
Proof.
  induction a as [|c a IH]; intros Ha Hb; [exact Hb|].
  change (String c a ++ b) with (String c (a ++ b)). simpl in *.
  apply andb_true_iff in Ha as [H1 H2]. rewrite H1. simpl. apply IH; assumption.
Qed.

Lemma keyspace_db_line total idx count tail :
  digits idx = true -> digits count = true -> count <> EmptyString ->
  keyspace_line total (db_line (idx, count, tail))
  = (total + of_integer (digits_value 0 count))%float.
Proof.
  intros Hi Hc N. unfold keyspace_line, db_line. simpl fst. simpl snd.
  change (starts_with "db" ("db" ++ idx ++ ":keys=" ++ count ++ "," ++ tail)) with true.
  cbv iota.
  replace ("db" ++ idx ++ ":keys=" ++ count ++ "," ++ tail)
    with (("db" ++ idx ++ ":") ++ "keys=" ++ count ++ "," ++ tail)
    by (rewrite !append_assoc; reflexivity).
  rewrite match_keys_after; [|
    apply (forallb_string_app _ "db"); [reflexivity|];
    apply forallb_string_app; [apply digits_no_k, Hi | reflexivity] | exact Hc | exact N].
  rewrite parseInt_digits by assumption. reflexivity.
Qed.

(** The total of [parseKeyspaceInfo] over a keyspace text is the sum of
    the numbers of keys of its databases, each read as the number nearest
    to what its digits write; the header, and whatever follows the number
    on a line, do not count. *)
Theorem parseKeyspaceInfo_sums (dbs : list (string * string * string)) :
  Forall (fun d => digits (fst (fst d)) = true /\
                   digits (snd (fst d)) = true /\ snd (fst d) <> EmptyString /\
                   one_line (snd d) = true) dbs ->
  parseKeyspaceInfo (keyspace_text dbs)
  = fold_left (fun total d => (total + of_integer (digits_value 0 (snd (fst d))))%float)
              dbs 0%float.
Proof.
  intros F. unfold parseKeyspaceInfo, keyspace_text.
  rewrite lines_join; [|discriminate|].
  - change (fold_left keyspace_line ("# Keyspace" :: List.map db_line dbs) 0%float)
      with (fold_left keyspace_line (List.map db_line dbs) 0%float).
    generalize 0%float. induction F as [|[[idx count] tail] dbs (Hi & Hc & N & _) _ IH];
      intros total; [reflexivity|].
    simpl. rewrite keyspace_db_line by assumption. apply IH.
  - constructor; [reflexivity|].
    apply List.Forall_forall. intros l Hl. apply in_map_iff in Hl as (d & <- & Hd).
    rewrite List.Forall_forall in F. destruct (F d Hd) as (Hi & Hc & _ & Ht).
    unfold db_line.
    repeat first [ apply no_cr_app | apply digits_one_line; assumption | assumption
                 | reflexivity ].
Qed.

Lemma parseKeyspaceInfo_sums_witness :
  parseKeyspaceInfo (keyspace_text [("0", "5", "expires=0,avg_ttl=0");
                                    ("1", "7", "expires=2,keys=9")])
  = (0 + 5 + 7)%float.
Proof.
  apply (parseKeyspaceInfo_sums [("0", "5", "expires=0,avg_ttl=0");
                                 ("1", "7", "expires=2,keys=9")]).
  repeat constructor; discriminate.
Defined.

End Keyspace.

(** ** RAGController: a generation without an identifier *)

Section Controller.
Import RAGService RAGController JsString.

Lemma callMistralAPI_unregistered env prompt n w :
  let w' := snd (MistralApiService.callMistralAPI env prompt n None w) in
  activeGenerations w' = activeGenerations w /\ aborted w' = aborted w.
Proof.
  unfold MistralApiService.callMistralAPI, MistralApiService.call_begin,
    MistralApiService.settle, MistralApiService.call_end, MistralApiService.call_catch,
    MistralApiService.forget.
  destruct (MistralApiService.useFallback env); [split; reflexivity|].
  simpl MistralApiService.registered. run_monad.
  destruct (bool_decide _); simpl;
    try (destruct (MistralApiService.is_abort _); simpl; split; reflexivity);
    destruct (http_post env prompt) as [st data|error]; simpl;
    try destruct (MistralApiService.has_choices data); simpl;
    try destruct (MistralApiService.is_abort _); split; reflexivity.
Qed.

(** [generateResponse] always answers, and it starts its generation
    without an identifier: the registry of running generations and the set
    of aborted requests are as before, so that no [cancelGeneration] can
    reach it.  The response reports confidence 0.8 and no result, whatever
    the reply. *)
Theorem generateResponse_unregistered (env : Env) (body : GenerateBody) (w : World) :
  exists r w',
    generateResponse env body w = (Ok r, w') /\
    activeGenerations w' = activeGenerations w /\ aborted w' = aborted w /\
    fst (generateContextualResponse env (body_query body) (body_userId body)
           (body_conversationId body) None w) = Ok (response r) /\
    confidence r = 0.8%float /\ results r = [].
Proof.
  unfold generateResponse, bind.
  assert (A : exists s w',
             generateContextualResponse env (body_query body) (body_userId body)
               (body_conversationId body) None w = (Ok s, w') /\
             activeGenerations w' = activeGenerations w /\ aborted w' = aborted w).
  { unfold generateContextualResponse, try_catch.
    destruct (isStopSignal (body_query body));
      [eexists _, _; repeat split; reflexivity|].
    unfold bind at 1, session_of.
    assert (S : exists sid w0,
               match body_conversationId body with
               | Some s => if truthy s then ret s
                           else (let* now := Date_now env in ret ("session_" ++ JsString.of_Z now)%string)
               | None => let* now := Date_now env in ret ("session_" ++ JsString.of_Z now)%string
               end w = (Ok sid, w0) /\
               activeGenerations w0 = activeGenerations w /\ aborted w0 = aborted w).
    { destruct (body_conversationId body) as [s|]; [destruct (truthy s)|];
        run_monad; eexists _, _; repeat split; reflexivity. }
    destruct S as (sid & w0 & -> & G0 & B0).
    unfold bind at 1, getOrCreateConversationContext, findOne, bind, gets, Date_now, ret.
    cbv beta iota zeta.
    assert (Fin : forall (c : ContextDocument) (w1 : World),
      activeGenerations w1 = activeGenerations w -> aborted w1 = aborted w ->
      exists s w',
        (let (o, w') := (if stopped c then (fun w => (Ok stopped_message, w))
                         else exchange env (body_query body) (body_userId body) None c) w1 in
         match o with
         | Ok a => (Ok a, w')
         | Throw _ => (Ok technical_issues, w')
         end) = (Ok s, w') /\
        activeGenerations w' = activeGenerations w /\ aborted w' = aborted w).
    { intros c w1 G1 B1.
      destruct (stopped c); [eexists _, _; (split; [reflexivity|]); split; assumption|].
      unfold exchange, bind, Date_now. cbv beta iota zeta.
      match goal with |- context [searchUserRelevantDocuments env ?q0 ?u0 ?c0 ?w2] =>
        destruct (searchUserRelevantDocuments_frame env q0 u0 c0 w2)
          as (l & w3 & E1 & (_ & G3 & B3 & _)) end.
      rewrite E1. simpl in G3, B3. cbv beta iota zeta.
      match goal with |- context [MistralApiService.callMistralAPI env ?p 1000 None w3] =>
        destruct (callMistralAPI_unregistered env p 1000 w3) as [G4 B4];
        destruct (MistralApiService.callMistralAPI env p 1000 None w3)
          as [[response|e] w4] end;
        simpl in G4, B4; cbv beta iota zeta;
        [|eexists _, _; (split; [reflexivity|]); split; simpl; congruence].
      destruct (first_choice response) as [choice|]; simpl;
        [|eexists _, _; (split; [reflexivity|]); split; simpl; congruence].
      unfold saveConversationContext, save, bind, Date_now, gets, modify, throw, ret.
      cbv beta iota zeta. simpl.
      destruct (isNew c && bool_decide _); simpl;
        eexists _, _; (split; [reflexivity|]); split; simpl; congruence. }
    destruct (conversations w0 !! sid) as [c0|].
    - destruct (String.eqb (cc_userId c0) (body_userId body)); cbv beta iota zeta;
        apply Fin; assumption.
    - cbv beta iota zeta. apply Fin; assumption. }
  destruct A as (s & w' & -> & G & B).
  eexists _, _. split; [reflexivity|]. repeat split; assumption.
Qed.

End Controller.
